(** * Proof-of-Devotion consensus engine (consensus/pod/pod.go)

    A shallow embedding of the decision logic of the PoD engine: the
    slot timing primitives, fork choice, the LIB finalizer, the
    double-mint detector, block verification and the heartbeat gate,
    together with the properties the specification states about them.

    Go's [int64] values are integers of [Z] with the two's-complement
    wrap-around written out ([wrap64]); [/] and [%] on [int64] truncate
    toward zero ([Z.quot], [Z.rem]).  [int] is taken to be 64 bits wide,
    as on the platforms the node runs on. *)

From Stdlib Require Import ZArith List Lia Bool String Ascii FinFun Sorted.
Import ListNotations.
Local Open Scope Z_scope.

(** ** Machine integers *)

Module Int64.

Definition min_int : Z := - 2 ^ 63.
Definition max_int : Z := 2 ^ 63 - 1.

(** The value of type [int64] (or [int]) an integer wraps to. *)
Definition wrap64 (z : Z) : Z := (z + 2 ^ 63) mod 2 ^ 64 - 2 ^ 63.

Definition in_range (z : Z) : Prop := min_int <= z <= max_int.

Definition add (a b : Z) : Z := wrap64 (a + b).
Definition sub (a b : Z) : Z := wrap64 (a - b).
Definition mul (a b : Z) : Z := wrap64 (a * b).
(** [a / b] and [a % b]; the divisors in this file are non-zero
    constants, so the run-time panic on a zero divisor is not modelled. *)
Definition quo (a b : Z) : Z := wrap64 (Z.quot a b).
Definition rem (a b : Z) : Z := Z.rem a b.

(** [int(h)] for a [uint64] value [h]: the same 64 bits, read signed. *)
Definition of_uint64 (h : Z) : Z := wrap64 h.

End Int64.

(** ** Protocol constants

    The constants are declared in a file of the package that is not part
    of the sources at hand; they are parameters of the development.
    [SecondInMs] is fixed by the specification. *)

(** Modelled from the spec: [SecondMs = 1000]. *)
Definition SecondInMs : Z := 1000.

Class Constants : Type := {
  BlockIntervalInMs : Z;
  DynastyIntervalInMs : Z;
  MinMintDurationInMs : Z;
  MaxMintDurationInMs : Z;
  ConsensusSize : Z
}.

(** What the development assumes of the constants: they are [int64]
    (resp. [int]) values, the intervals are positive, a block interval is
    a whole number of seconds, and a quorum has at least one member. *)
Record wf_constants {consts : Constants} : Prop := {
  wf_block_pos : 0 < BlockIntervalInMs;
  wf_block_range : BlockIntervalInMs < 2 ^ 62;
  wf_block_seconds : BlockIntervalInMs mod SecondInMs = 0;
  wf_dynasty_pos : 0 < DynastyIntervalInMs;
  wf_dynasty_range : DynastyIntervalInMs <= Int64.max_int;
  wf_min_range : Int64.in_range MinMintDurationInMs;
  wf_max_nonneg : 0 <= MaxMintDurationInMs;
  wf_max_range : MaxMintDurationInMs <= Int64.max_int;
  wf_consensus_pos : 1 <= ConsensusSize;
  wf_consensus_range : ConsensusSize <= Int64.max_int
}.

(** Modelled from the spec: the constants of the specification's
    scenarios ([BlockIntervalMs=15000], [DynastyIntervalMs=3600000],
    [ConsensusSize=85], [MinMintDurationMs=2200], [MaxMintDurationMs=5200]). *)
Definition scenario_constants : Constants := {|
  BlockIntervalInMs := 15000;
  DynastyIntervalInMs := 3600000;
  MinMintDurationInMs := 2200;
  MaxMintDurationInMs := 5200;
  ConsensusSize := 85
|}.

(** ** Errors *)

Inductive Error : Type :=
| ErrInvalidBlockTimestamp
| ErrInvalidBlockInterval
| ErrInvalidBlockProposer
| ErrInvalidBlockRandom
| ErrBlockMintedInNextSlot
| ErrWaitingBlockInLastSlot
| ErrGenerateNextConsensusState
| ErrAppendNewBlockFailed
| ErrCannotMintWhenDisable
| ErrCannotMintWhenPending
| ErrNoHeartbeatWhenDisable
| ErrMinerNotSignUp
| ErrExternal (msg : string).

(** A Go result [(v, err)]. *)
Inductive result (A : Type) : Type :=
| Ok (v : A)
| Err (e : Error).
Arguments Ok {A} v.
Arguments Err {A} e.

(** ** Timing primitives *)

Section Timing.
Context {consts : Constants}.

Definition lastSlot (nowInMs : Z) : Z :=
  Int64.mul (Int64.quo (Int64.sub nowInMs SecondInMs) BlockIntervalInMs)
            BlockIntervalInMs.

Definition nextSlot (nowInMs : Z) : Z :=
  Int64.mul
    (Int64.quo (Int64.sub (Int64.add nowInMs BlockIntervalInMs) SecondInMs)
               BlockIntervalInMs)
    BlockIntervalInMs.

Definition deadline (nowInMs : Z) : Z :=
  let nextSlotInMs := nextSlot nowInMs in
  let remainInMs := Int64.sub nextSlotInMs nowInMs in
  if remainInMs <? MaxMintDurationInMs then nextSlotInMs
  else Int64.add nowInMs MaxMintDurationInMs.

End Timing.

(** ** Bytes, hashes and addresses *)

Definition Bytes : Type := list Byte.byte.

Definition Bytes_eq_dec : forall a b : Bytes, {a = b} + {a <> b} :=
  list_eq_dec Byte.byte_eq_dec.

(** [a.Equals(b)] on [byteutils.Hash] and on [*core.Address]. *)
Definition Equals (a b : Bytes) : bool :=
  if Bytes_eq_dec a b then true else false.

(** Modelled from the spec: [byteutils.Less] is not among the sources;
    the specification orders hashes lexicographically, which is the order
    of the bytes read as unsigned numbers, a proper prefix being smaller. *)
Fixpoint Less (a b : Bytes) : bool :=
  match a, b with
  | _, [] => false
  | [], _ :: _ => true
  | x :: a', y :: b' =>
      if (Byte.to_N x <? Byte.to_N y)%N then true
      else if (Byte.to_N y <? Byte.to_N x)%N then false
      else Less a' b'
  end.

Definition hex_digit (n : N) : ascii :=
  nth (N.to_nat n)
      ["0"; "1"; "2"; "3"; "4"; "5"; "6"; "7"; "8"; "9";
       "a"; "b"; "c"; "d"; "e"; "f"]%char "0"%char.

(** Modelled from the spec: [byteutils.Hex] is not among the sources; the
    specification collects the proposers themselves, so the key of a
    proposer is taken to be its lower-case base-16 form, two digits a
    byte. *)
Fixpoint Hex (data : Bytes) : string :=
  match data with
  | [] => EmptyString
  | x :: rest =>
      String (hex_digit (Byte.to_N x / 16))
             (String (hex_digit (Byte.to_N x mod 16)) (Hex rest))
  end.

Definition Address : Type := Bytes.

(** ** Blocks *)

Record ConsensusRoot : Type := {
  Proposer : Bytes;
  RootTimestamp : Z
}.

Record Block : Type := {
  Height : Z;                 (* uint64 *)
  Timestamp : Z;              (* int64, seconds *)
  Hash : Bytes;
  ParentHash : Bytes;
  Root : ConsensusRoot;       (* block.ConsensusRoot() *)
  Miner : Address;
  Alg : Z;
  Signature : Bytes;
  HasRandomSeed : bool
}.

(** ** The LRU caches (hashicorp/golang-lru), most recently used first *)

Module LRU.
Section Cache.
Context {K V : Type} (eqb : K -> K -> bool).

Record Cache : Type := { size : nat; items : list (K * V) }.

Definition New (n : nat) : Cache := {| size := n; items := [] |}.

Definition lookup (c : Cache) (k : K) : option V :=
  option_map snd (find (fun kv => eqb (fst kv) k) (items c)).

Definition without (k : K) (l : list (K * V)) : list (K * V) :=
  filter (fun kv => negb (eqb (fst kv) k)) l.

(** [Get] returns the value and makes the entry the most recent one. *)
Definition Get (c : Cache) (k : K) : option V * Cache :=
  match lookup c k with
  | Some v => (Some v, {| size := size c; items := (k, v) :: without k (items c) |})
  | None => (None, c)
  end.

(** [Add] overwrites an entry that is present; otherwise it inserts
    and evicts the oldest entry once the size is exceeded. *)
Definition Add (c : Cache) (k : K) (v : V) : Cache :=
  match lookup c k with
  | Some _ => {| size := size c; items := (k, v) :: without k (items c) |}
  | None =>
      let l := (k, v) :: items c in
      {| size := size c;
         items := if (size c <? List.length l)%nat then removelast l else l |}
  end.

Definition Remove (c : Cache) (k : K) : Cache :=
  {| size := size c; items := without k (items c) |}.

End Cache.
End LRU.

(** ** Reports, payloads, transactions, events *)

Inductive Evil : Type := AttackDoubleSpend | AttackNotMiner.

Record Report : Type := {
  ReportTimestamp : Z;
  ReportMiner : string;
  ReportEvil : Evil
}.

Inductive PodAction : Type := PoDReport | PoDHeartbeat | PoDState.

Record PodPayload : Type := {
  Serial : Z;
  Action : PodAction;
  Data : Bytes
}.

Record Transaction : Type := {
  tx_chainID : Z;
  tx_from : Address;
  tx_to : Address;
  tx_value : Z;
  tx_nonce : Z;               (* uint64 *)
  tx_payload : Bytes;         (* of type TxPayloadPodType *)
  tx_timestamp : Z;
  tx_hash : Bytes;
  tx_alg : Z;
  tx_sign : Bytes
}.

Inductive Topic : Type := TopicLibBlock.

Record Event : Type := { EventTopic : Topic; EventData : string }.

(** ** The chain and the engine *)

Record BlockChain : Type := {
  tailBlock : Block;
  LIB : Block;
  detachedTailBlocks : list Block;
  blocks : list Block;        (* what GetBlock can find *)
  ChainID : Z
}.

(** What the engine does to its collaborators, oldest first.  The log is
    there to state the order of the effects; a call that fails leaves no
    entry. *)
Inductive Effect : Type :=
| StoredLIBHash (b : Block)
| SetLIBTo (b : Block)
| RemovedReversible (key : string)
| Triggered (e : Event)
| BroadcastWitness (hashes : list Bytes)
| PushedTransaction (tx : Transaction).

Record PoD : Type := {
  chain : BlockChain;
  coinbase : Address;
  miner : Address;
  enableRemoteSignServer : bool;
  remoteSignServer : string;
  slot : @LRU.Cache Z Block;
  reversible : @LRU.Cache string Bytes;
  enable : bool;
  pending : bool;
  launchBeat : bool;
  effects : list Effect
}.

(** ** The collaborators

    The chain store, the dynasty registry, the account manager, the
    pools and the codecs are outside the engine; the engine sees them
    through the operations below, each of which may fail where the Go
    signature returns an [error]. *)

Class Neblet : Type := {
  (* core *)
  NodeUpdateAtHeight : Z -> bool;
  RandomAvailableAtHeight : Z -> bool;
  CheckGenesisBlock : Block -> bool;
  AddressParseFromBytes : Bytes -> result Address;
  RecoverSignerFromSignature : Z -> Bytes -> Bytes -> result Address;
  AddressString : Address -> string;
  BlockString : Block -> string;
  ReportToBytes : Report -> Bytes;
  PoDContract : Address;
  SECP256K1 : Z;
  NewPodPayload : Z -> PodAction -> Bytes -> result PodPayload;
  PayloadToBytes : PodPayload -> result Bytes;
  TxPayloadPodType : string;
  TransactionMaxGasPrice : Z;
  TransactionMaxGas : Z;
  NewTransaction :
    Z -> Address -> Address -> Z -> Z -> string -> Bytes -> Z -> Z ->
    result Transaction;
  HashTransaction : Transaction -> result Bytes;
  (* chain *)
  StoreLIBHashToStorage : Block -> option Error;
  SetTailBlock : BlockChain -> Block -> BlockChain * option Error;
  GetAccountNonce : Block -> Bytes -> result Z;
  PushAndBroadcast : Transaction -> option Error;
  (* dynasty registry; [isProposer] is the first of its two results, the
     only one its callers keep *)
  DynastyTrie : Type;
  isProposer : Z -> Bytes -> bool;
  getDynasty : Z -> result DynastyTrie;
  TraverseDynasty : DynastyTrie -> result (list Bytes);
  FindProposer : Z -> list Bytes -> result Bytes;
  getParticipants : result (list string);
  (* network, account manager, remote sign server *)
  broadcastWitness : list Bytes -> option Error;
  SignTransaction : Address -> Transaction -> result Transaction;
  SignHash : string -> string -> Bytes -> Z -> result Bytes
}.

(** Modelled from the spec: [chain.GetBlock] is not among the sources;
    [get_block(hash)] is the parent lookup, which answers with the stored
    block of that hash, if there is one. *)
Definition GetBlock (bc : BlockChain) (hash : Bytes) : option Block :=
  find (fun b => Equals (Hash b) hash) (blocks bc).

(** *** Field updates *)

Definition with_tailBlock (bc : BlockChain) (b : Block) : BlockChain :=
  {| tailBlock := b; LIB := LIB bc;
     detachedTailBlocks := detachedTailBlocks bc;
     blocks := blocks bc; ChainID := ChainID bc |}.

Definition SetLIB (bc : BlockChain) (b : Block) : BlockChain :=
  {| tailBlock := tailBlock bc; LIB := b;
     detachedTailBlocks := detachedTailBlocks bc;
     blocks := blocks bc; ChainID := ChainID bc |}.

Definition with_chain (pod : PoD) (bc : BlockChain) : PoD :=
  {| chain := bc; coinbase := coinbase pod; miner := miner pod;
     enableRemoteSignServer := enableRemoteSignServer pod;
     remoteSignServer := remoteSignServer pod;
     slot := slot pod; reversible := reversible pod;
     enable := enable pod; pending := pending pod;
     launchBeat := launchBeat pod; effects := effects pod |}.

Definition with_slot (pod : PoD) (c : @LRU.Cache Z Block) : PoD :=
  {| chain := chain pod; coinbase := coinbase pod; miner := miner pod;
     enableRemoteSignServer := enableRemoteSignServer pod;
     remoteSignServer := remoteSignServer pod;
     slot := c; reversible := reversible pod;
     enable := enable pod; pending := pending pod;
     launchBeat := launchBeat pod; effects := effects pod |}.

Definition with_reversible (pod : PoD) (c : @LRU.Cache string Bytes) : PoD :=
  {| chain := chain pod; coinbase := coinbase pod; miner := miner pod;
     enableRemoteSignServer := enableRemoteSignServer pod;
     remoteSignServer := remoteSignServer pod;
     slot := slot pod; reversible := c;
     enable := enable pod; pending := pending pod;
     launchBeat := launchBeat pod; effects := effects pod |}.

Definition with_launchBeat (pod : PoD) (v : bool) : PoD :=
  {| chain := chain pod; coinbase := coinbase pod; miner := miner pod;
     enableRemoteSignServer := enableRemoteSignServer pod;
     remoteSignServer := remoteSignServer pod;
     slot := slot pod; reversible := reversible pod;
     enable := enable pod; pending := pending pod;
     launchBeat := v; effects := effects pod |}.

(** Appends an effect to the log. *)
Definition did (pod : PoD) (e : Effect) : PoD :=
  {| chain := chain pod; coinbase := coinbase pod; miner := miner pod;
     enableRemoteSignServer := enableRemoteSignServer pod;
     remoteSignServer := remoteSignServer pod;
     slot := slot pod; reversible := reversible pod;
     enable := enable pod; pending := pending pod;
     launchBeat := launchBeat pod; effects := effects pod ++ [e] |}.

Definition SetTimestamp (tx : Transaction) (timestamp : Z) : Transaction :=
  {| tx_chainID := tx_chainID tx; tx_from := tx_from tx; tx_to := tx_to tx;
     tx_value := tx_value tx; tx_nonce := tx_nonce tx;
     tx_payload := tx_payload tx; tx_timestamp := timestamp;
     tx_hash := tx_hash tx; tx_alg := tx_alg tx; tx_sign := tx_sign tx |}.

Definition SetHash (tx : Transaction) (hash : Bytes) : Transaction :=
  {| tx_chainID := tx_chainID tx; tx_from := tx_from tx; tx_to := tx_to tx;
     tx_value := tx_value tx; tx_nonce := tx_nonce tx;
     tx_payload := tx_payload tx; tx_timestamp := tx_timestamp tx;
     tx_hash := hash; tx_alg := tx_alg tx; tx_sign := tx_sign tx |}.

Definition SetSignature (tx : Transaction) (alg : Z) (sign : Bytes) : Transaction :=
  {| tx_chainID := tx_chainID tx; tx_from := tx_from tx; tx_to := tx_to tx;
     tx_value := tx_value tx; tx_nonce := tx_nonce tx;
     tx_payload := tx_payload tx; tx_timestamp := tx_timestamp tx;
     tx_hash := tx_hash tx; tx_alg := alg; tx_sign := sign |}.

(** [uint64] addition. *)
Definition add_uint64 (a b : Z) : Z := (a + b) mod 2 ^ 64.

(** [len(m)] as an [int]. *)
Definition len {A : Type} (l : list A) : Z := Z.of_nat (List.length l).

(** [m[key] = true] on a [map[string]bool], kept as the list of its keys. *)
Definition map_set (key : string) (m : list string) : list string :=
  if in_dec string_dec key m then m else key :: m.

(** ** The engine *)

Section Engine.
Context {consts : Constants} {neblet : Neblet}.

(** Modelled from the spec: [dynasty.serial] is not among the sources;
    [serial(ts_s) = (ts_s * SecondMs) / DynastyIntervalMs], which is
    also what [UpdateLIB] computes for a block. *)
Definition serial (timestamp : Z) : Z :=
  Int64.quo (Int64.mul timestamp SecondInMs) DynastyIntervalInMs.

(** *** The mint deadline *)

Definition checkDeadline (tail : Block) (nowInMs : Z) : result Z :=
  let lastSlotInMs := lastSlot nowInMs in
  let nextSlotInMs := nextSlot nowInMs in
  if Int64.mul (Timestamp tail) SecondInMs >=? nextSlotInMs then
    Err ErrBlockMintedInNextSlot
  else if Int64.mul (Timestamp tail) SecondInMs =? lastSlotInMs then
    Ok (deadline nowInMs)
  else if Int64.sub nextSlotInMs nowInMs <=? MinMintDurationInMs then
    Ok (deadline nowInMs)
  else Err ErrWaitingBlockInLastSlot.

(** *** Fork choice *)

Definition less (a b : Block) : bool :=
  if negb (Height a =? Height b) then Height a <? Height b
  else Less (Hash a) (Hash b).

(** The block the loop of [ForkChoice] ends with. *)
Definition bestTail (tail : Block) (detached : list Block) : Block :=
  fold_left (fun newTailBlock v => if less newTailBlock v then v else newTailBlock)
            detached tail.

Definition ForkChoice (pod : PoD) : PoD * option Error :=
  let bc := chain pod in
  let tail := tailBlock bc in
  let newTailBlock := bestTail tail (detachedTailBlocks bc) in
  if Equals (Hash newTailBlock) (Hash tail) then (pod, None)
  else
    let (bc', err) := SetTailBlock bc newTailBlock in
    (with_chain pod bc', err).

(** *** The LIB finalizer *)

Definition setLib (pod : PoD) (block : Block) (confirmed : Z) : PoD :=
  match StoreLIBHashToStorage block with
  | Some _ => pod
  | None =>
      let pod := did pod (StoredLIBHash block) in
      let pod := did (with_chain pod (SetLIB (chain pod) block)) (SetLIBTo block) in
      let key := Hex (Hash block) in
      let pod := did (with_reversible pod (LRU.Remove String.eqb (reversible pod) key))
                     (RemovedReversible key) in
      let e := {| EventTopic := TopicLibBlock;
                  EventData := BlockString (LIB (chain pod)) |} in
      did pod (Triggered e)
  end.

(** The loop of [UpdateLIB]; [None] when the fuel runs out before the
    loop is left. *)
Fixpoint walk (fuel : nat) (pod : PoD) (lib cur : Block)
         (miners : list string) (dynasty : Z) : option PoD :=
  match fuel with
  | O => None
  | S fuel' =>
      if Equals (Hash cur) (Hash lib) then Some pod
      else
        let curDynasty :=
          Int64.quo (Int64.mul (Timestamp cur) SecondInMs) DynastyIntervalInMs in
        let miners := if negb (curDynasty =? dynasty) then [] else miners in
        let dynasty := if negb (curDynasty =? dynasty) then curDynasty else dynasty in
        if Int64.sub (Int64.of_uint64 (Height cur)) (Int64.of_uint64 (Height lib))
           <? Int64.sub ConsensusSize (len miners)
        then Some pod
        else
          let miners := map_set (Hex (Proposer (Root cur))) miners in
          if len miners >=? ConsensusSize then Some (setLib pod cur (len miners))
          else
            match GetBlock (chain pod) (ParentHash cur) with
            | None => Some pod
            | Some parent =>
                if CheckGenesisBlock parent then Some pod
                else walk fuel' pod lib parent miners dynasty
            end
  end.

Definition UpdateLIB (fuel : nat) (pod : PoD) (rversibleBlocks : list Bytes)
  : option PoD :=
  let pod :=
    if enable pod && NodeUpdateAtHeight (Height (tailBlock (chain pod))) then
      if isProposer (Timestamp (tailBlock (chain pod))) (miner pod) then
        match broadcastWitness rversibleBlocks with
        | None => did pod (BroadcastWitness rversibleBlocks)
        | Some _ => pod
        end
      else pod
    else pod in
  let lib := LIB (chain pod) in
  let tail := tailBlock (chain pod) in
  walk fuel pod lib tail [] (-1).

(** *** Governance transactions *)

Definition remoteSign (pod : PoD) (alg : Z) (hash : Bytes) : result Bytes :=
  SignHash (remoteSignServer pod) (AddressString (miner pod)) hash alg.

Definition signTransaction (pod : PoD) (tx : Transaction) : result Transaction :=
  if enableRemoteSignServer pod then
    match remoteSign pod SECP256K1 (tx_hash tx) with
    | Err e => Err e
    | Ok sign => Ok (SetSignature tx SECP256K1 sign)
    end
  else SignTransaction (miner pod) tx.

Definition sendTransaction (pod : PoD) (timestamp : Z) (action : PodAction)
           (data : Bytes) : PoD * option Error :=
  match NewPodPayload (serial timestamp) action data with
  | Err e => (pod, Some e)
  | Ok payload =>
  match PayloadToBytes payload with
  | Err e => (pod, Some e)
  | Ok bytes =>
  match GetAccountNonce (tailBlock (chain pod)) (miner pod) with
  | Err e => (pod, Some e)
  | Ok accNonce =>
  let nonce := add_uint64 accNonce 1 in
  match NewTransaction (ChainID (chain pod)) (miner pod) PoDContract 0 nonce
          TxPayloadPodType bytes TransactionMaxGasPrice TransactionMaxGas with
  | Err e => (pod, Some e)
  | Ok tx =>
  let tx := SetTimestamp tx timestamp in
  match HashTransaction tx with
  | Err e => (pod, Some e)
  | Ok hash =>
  let tx := SetHash tx hash in
  match signTransaction pod tx with
  | Err e => (pod, Some e)
  | Ok tx =>
  match PushAndBroadcast tx with
  | Some e => (pod, Some e)
  | None => (did pod (PushedTransaction tx), None)
  end end end end end end end.

(** *** The evil detector *)

Definition reportEvil (pod : PoD) (preBlock block : Block) : PoD :=
  if negb (enable pod)
     || negb (NodeUpdateAtHeight (Height (tailBlock (chain pod))))
  then pod
  else if isProposer (Timestamp block) (miner pod) then
    let evil := if Equals (Miner preBlock) (Miner block)
                then AttackDoubleSpend else AttackNotMiner in
    let report := {| ReportTimestamp := Timestamp block;
                     ReportMiner := AddressString (Miner block);
                     ReportEvil := evil |} in
    let bytes := ReportToBytes report in
    fst (sendTransaction pod (Timestamp block) PoDReport bytes)
  else pod.

Definition CheckDoubleMint (pod : PoD) (block : Block) : bool * PoD :=
  match LRU.Get Z.eqb (slot pod) (Timestamp block) with
  | (Some preBlock, touched) =>
      let pod := with_slot pod touched in
      if negb (Equals (Hash preBlock) (Hash block))
      then (true, reportEvil pod preBlock block)
      else (false, pod)
  | (None, _) => (false, pod)
  end.

(** *** Verification *)

Definition verifyBlockSign (miner : Address) (block : Block) : option Error :=
  match RecoverSignerFromSignature (Alg block) (Hash block) (Signature block) with
  | Err e => Some e
  | Ok signer =>
      if negb (Equals miner signer) then Some ErrInvalidBlockProposer else None
  end.

Definition VerifyBlock (pod : PoD) (block : Block) : PoD * option Error :=
  if negb (Timestamp block =? RootTimestamp (Root block)) then
    (pod, Some ErrInvalidBlockTimestamp)
  else
    let elapsedSecondInMs := Int64.mul (Timestamp block) SecondInMs in
    if (elapsedSecondInMs <=? 0)
       || negb (Int64.rem elapsedSecondInMs BlockIntervalInMs =? 0)
    then (pod, Some ErrInvalidBlockInterval)
    else
      match getDynasty (Timestamp block) with
      | Err e => (pod, Some e)
      | Ok cs =>
      match TraverseDynasty cs with
      | Err e => (pod, Some e)
      | Ok miners =>
      match FindProposer (Timestamp block) miners with
      | Err e => (pod, Some e)
      | Ok proposer =>
      match AddressParseFromBytes proposer with
      | Err e => (pod, Some e)
      | Ok miner =>
      match verifyBlockSign miner block with
      | Some e => (pod, Some e)
      | None =>
          if RandomAvailableAtHeight (Height block) && negb (HasRandomSeed block)
          then (pod, Some ErrInvalidBlockRandom)
          else (with_slot pod (LRU.Add Z.eqb (slot pod) (Timestamp block) block),
                None)
      end end end end end.

(** *** Heartbeat *)

(** [now] is not the middle of a dynasty interval; the constant
    expression [DynastyIntervalInMs/2] is exact integer division. *)
Definition offMidpoint (now : Z) : bool :=
  let nowInMs := Int64.mul now SecondInMs in
  negb (Int64.rem (Int64.add nowInMs (Z.quot DynastyIntervalInMs 2))
                  DynastyIntervalInMs =? 0).

Definition heartbeat (pod : PoD) (now : Z) : PoD * option Error :=
  if negb (enable pod) then (pod, Some ErrNoHeartbeatWhenDisable)
  else if negb (NodeUpdateAtHeight (Height (tailBlock (chain pod)))) then (pod, None)
  else if launchBeat pod && offMidpoint now then (pod, None)
  else
    let pod := with_launchBeat pod true in
    match getParticipants with
    | Err e => (pod, Some e)
    | Ok participants =>
        let minerSignUp :=
          existsb (String.eqb (AddressString (miner pod))) participants in
        if minerSignUp then sendTransaction pod now PoDHeartbeat []
        else (pod, Some ErrMinerNotSignUp)
    end.

End Engine.

(** ** Statements about the engine *)

Section Statements.
Context {consts : Constants} {neblet : Neblet}.



(** The report [reportEvil] builds for two conflicting blocks. *)
Definition reportOf (preBlock block : Block) : Report :=
  {| ReportTimestamp := Timestamp block;
     ReportMiner := AddressString (Miner block);
     ReportEvil := if Equals (Miner preBlock) (Miner block)
                   then AttackDoubleSpend else AttackNotMiner |}.

(** Invariant of the slot cache: a block is kept under its timestamp. *)
Definition keys_are_timestamps (c : @LRU.Cache Z Block) : Prop :=
  Forall (fun kv => Timestamp (snd kv) = fst kv) (LRU.items c).

End Statements.

(** ** Finality, as the specification words it *)

(** Reads a base-16 digit back. *)
Definition unhex_digit (c : ascii) : N :=
  let n := N_of_ascii c in
  if (n <? 58)%N then (n - 48)%N else (n - 87)%N.

Definition unhex_byte (hi lo : ascii) : option Byte.byte :=
  Byte.of_N (16 * unhex_digit hi + unhex_digit lo).

Section Finality.
Context {consts : Constants} {neblet : Neblet}.

(** The proposers of the blocks walked since the dynasty serial last
    changed; [walked] lists the blocks already walked, the latest
    first, and [s] is the serial of the block being looked at. *)
Fixpoint sameDynastyRun (s : Z) (walked : list Block) : list Bytes :=
  match walked with
  | [] => []
  | b :: earlier =>
      if serial (Timestamp b) =? s
      then Proposer (Root b) :: sameDynastyRun s earlier
      else []
  end.

Definition proposersAt (walked : list Block) (b : Block) : list Bytes :=
  Proposer (Root b) :: sameDynastyRun (serial (Timestamp b)) walked.

(** The number of distinct proposers in a list. *)
Definition distinct (l : list Bytes) : Z := len (nodup Bytes_eq_dec l).

(** The first block of [path], walked after [walked], at which the
    distinct proposers of its dynasty run number [ConsensusSize]. *)
Fixpoint firstQuorum (walked path : list Block) : option Block :=
  match path with
  | [] => None
  | b :: rest =>
      if ConsensusSize <=? distinct (proposersAt walked b) then Some b
      else firstQuorum (b :: walked) rest
  end.

(** [ancestry bc lib cur path]: following parent hashes from [cur]
    leads, through the blocks of [path] ([cur] first), to the block
    with the hash of [lib], one height at a time. *)
Inductive ancestry (bc : BlockChain) (lib : Block) : Block -> list Block -> Prop :=
| ancestry_lib cur :
    Hash cur = Hash lib ->
    Height cur = Height lib ->
    ancestry bc lib cur []
| ancestry_step cur parent rest :
    Hash cur <> Hash lib ->
    GetBlock bc (ParentHash cur) = Some parent ->
    Height cur = Height parent + 1 ->
    (Hash parent <> Hash lib -> CheckGenesisBlock parent = false) ->
    ancestry bc lib parent rest ->
    ancestry bc lib cur (cur :: rest).

(** The path of [ancestry], computed. *)
Fixpoint ancestors (fuel : nat) (bc : BlockChain) (lib cur : Block)
  : option (list Block) :=
  match fuel with
  | O => None
  | S fuel' =>
      if Equals (Hash cur) (Hash lib) then
        if Height cur =? Height lib then Some [] else None
      else
        match GetBlock bc (ParentHash cur) with
        | None => None
        | Some parent =>
            if (Height cur =? Height parent + 1)
               && (Equals (Hash parent) (Hash lib)
                   || negb (CheckGenesisBlock parent))
            then option_map (cons cur) (ancestors fuel' bc lib parent)
            else None
        end
  end.

(** [miners] holds exactly the keys of the proposers of [l]. *)
Definition tracks (miners : list string) (l : list Bytes) : Prop :=
  NoDup miners /\ forall k, In k miners <-> In k (map Hex l).

(** What the loop of [UpdateLIB] knows after walking [walked]. *)
Definition walk_state (miners : list string) (dynasty : Z) (walked : list Block)
  : Prop :=
  tracks miners (sameDynastyRun dynasty walked)
  /\ (walked = [] \/ exists b earlier,
         walked = b :: earlier /\ dynasty = serial (Timestamp b)).

(** What the walk makes of the engine once it has, or has not, met a
    quorum; [setLib] uses its count for the log line only. *)
Definition finalized (pod : PoD) (quorum : option Block) : PoD :=
  match quorum with
  | Some b => setLib pod b ConsensusSize
  | None => pod
  end.

End Finality.

(** ** Worked scenarios

    Stand-ins for the collaborators, and the chains of the
    specification's scenarios.  With [storage_ok] unset the chain store
    refuses to write. *)

Definition key_of (i : nat) : Bytes :=
  match Byte.of_N (N.of_nat i) with
  | Some b => [b]
  | None => []
  end.

Definition block_at (height timestamp : Z) (hash parent proposer miner : Bytes)
  : Block :=
  {| Height := height; Timestamp := timestamp; Hash := hash; ParentHash := parent;
     Root := {| Proposer := proposer; RootTimestamp := timestamp |};
     Miner := miner; Alg := 1; Signature := miner; HasRandomSeed := true |}.

Definition collaborators (storage_ok : bool) : Neblet := {|
  NodeUpdateAtHeight := fun _ => true;
  RandomAvailableAtHeight := fun _ => true;
  CheckGenesisBlock := fun b => Height b =? 1;
  AddressParseFromBytes := fun b => Ok b;
  RecoverSignerFromSignature := fun _ _ sign => Ok sign;
  AddressString := Hex;
  BlockString := fun b => Hex (Hash b);
  ReportToBytes := fun r =>
    match ReportEvil r with
    | AttackDoubleSpend => key_of 1
    | AttackNotMiner => key_of 2
    end;
  PoDContract := key_of 0;
  SECP256K1 := 1;
  NewPodPayload := fun s a d => Ok {| Serial := s; Action := a; Data := d |};
  PayloadToBytes := fun p => Ok (Data p);
  TxPayloadPodType := "pod";
  TransactionMaxGasPrice := 1000000000000;
  TransactionMaxGas := 50000000000;
  NewTransaction := fun chainID from to value nonce _ payload _ _ =>
    Ok {| tx_chainID := chainID; tx_from := from; tx_to := to;
          tx_value := value; tx_nonce := nonce; tx_payload := payload;
          tx_timestamp := 0; tx_hash := []; tx_alg := 0; tx_sign := [] |};
  HashTransaction := fun tx => Ok (tx_payload tx);
  StoreLIBHashToStorage := fun _ =>
    if storage_ok then None else Some (ErrExternal "storage");
  SetTailBlock := fun bc b =>
    if storage_ok then (with_tailBlock bc b, None)
    else (bc, Some (ErrExternal "storage"));
  GetAccountNonce := fun _ _ => Ok 0;
  PushAndBroadcast := fun _ => None;
  DynastyTrie := list Bytes;
  isProposer := fun _ _ => true;
  getDynasty := fun _ => Ok [key_of 7];
  TraverseDynasty := fun trie => Ok trie;
  FindProposer := fun _ miners =>
    match miners with
    | m :: _ => Ok m
    | [] => Err ErrInvalidBlockProposer
    end;
  getParticipants := Ok [];
  broadcastWitness := fun _ => None;
  SignTransaction := fun _ tx => Ok tx;
  SignHash := fun _ _ hash _ => Ok hash
|}.

Definition engine_on (bc : BlockChain) : PoD :=
  {| chain := bc; coinbase := key_of 7; miner := key_of 7;
     enableRemoteSignServer := false; remoteSignServer := EmptyString;
     slot := LRU.New 128; reversible := LRU.New 128;
     enable := true; pending := false; launchBeat := false; effects := [] |}.

(** S5: heights 1 (the LIB) to 100 (the tail), one block a slot, every
    block proposed by another miner, all in dynasty 0. *)
Definition s5_block (i : nat) : Block :=
  block_at (Z.of_nat i) (15 * Z.of_nat i)
           (key_of i) (key_of (i - 1)) (key_of i) (key_of i).

Definition s5_chain : BlockChain :=
  {| tailBlock := s5_block 100; LIB := s5_block 1; detachedTailBlocks := [];
     blocks := map s5_block (seq 1 100); ChainID := 1 |}.

Definition s5_path : list Block := map s5_block (rev (seq 2 99)).

(** S4: the tail at height 100, three detached tails. *)
Definition s4_tail : Block :=
  block_at 100 1500 [Byte.xaa] [Byte.x63] (key_of 7) (key_of 7).
Definition s4_best : Block :=
  block_at 101 1515 [Byte.x01] [Byte.xaa] (key_of 8) (key_of 8).

Definition s4_chain : BlockChain :=
  {| tailBlock := s4_tail; LIB := s5_block 1;
     detachedTailBlocks :=
       [block_at 100 1500 [Byte.xab] [Byte.x63] (key_of 8) (key_of 8);
        s4_best;
        block_at 99 1485 [Byte.xff] [Byte.x62] (key_of 9) (key_of 9)];
     blocks := []; ChainID := 1 |}.

(** S6: the slot cache holds block A at timestamp 15; B is another block
    of the same miner at that timestamp, C one of another miner. *)
Definition s6_blockA : Block :=
  block_at 2 15 [Byte.x11] (key_of 1) (key_of 7) (key_of 7).
Definition s6_blockB : Block :=
  block_at 2 15 [Byte.x22] (key_of 1) (key_of 7) (key_of 7).
Definition s6_blockC : Block :=
  block_at 2 15 [Byte.x33] (key_of 1) (key_of 8) (key_of 8).

Definition s6_engine : PoD :=
  with_slot (engine_on s5_chain) (LRU.Add Z.eqb (LRU.New 128) 15 s6_blockA).

(** ** Finality by dynasty *)

Section Dynasty.
Context {consts : Constants} {neblet : Neblet}.

(** The proposers of all the walked blocks of dynasty [s]. *)
Definition dynastyProposers (s : Z) (walked : list Block) : list Bytes :=
  map (fun b => Proposer (Root b))
      (filter (fun b => serial (Timestamp b) =? s) walked).

(** The first block of [path] at which the walked blocks of its dynasty,
    itself included, have [ConsensusSize] distinct proposers. *)
Fixpoint firstDynastyQuorum (walked path : list Block) : option Block :=
  match path with
  | [] => None
  | b :: rest =>
      if ConsensusSize
         <=? distinct (Proposer (Root b)
                       :: dynastyProposers (serial (Timestamp b)) walked)
      then Some b
      else firstDynastyQuorum (b :: walked) rest
  end.

(** Timestamps that a block can carry without [serial] wrapping around. *)
Definition plain_timestamp (b : Block) : Prop :=
  0 <= Timestamp b /\ Timestamp b * SecondInMs <= Int64.max_int.

End Dynasty.

(** ** The size of a dynasty *)

Section DynastySize.
Context {consts : Constants}.

(** [uint64(x)] of an [int64]: the same 64 bits, read unsigned. *)
Definition to_uint64 (z : Z) : Z := z mod 2 ^ 64.

Definition NumberOfBlocksInDynasty : Z :=
  to_uint64 DynastyIntervalInMs / to_uint64 BlockIntervalInMs.

End DynastySize.

(** ** The mining gate and the block producer *)

(** [state.ConsensusState], as far as the engine reads it; the proposer
    may be nil. *)
Record ConsensusState : Type := {
  StateProposer : option Bytes;
  StateTimeStamp : Z
}.

(** The collaborators of the producer: the account manager, the block
    and its world state, the block pool, the chain's statistics and the
    dynasty registry ([pod.dynasty.tries], seen through [knows]). *)
Class Workshop : Type := {
  (* account manager; [Unlock] is called with [DefaultMaxUnlockDuration] *)
  Unlock : Address -> string -> option Error;
  Lock : Address -> option Error;
  SignBlock : Address -> Block -> result Block;
  GenerateRandomSeed : Address -> Bytes -> Bytes -> result (Bytes * Bytes);
  (* remote sign server: dial and call *)
  RemoteGenerateRandomSeed :
    string -> string -> Bytes -> Bytes -> result (Bytes * Bytes);
  (* core *)
  NewBlock : Z -> Address -> Block -> result Block;
  SetRandomSeed : Block -> Bytes -> Bytes -> Block;
  SetConsensusState : Block -> ConsensusState -> Block;
  CollectTransactions : Block -> Z -> Block;
  Seal : Block -> result Block;
  NextConsensusState : Block -> Z -> result ConsensusState;
  (* chain; pushing a block makes the chain call back into the engine *)
  GetInputForVRFSigner : BlockChain -> Bytes -> Z -> result (Bytes * Bytes);
  BlockPoolPushAndBroadcast : PoD -> Block -> PoD * option Error;
  Statistics : Type;
  StatisticalLastBlocks : BlockChain -> Z -> result Statistics;
  MarshalStatistics : Statistics -> result Bytes;
  (* dynasty registry *)
  Registry : Type;
  knows : Registry -> Z -> bool;
  loadFromContract : Registry -> Z -> Registry * option Error
}.

Definition with_enable (pod : PoD) (v : bool) : PoD :=
  {| chain := chain pod; coinbase := coinbase pod; miner := miner pod;
     enableRemoteSignServer := enableRemoteSignServer pod;
     remoteSignServer := remoteSignServer pod;
     slot := slot pod; reversible := reversible pod;
     enable := v; pending := pending pod;
     launchBeat := launchBeat pod; effects := effects pod |}.

Definition with_pending (pod : PoD) (v : bool) : PoD :=
  {| chain := chain pod; coinbase := coinbase pod; miner := miner pod;
     enableRemoteSignServer := enableRemoteSignServer pod;
     remoteSignServer := remoteSignServer pod;
     slot := slot pod; reversible := reversible pod;
     enable := enable pod; pending := v;
     launchBeat := launchBeat pod; effects := effects pod |}.

Definition SetBlockTimestamp (block : Block) (timestamp : Z) : Block :=
  {| Height := Height block; Timestamp := timestamp; Hash := Hash block;
     ParentHash := ParentHash block; Root := Root block; Miner := Miner block;
     Alg := Alg block; Signature := Signature block;
     HasRandomSeed := HasRandomSeed block |}.

Definition SetBlockSignature (block : Block) (alg : Z) (sign : Bytes) : Block :=
  {| Height := Height block; Timestamp := Timestamp block; Hash := Hash block;
     ParentHash := ParentHash block; Root := Root block; Miner := Miner block;
     Alg := alg; Signature := sign;
     HasRandomSeed := HasRandomSeed block |}.

(** What producing a block does to the transaction pool and the clock,
    oldest first. *)
Inductive MintStep : Type :=
| Collected (block : Block) (deadlineInMs : Z)
| ReturnedTransactions (block : Block)
| Waited (ms : Z).

(** The commands of the mining gate. *)
Inductive Command : Type :=
| DoEnableMining (passphrase : string)
| DoDisableMining
| DoSuspendMining
| DoResumeMining.

Section Producer.
Context {consts : Constants} {neblet : Neblet} {workshop : Workshop}.

(** *** The mining gate *)

Definition unlock (pod : PoD) (passphrase : string) : option Error :=
  if negb (enableRemoteSignServer pod) then Unlock (miner pod) passphrase
  else None.

Definition EnableMining (pod : PoD) (passphrase : string) : PoD * option Error :=
  match unlock pod passphrase with
  | Some e => (pod, Some e)
  | None => (with_enable pod true, None)
  end.

Definition DisableMining (pod : PoD) : PoD * option Error :=
  match Lock (miner pod) with
  | Some e => (pod, Some e)
  | None => (with_enable pod false, None)
  end.

Definition SuspendMining (pod : PoD) : PoD := with_pending pod true.

Definition ResumeMining (pod : PoD) : PoD := with_pending pod false.

Definition obey (pod : PoD) (c : Command) : PoD :=
  match c with
  | DoEnableMining passphrase => fst (EnableMining pod passphrase)
  | DoDisableMining => fst (DisableMining pod)
  | DoSuspendMining => SuspendMining pod
  | DoResumeMining => ResumeMining pod
  end.

(** *** The proposer check *)

Definition checkProposer (pod : PoD) (tail : Block) (nowInMs : Z)
  : result ConsensusState :=
  let slotInMs := nextSlot nowInMs in
  let elapsedInMs := Int64.sub slotInMs (Int64.mul (Timestamp tail) SecondInMs) in
  match NextConsensusState tail (Int64.quo elapsedInMs SecondInMs) with
  | Err _ => Err ErrGenerateNextConsensusState
  | Ok consensusState =>
      match StateProposer consensusState with
      | None => Err ErrInvalidBlockProposer
      | Some proposer =>
          if negb (Equals proposer (miner pod)) then Err ErrInvalidBlockProposer
          else Ok consensusState
      end
  end.

(** *** Building a block *)

Definition generateRandomSeed (pod : PoD) (block : Block) : result Block :=
  match GetInputForVRFSigner (chain pod) (ParentHash block) (Height block) with
  | Err e => Err e
  | Ok (ancestorHash, parentSeed) =>
      if enableRemoteSignServer pod then
        match RemoteGenerateRandomSeed (remoteSignServer pod)
                (AddressString (miner pod)) parentSeed ancestorHash with
        | Err e => Err e
        | Ok (vrfSeed, vrfProof) => Ok (SetRandomSeed block vrfSeed vrfProof)
        end
      else
        match GenerateRandomSeed (miner pod) ancestorHash parentSeed with
        | Err e => Err e
        | Ok (vrfSeed, vrfProof) => Ok (SetRandomSeed block vrfSeed vrfProof)
        end
  end.

Definition signBlock (pod : PoD) (block : Block) : result Block :=
  if enableRemoteSignServer pod then
    match remoteSign pod SECP256K1 (Hash block) with
    | Err e => Err e
    | Ok sign => Ok (SetBlockSignature block SECP256K1 sign)
    end
  else SignBlock (miner pod) block.

Definition newBlock (pod : PoD) (tail : Block) (consensusState : ConsensusState)
           (deadlineInMs : Z) : result Block * list MintStep :=
  match NewBlock (ChainID (chain pod)) (coinbase pod) tail with
  | Err e => (Err e, [])
  | Ok block =>
  match (if RandomAvailableAtHeight (Height block)
         then generateRandomSeed pod block else Ok block) with
  | Err e => (Err e, [])
  | Ok block =>
  let block := SetConsensusState block consensusState in
  let block := SetBlockTimestamp block (StateTimeStamp consensusState) in
  let block := CollectTransactions block deadlineInMs in
  match Seal block with
  | Err e => (Err e, [Collected block deadlineInMs; ReturnedTransactions block])
  | Ok sealed =>
  match signBlock pod sealed with
  | Err e => (Err e, [Collected block deadlineInMs; ReturnedTransactions sealed])
  | Ok signed => (Ok signed, [Collected block deadlineInMs])
  end end end end.

Definition pushAndBroadcast (pod : PoD) (tail block : Block) : PoD * option Error :=
  let (pod, err) := BlockPoolPushAndBroadcast pod block in
  match err with
  | Some e => (pod, Some e)
  | None =>
      if negb (Equals (Hash (tailBlock (chain pod))) (Hash block))
      then (pod, Some ErrAppendNewBlockFailed)
      else (pod, None)
  end.

(** *** Triggering the contract state *)

Definition triggerState (pod : PoD) (registry : Registry) (now : Z)
  : PoD * Registry * option Error :=
  if negb (enable pod)
     || negb (NodeUpdateAtHeight (Height (tailBlock (chain pod))))
  then (pod, registry, None)
  else
    let serial := serial now in
    let (registry, loaded) :=
      if negb (knows registry (Int64.add serial 1))
      then loadFromContract registry serial
      else (registry, None) in
    match loaded with
    | Some e => (pod, registry, Some e)
    | None =>
        if negb (knows registry (Int64.add serial 1)) then
          match StatisticalLastBlocks (chain pod) serial with
          | Err e => (pod, registry, Some e)
          | Ok states =>
              match MarshalStatistics states with
              | Err e => (pod, registry, Some e)
              | Ok bytes =>
                  let (pod, err) := sendTransaction pod now PoDState bytes in
                  (pod, registry, err)
              end
          end
        else (pod, registry, None)
    end.

(** *** Minting *)

Record Minted : Type := {
  engine : PoD;
  registry : Registry;
  failure : option Error;
  steps : list MintStep
}.

(** [clock] is what [time.Now().Unix()] answers once the block is packed. *)
Definition mintBlock (pod : PoD) (reg : Registry) (now clock : Z) : Minted :=
  let nowInMs := Int64.mul now SecondInMs in
  if negb (enable pod) then
    {| engine := pod; registry := reg;
       failure := Some ErrCannotMintWhenDisable; steps := [] |}
  else if pending pod then
    {| engine := pod; registry := reg;
       failure := Some ErrCannotMintWhenPending; steps := [] |}
  else
    let tail := tailBlock (chain pod) in
    match checkDeadline tail nowInMs with
    | Err e => {| engine := pod; registry := reg; failure := Some e; steps := [] |}
    | Ok deadlineInMs =>
    match checkProposer pod tail nowInMs with
    | Err e => {| engine := pod; registry := reg; failure := Some e; steps := [] |}
    | Ok consensusState =>
    let '(pod, reg, _) := triggerState pod reg now in
    match newBlock pod tail consensusState deadlineInMs with
    | (Err e, packed) =>
        {| engine := pod; registry := reg; failure := Some e; steps := packed |}
    | (Ok block, packed) =>
        let slotInMs := nextSlot nowInMs in
        let currentInMs := Int64.mul clock SecondInMs in
        let waited :=
          if slotInMs >? currentInMs
          then [Waited (Int64.sub slotInMs currentInMs)] else [] in
        match pushAndBroadcast pod tail block with
        | (pod, Some e) =>
            {| engine := pod; registry := reg; failure := Some e;
               steps := packed ++ waited ++ [ReturnedTransactions block] |}
        | (pod, None) =>
            {| engine := pod; registry := reg; failure := None;
               steps := packed ++ waited |}
        end
    end end end.

(** One tick of [blockLoop]: the heartbeat, then the mint, the errors of
    both dropped. *)
Definition tick (pod : PoD) (reg : Registry) (now clock : Z) : Minted :=
  mintBlock (fst (heartbeat pod now)) reg now clock.

(** The timer case of [blockLoop], tick after tick: each tick comes with
    the second it fires at and the clock once the block is packed. *)
Fixpoint blockLoop (pod : PoD) (reg : Registry) (ticks : list (Z * Z))
  : PoD * Registry :=
  match ticks with
  | [] => (pod, reg)
  | (now, clock) :: rest =>
      let minted := tick pod reg now clock in
      blockLoop (engine minted) (registry minted) rest
  end.

End Producer.

(** ** Statements about the governance transactions *)

Section Submission.
Context {consts : Constants} {neblet : Neblet}.

(** [unsigned] is the transaction of [sendTransaction] as it stands
    before it is signed (pod.go:918-939): the payload of [action] and
    [data] under the serial of [timestamp], from the miner to the PoD
    contract, with the nonce after the miner's, the timestamp set and
    then the hash taken. *)
Definition prepares (pod : PoD) (timestamp : Z) (action : PodAction)
           (data : Bytes) (unsigned : Transaction) : Prop :=
  exists payload bytes accNonce created hash,
    NewPodPayload (serial timestamp) action data = Ok payload
    /\ PayloadToBytes payload = Ok bytes
    /\ GetAccountNonce (tailBlock (chain pod)) (miner pod) = Ok accNonce
    /\ NewTransaction (ChainID (chain pod)) (miner pod) PoDContract 0
         (add_uint64 accNonce 1) TxPayloadPodType bytes
         TransactionMaxGasPrice TransactionMaxGas
       = Ok created
    /\ HashTransaction (SetTimestamp created timestamp) = Ok hash
    /\ unsigned = SetHash (SetTimestamp created timestamp) hash.

(** [tx] is the transaction [sendTransaction] submits: the prepared
    one, signed, and accepted by the pool (pod.go:941-946). *)
Definition sends (pod : PoD) (timestamp : Z) (action : PodAction)
           (data : Bytes) (tx : Transaction) : Prop :=
  exists unsigned,
    prepares pod timestamp action data unsigned
    /\ signTransaction pod unsigned = Ok tx
    /\ PushAndBroadcast tx = None.

End Submission.

(** ** More worked scenarios *)

(** The collaborators of the scenarios, with the local miner among the
    participants of the contract. *)
Definition signed_up : Neblet := {|
  NodeUpdateAtHeight := fun _ => true;
  RandomAvailableAtHeight := fun _ => true;
  CheckGenesisBlock := fun b => Height b =? 1;
  AddressParseFromBytes := fun b => Ok b;
  RecoverSignerFromSignature := fun _ _ sign => Ok sign;
  AddressString := Hex;
  BlockString := fun b => Hex (Hash b);
  ReportToBytes := fun _ => [];
  PoDContract := key_of 0;
  SECP256K1 := 1;
  NewPodPayload := fun s a d => Ok {| Serial := s; Action := a; Data := d |};
  PayloadToBytes := fun p => Ok (Data p);
  TxPayloadPodType := "pod";
  TransactionMaxGasPrice := 1000000000000;
  TransactionMaxGas := 50000000000;
  NewTransaction := fun chainID from to value nonce _ payload _ _ =>
    Ok {| tx_chainID := chainID; tx_from := from; tx_to := to;
          tx_value := value; tx_nonce := nonce; tx_payload := payload;
          tx_timestamp := 0; tx_hash := []; tx_alg := 0; tx_sign := [] |};
  HashTransaction := fun tx => Ok (tx_payload tx);
  StoreLIBHashToStorage := fun _ => None;
  SetTailBlock := fun bc b => (with_tailBlock bc b, None);
  GetAccountNonce := fun _ _ => Ok 0;
  PushAndBroadcast := fun _ => None;
  DynastyTrie := list Bytes;
  isProposer := fun _ _ => true;
  getDynasty := fun _ => Ok [key_of 7];
  TraverseDynasty := fun trie => Ok trie;
  FindProposer := fun _ miners =>
    match miners with
    | m :: _ => Ok m
    | [] => Err ErrInvalidBlockProposer
    end;
  getParticipants := Ok [Hex (key_of 7)];
  broadcastWitness := fun _ => None;
  SignTransaction := fun _ tx => Ok tx;
  SignHash := fun _ _ hash _ => Ok hash
|}.

(** Stand-ins for the collaborators of the producer: the passphrase is
    [secret], the next slot is always the turn of miner 7, the pool
    takes every block and makes it the tail, and the contract never
    knows the next dynasty.  With [seal_ok] unset a block cannot be
    sealed. *)
Definition workshop (seal_ok : bool) : Workshop := {|
  Unlock := fun _ passphrase =>
    if String.eqb passphrase "secret" then None
    else Some (ErrExternal "passphrase");
  Lock := fun _ => None;
  SignBlock := fun miner b => Ok (SetBlockSignature b 1 miner);
  GenerateRandomSeed := fun _ ancestorHash parentSeed => Ok (ancestorHash, parentSeed);
  RemoteGenerateRandomSeed := fun _ _ parentSeed ancestorHash =>
    Ok (ancestorHash, parentSeed);
  NewBlock := fun _ coinbase tail =>
    Ok (block_at (Height tail + 1) 0 (Byte.x01 :: Hash tail) (Hash tail)
                 coinbase coinbase);
  SetRandomSeed := fun b _ _ => b;
  SetConsensusState := fun b _ => b;
  CollectTransactions := fun b _ => b;
  Seal := fun b => if seal_ok then Ok b else Err (ErrExternal "seal");
  NextConsensusState := fun tail elapsed =>
    Ok {| StateProposer := Some (key_of 7);
          StateTimeStamp := Timestamp tail + elapsed |};
  GetInputForVRFSigner := fun _ parentHash _ => Ok (parentHash, parentHash);
  BlockPoolPushAndBroadcast := fun pod b =>
    (with_chain pod (with_tailBlock (chain pod) b), None);
  Statistics := list Z;
  StatisticalLastBlocks := fun _ serial => Ok [serial];
  MarshalStatistics := fun _ => Ok [];
  Registry := list Z;
  knows := fun reg serial => existsb (Z.eqb serial) reg;
  loadFromContract := fun reg _ => (reg, None)
|}.

(** The engine as [NewPoD] leaves its flags: disabled and pending. *)
Definition fresh_engine_on (bc : BlockChain) : PoD :=
  with_pending (with_enable (engine_on bc) false) true.

(** An engine that signs through the remote sign server. *)
Definition remote_engine_on (bc : BlockChain) : PoD :=
  {| chain := bc; coinbase := key_of 7; miner := key_of 7;
     enableRemoteSignServer := true; remoteSignServer := "127.0.0.1:8684";
     slot := LRU.New 128; reversible := LRU.New 128;
     enable := true; pending := false; launchBeat := false; effects := [] |}.

(** A chain of two blocks, too short for a quorum of 85. *)
Definition short_chain : BlockChain :=
  {| tailBlock := s5_block 2; LIB := s5_block 1; detachedTailBlocks := [];
     blocks := [s5_block 1; s5_block 2]; ChainID := 1 |}.

(** Another block of miner 7, one slot after block A of S6. *)
Definition s6_blockD : Block :=
  block_at 3 30 [Byte.x44] [Byte.x11] (key_of 7) (key_of 7).

(** The collaborators of the scenarios with an account manager that
    holds no key: no transaction can be signed. *)
Definition keyless : Neblet := {|
  NodeUpdateAtHeight := fun _ => true;
  RandomAvailableAtHeight := fun _ => true;
  CheckGenesisBlock := fun b => Height b =? 1;
  AddressParseFromBytes := fun b => Ok b;
  RecoverSignerFromSignature := fun _ _ sign => Ok sign;
  AddressString := Hex;
  BlockString := fun b => Hex (Hash b);
  ReportToBytes := fun r =>
    match ReportEvil r with
    | AttackDoubleSpend => key_of 1
    | AttackNotMiner => key_of 2
    end;
  PoDContract := key_of 0;
  SECP256K1 := 1;
  NewPodPayload := fun s a d => Ok {| Serial := s; Action := a; Data := d |};
  PayloadToBytes := fun p => Ok (Data p);
  TxPayloadPodType := "pod";
  TransactionMaxGasPrice := 1000000000000;
  TransactionMaxGas := 50000000000;
  NewTransaction := fun chainID from to value nonce _ payload _ _ =>
    Ok {| tx_chainID := chainID; tx_from := from; tx_to := to;
          tx_value := value; tx_nonce := nonce; tx_payload := payload;
          tx_timestamp := 0; tx_hash := []; tx_alg := 0; tx_sign := [] |};
  HashTransaction := fun tx => Ok (tx_payload tx);
  StoreLIBHashToStorage := fun _ => None;
  SetTailBlock := fun bc b => (with_tailBlock bc b, None);
  GetAccountNonce := fun _ _ => Ok 0;
  PushAndBroadcast := fun _ => None;
  DynastyTrie := list Bytes;
  isProposer := fun _ _ => true;
  getDynasty := fun _ => Ok [key_of 7];
  TraverseDynasty := fun trie => Ok trie;
  FindProposer := fun _ miners =>
    match miners with
    | m :: _ => Ok m
    | [] => Err ErrInvalidBlockProposer
    end;
  getParticipants := Ok [];
  broadcastWitness := fun _ => None;
  SignTransaction := fun _ _ => Err (ErrExternal "key not unlocked");
  SignHash := fun _ _ hash _ => Ok hash
|}.

(** A tail whose timestamp in milliseconds is beyond the largest
    [int64]. *)
Definition far_tail : Block := block_at 2 9223372036854776 [] [] [] [].

(** A block of miner 7 whose timestamp in milliseconds,
    [(2^61 + 15) * 1000], wraps around to 15000. *)
Definition wrapped_block : Block :=
  block_at 2 (2 ^ 61 + 15) [Byte.x11] (key_of 1) (key_of 7) (key_of 7).

(** S8: dynasties of four slots and a quorum of four proposers; nine
    blocks as in S5, which span three dynasties. *)
Definition short_dynasties : Constants := {|
  BlockIntervalInMs := 15000;
  DynastyIntervalInMs := 60000;
  MinMintDurationInMs := 2200;
  MaxMintDurationInMs := 5200;
  ConsensusSize := 4
|}.

Definition s8_chain : BlockChain :=
  {| tailBlock := s5_block 9; LIB := s5_block 1; detachedTailBlocks := [];
     blocks := map s5_block (seq 1 9); ChainID := 1 |}.

Definition s8_path : list Block := map s5_block (rev (seq 2 8)).

(** * Properties *)

(** ** Machine integers *)

Module Int64Facts.
Import Int64.

Lemma wrap64_id z : in_range z -> wrap64 z = z.
Proof.
  unfold in_range, min_int, max_int, wrap64. intros Hz.
  rewrite Z.mod_small; lia.
Qed.

Lemma wrap64_range z : in_range (wrap64 z).
Proof.
  unfold in_range, min_int, max_int, wrap64.
  pose proof (Z.mod_pos_bound (z + 2 ^ 63) (2 ^ 64) ltac:(lia)). lia.
Qed.

Lemma wrap64_idem_add a b : wrap64 (wrap64 a + b) = wrap64 (a + b).
Proof.
  unfold wrap64.
  replace ((a + 2 ^ 63) mod 2 ^ 64 - 2 ^ 63 + b + 2 ^ 63)
    with ((a + 2 ^ 63) mod 2 ^ 64 + b) by lia.
  rewrite Zplus_mod_idemp_l. f_equal. f_equal. lia.
Qed.

Lemma wrap64_idem_sub a b : wrap64 (wrap64 a - b) = wrap64 (a - b).
Proof. exact (wrap64_idem_add a (- b)). Qed.

(** Truncated division by a positive number never leaves the range, and
    neither does the multiple of the divisor it gives. *)
Lemma quot_bounds x b :
  0 < b ->
  (0 <= x -> 0 <= Z.quot x b * b <= x /\ x < Z.quot x b * b + b /\ 0 <= Z.quot x b <= x) /\
  (x <= 0 -> x <= Z.quot x b * b <= 0 /\ Z.quot x b * b - b < x /\ x <= Z.quot x b <= 0).
Proof.
  intros Hb. pose proof (Z.quot_rem' x b) as E. split; intros Hx.
  - pose proof (Z.rem_bound_pos x b Hx Hb).
    assert (0 <= Z.quot x b) by (apply Z.quot_pos; lia). nia.
  - pose proof (Z.rem_bound_pos (- x) b ltac:(lia) Hb) as Hr.
    rewrite Z.rem_opp_l in Hr by lia.
    pose proof (Z.quot_pos (- x) b ltac:(lia) ltac:(lia)) as Hq.
    rewrite Z.quot_opp_l in Hq by lia. nia.
Qed.

Lemma slot_of_in_range x b :
  0 < b -> in_range x ->
  mul (quo x b) b = Z.quot x b * b /\ in_range (Z.quot x b * b).
Proof.
  intros Hb Hx. unfold mul, quo.
  destruct (quot_bounds x b Hb) as [Hp Hn].
  assert (in_range (Z.quot x b) /\ in_range (Z.quot x b * b)) as [Hq Hm].
  { unfold in_range, min_int, max_int in *. destruct (Z.le_ge_cases 0 x) as [Hx0 | Hx0].
    - specialize (Hp Hx0). lia.
    - specialize (Hn Hx0). lia. }
  rewrite (wrap64_id _ Hq), (wrap64_id _ Hm). auto.
Qed.

End Int64Facts.

Import Int64Facts.

(** ** Timing *)

Section TimingFacts.
Context {consts : Constants} (Hwf : wf_constants).

Lemma block_interval_bounds : SecondInMs <= BlockIntervalInMs < 2 ^ 62.
Proof.
  destruct Hwf. unfold SecondInMs in *.
  pose proof (Z.div_mod BlockIntervalInMs 1000 ltac:(lia)). lia.
Qed.

Lemma lastSlot_exact now :
  Int64.in_range (now - SecondInMs) ->
  lastSlot now = Z.quot (now - SecondInMs) BlockIntervalInMs * BlockIntervalInMs.
Proof.
  intros Hr. unfold lastSlot, Int64.sub.
  rewrite (wrap64_id _ Hr).
  apply slot_of_in_range; [apply Hwf | exact Hr].
Qed.

Lemma nextSlot_exact now :
  Int64.in_range (now + BlockIntervalInMs - SecondInMs) ->
  nextSlot now
  = Z.quot (now + BlockIntervalInMs - SecondInMs) BlockIntervalInMs * BlockIntervalInMs.
Proof.
  intros Hr. unfold nextSlot, Int64.sub, Int64.add.
  rewrite wrap64_idem_sub, (wrap64_id _ Hr).
  apply slot_of_in_range; [apply Hwf | exact Hr].
Qed.

(** Both slot functions answer with a multiple of the block interval,
    whatever the clock says. *)
Lemma slots_are_multiples now :
  (BlockIntervalInMs | lastSlot now) /\ (BlockIntervalInMs | nextSlot now).
Proof.
  assert (forall x,
            (BlockIntervalInMs
             | Int64.mul (Int64.quo (Int64.wrap64 x) BlockIntervalInMs)
                         BlockIntervalInMs)) as Hm.
  { intros x.
    destruct (slot_of_in_range (Int64.wrap64 x) BlockIntervalInMs) as [E _];
      [apply Hwf | apply wrap64_range |].
    rewrite E. apply Z.divide_factor_r. }
  split; [apply (Hm (now - SecondInMs)) |].
  unfold nextSlot. unfold Int64.sub at 1. apply Hm.
Qed.

Lemma lastSlot_before now :
  0 < now <= Int64.max_int -> lastSlot now < now.
Proof.
  intros Hnow. pose proof block_interval_bounds as Hb.
  assert (0 < BlockIntervalInMs) as Hbpos by (unfold SecondInMs in *; lia).
  rewrite lastSlot_exact
    by (unfold SecondInMs, Int64.in_range, Int64.min_int, Int64.max_int in *; lia).
  destruct (quot_bounds (now - SecondInMs) _ Hbpos) as [Hp Hn].
  destruct (Z.le_ge_cases 0 (now - SecondInMs)) as [H0 | H0];
    [specialize (Hp H0) | specialize (Hn H0)]; unfold SecondInMs in *; lia.
Qed.

Lemma nextSlot_not_before now :
  now mod SecondInMs = 0 ->
  Int64.min_int <= now ->
  now + BlockIntervalInMs - SecondInMs <= Int64.max_int ->
  now <= nextSlot now.
Proof.
  intros Hsec Hlo Hhi. pose proof block_interval_bounds as Hb.
  pose proof (wf_block_seconds Hwf) as Hbs.
  unfold SecondInMs in *.
  assert (0 < BlockIntervalInMs) as Hbpos by lia.
  rewrite nextSlot_exact
    by (unfold SecondInMs, Int64.in_range, Int64.min_int, Int64.max_int in *; lia).
  unfold SecondInMs.
  destruct (quot_bounds (now + BlockIntervalInMs - 1000) _ Hbpos) as [_ Hn].
  destruct (Z.le_ge_cases 0 (now + BlockIntervalInMs - 1000)) as [H0 | H0];
    [| specialize (Hn H0); lia].
  rewrite Z.quot_div_nonneg by lia.
  apply Z.mod_divide in Hsec; [| lia]. destruct Hsec as [a Ha].
  apply Z.mod_divide in Hbs; [| lia]. destruct Hbs as [k Hk].
  assert (0 < k) by lia.
  replace (now + BlockIntervalInMs - 1000) with ((a + k - 1) * 1000) by lia.
  rewrite Hk, Z.div_mul_cancel_r by lia.
  pose proof (Z.div_mod (a + k - 1) k ltac:(lia)).
  pose proof (Z.mod_pos_bound (a + k - 1) k ltac:(lia)).
  nia.
Qed.

(** While [now + BlockIntervalInMs - SecondInMs] fits an [int64], the
    next slot is before [now] exactly in the first second after a slot
    boundary, the boundary itself excluded. *)
Lemma nextSlot_reaches now :
  Int64.min_int <= now ->
  now + BlockIntervalInMs - SecondInMs <= Int64.max_int ->
  (now <= nextSlot now
   <-> now <= 0 \/ now mod BlockIntervalInMs = 0
       \/ SecondInMs <= now mod BlockIntervalInMs).
Proof.
  intros Hlo Hhi. pose proof block_interval_bounds as Hb.
  unfold SecondInMs in *.
  assert (0 < BlockIntervalInMs) as Hbpos by lia.
  assert (BlockIntervalInMs <> 0) as Hbnz by lia.
  rewrite nextSlot_exact
    by (unfold SecondInMs, Int64.in_range, Int64.min_int, Int64.max_int in *; lia).
  unfold SecondInMs.
  destruct (quot_bounds (now + BlockIntervalInMs - 1000) _ Hbpos) as [Hp Hn].
  destruct (Z.le_gt_cases now 0) as [Hneg | Hpos].
  - split; [intros _; left; exact Hneg | intros _].
    destruct (Z.le_ge_cases 0 (now + BlockIntervalInMs - 1000)) as [H0 | H0];
      [specialize (Hp H0) | specialize (Hn H0)]; lia.
  - rewrite Z.quot_div_nonneg by lia.
    pose proof (Z.div_mod now BlockIntervalInMs Hbnz) as Hdm.
    pose proof (Z.mod_pos_bound now BlockIntervalInMs Hbpos) as Hm.
    destruct (Z.le_gt_cases 1000 (now mod BlockIntervalInMs)) as [Hr | Hr].
    + assert ((now + BlockIntervalInMs - 1000) / BlockIntervalInMs
              = now / BlockIntervalInMs + 1) as E.
      { symmetry.
        apply Z.div_unique with (r := now mod BlockIntervalInMs - 1000);
          [left; lia | lia]. }
      rewrite E. split; [intros _; right; right; exact Hr | intros _; lia].
    + assert ((now + BlockIntervalInMs - 1000) / BlockIntervalInMs
              = now / BlockIntervalInMs) as E.
      { symmetry.
        apply Z.div_unique
          with (r := now mod BlockIntervalInMs + BlockIntervalInMs - 1000);
          [left; lia | lia]. }
      rewrite E. split; [intros Hle; right; left; lia |].
      intros [Hc | [Hz | Hs]]; lia.
Qed.

(** C7, as the code has it: both slots are multiples of the block
    interval for every [now]; the last slot lies strictly before a
    positive [now]; and the next slot is not before [now] when [now] is
    a whole number of seconds (which is what [mintBlock] passes,
    [now * SecondInMs]) and [now + BlockIntervalInMs - SecondInMs] still
    fits an [int64].  Within that range the next slot is not before
    [now] exactly when [now] is not positive, or is on a slot boundary
    or at least a second past one. *)
Theorem slots_bracket_now now :
  (BlockIntervalInMs | lastSlot now)
  /\ (BlockIntervalInMs | nextSlot now)
  /\ (0 < now <= Int64.max_int -> lastSlot now < now)
  /\ (now mod SecondInMs = 0 ->
      Int64.min_int <= now ->
      now + BlockIntervalInMs - SecondInMs <= Int64.max_int ->
      now <= nextSlot now)
  /\ (Int64.min_int <= now ->
      now + BlockIntervalInMs - SecondInMs <= Int64.max_int ->
      (now <= nextSlot now
       <-> now <= 0 \/ now mod BlockIntervalInMs = 0
           \/ SecondInMs <= now mod BlockIntervalInMs)).
Proof.
  split; [apply slots_are_multiples |].
  split; [apply slots_are_multiples |].
  split; [apply lastSlot_before |].
  split; [apply nextSlot_not_before | apply nextSlot_reaches].
Qed.

(** C8, as the code has it: while [now + BlockIntervalInMs - SecondInMs]
    and [now + MaxMintDurationInMs] fit an [int64], the deadline is the
    smaller of the next slot and [now + MaxMintDurationInMs]; so it is
    not after the next slot and at most [MaxMintDurationInMs] away. *)
Theorem deadline_is_min now :
  Int64.min_int <= now ->
  now + BlockIntervalInMs - SecondInMs <= Int64.max_int ->
  now + MaxMintDurationInMs <= Int64.max_int ->
  deadline now = Z.min (nextSlot now) (now + MaxMintDurationInMs)
  /\ deadline now <= nextSlot now
  /\ deadline now - now <= MaxMintDurationInMs.
Proof.
  intros Hlo Hhi Hmax.
  pose proof block_interval_bounds as Hb.
  pose proof (wf_max_nonneg Hwf) as Hm0.
  unfold deadline.
  assert (Int64.in_range (now + BlockIntervalInMs - SecondInMs)) as Hx
    by (unfold SecondInMs, Int64.in_range, Int64.min_int, Int64.max_int in *; lia).
  rewrite (nextSlot_exact now Hx).
  set (x := now + BlockIntervalInMs - SecondInMs) in *.
  set (n := Z.quot x BlockIntervalInMs * BlockIntervalInMs).
  assert (- SecondInMs < n - now < 2 * BlockIntervalInMs) as Hn.
  { assert (0 < BlockIntervalInMs) as Hbpos by (unfold SecondInMs in *; lia).
    destruct (quot_bounds x _ Hbpos) as [Hp Hq].
    fold n in Hp, Hq. subst x. unfold SecondInMs in *.
    destruct (Z.le_ge_cases 0 (now + BlockIntervalInMs - 1000)) as [H0 | H0];
      [specialize (Hp H0) | specialize (Hq H0)]; lia. }
  unfold Int64.sub, Int64.add.
  rewrite !wrap64_id
    by (unfold SecondInMs, Int64.in_range, Int64.min_int, Int64.max_int in *; lia).
  destruct (Z.ltb_spec (n - now) MaxMintDurationInMs); lia.
Qed.

End TimingFacts.

Lemma scenario_constants_wf : @wf_constants scenario_constants.
Proof.
  constructor; unfold Int64.in_range, Int64.min_int, Int64.max_int; simpl;
    try reflexivity; lia.
Qed.

Lemma slots_bracket_now_witness :
  @lastSlot scenario_constants 16000 < 16000 <= @nextSlot scenario_constants 16000
  /\ (15000 | @lastSlot scenario_constants 16000)
  /\ (15000 | @nextSlot scenario_constants 16000).
Proof.
  destruct (@slots_bracket_now scenario_constants scenario_constants_wf 16000)
    as (Hlast & Hnext & Hbefore & Hafter & _).
  split; [split |]; [apply Hbefore | apply Hafter | split; assumption].
  - unfold Int64.max_int. lia.
  - reflexivity.
  - unfold Int64.min_int. lia.
  - unfold Int64.max_int. simpl. lia.
Defined.

(** C7 fails between two whole seconds (the next slot of 15500 is
    15000), at the epoch (the last slot of 0 is 0, the division
    truncating toward zero) and where the addition wraps around. *)
Lemma slots_bracket_counterexample :
  ~ (@lastSlot scenario_constants 15500 < 15500 <= @nextSlot scenario_constants 15500)
  /\ ~ (@lastSlot scenario_constants 0 < 0 <= @nextSlot scenario_constants 0)
  /\ ~ (@lastSlot scenario_constants 9223372036854775000 < 9223372036854775000
        <= @nextSlot scenario_constants 9223372036854775000).
Proof.
  assert (@nextSlot scenario_constants 15500 = 15000) as E1 by reflexivity.
  assert (@lastSlot scenario_constants 0 = 0) as E2 by reflexivity.
  assert (@nextSlot scenario_constants 9223372036854775000 = -9223372036854750000)
    as E3 by reflexivity.
  rewrite E1, E2, E3. lia.
Qed.

Lemma deadline_is_min_witness :
  @deadline scenario_constants 16000 = 21200
  /\ @deadline scenario_constants 16000 <= @nextSlot scenario_constants 16000
  /\ @deadline scenario_constants 16000 - 16000 <= 5200.
Proof.
  destruct (@deadline_is_min scenario_constants scenario_constants_wf 16000)
    as (E & Hle & Hd).
  - unfold Int64.min_int. lia.
  - unfold Int64.max_int. simpl. lia.
  - unfold Int64.max_int. simpl. lia.
  - split; [| split; [exact Hle | exact Hd]].
    rewrite E. reflexivity.
Defined.

(** C8 fails where [now + BlockIntervalInMs] wraps around: ten seconds
    before the largest [int64] the next slot is negative, the wrapped
    remainder is large, and the deadline is [now + MaxMintDurationInMs]. *)
Lemma deadline_counterexample :
  ~ (@deadline scenario_constants 9223372036854765807
     = Z.min (@nextSlot scenario_constants 9223372036854765807)
             (9223372036854765807 + 5200))
  /\ ~ (@deadline scenario_constants 9223372036854765807
        <= @nextSlot scenario_constants 9223372036854765807).
Proof.
  assert (@deadline scenario_constants 9223372036854765807 = 9223372036854771007)
    as E1 by reflexivity.
  assert (@nextSlot scenario_constants 9223372036854765807 = -9223372036854765000)
    as E2 by reflexivity.
  rewrite E1, E2. lia.
Qed.

Section DeadlineCheck.
Context {consts : Constants} (Hwf : wf_constants).

(** The cases of [checkDeadline] on the [int64] values it computes. *)
Lemma checkDeadline_on_int64 (tail : Block) (now : Z) :
  let tail_ms := Int64.mul (Timestamp tail) SecondInMs in
  (tail_ms >= nextSlot now ->
     checkDeadline tail now = Err ErrBlockMintedInNextSlot)
  /\ (tail_ms < nextSlot now -> tail_ms = lastSlot now ->
        checkDeadline tail now = Ok (deadline now))
  /\ (tail_ms < nextSlot now -> tail_ms <> lastSlot now ->
      Int64.sub (nextSlot now) now <= MinMintDurationInMs ->
        checkDeadline tail now = Ok (deadline now))
  /\ (tail_ms < nextSlot now -> tail_ms <> lastSlot now ->
      MinMintDurationInMs < Int64.sub (nextSlot now) now ->
        checkDeadline tail now = Err ErrWaitingBlockInLastSlot).
Proof.
  intros tail_ms. unfold checkDeadline. fold tail_ms.
  destruct (Z.geb_spec tail_ms (nextSlot now));
    destruct (Z.eqb_spec tail_ms (lastSlot now));
    destruct (Z.leb_spec (Int64.sub (nextSlot now) now) MinMintDurationInMs);
    repeat split; intros; try reflexivity; lia.
Qed.

(** While [now + BlockIntervalInMs - SecondInMs] fits an [int64], so
    does the distance from [now] to the next slot. *)
Lemma remaining_exact now :
  Int64.min_int <= now ->
  now + BlockIntervalInMs - SecondInMs <= Int64.max_int ->
  Int64.sub (nextSlot now) now = nextSlot now - now.
Proof.
  intros Hlo Hhi.
  pose proof (block_interval_bounds Hwf) as Hb.
  assert (0 < BlockIntervalInMs) as Hbpos by (unfold SecondInMs in *; lia).
  assert (Int64.in_range (now + BlockIntervalInMs - SecondInMs)) as Hx
    by (unfold SecondInMs, Int64.in_range, Int64.min_int, Int64.max_int in *; lia).
  rewrite (nextSlot_exact Hwf now Hx).
  destruct (quot_bounds (now + BlockIntervalInMs - SecondInMs) _ Hbpos) as [Hp Hq].
  set (n := Z.quot (now + BlockIntervalInMs - SecondInMs) BlockIntervalInMs
            * BlockIntervalInMs) in *.
  assert (- SecondInMs < n - now < 2 * BlockIntervalInMs) as Hn.
  { unfold SecondInMs in *.
    destruct (Z.le_ge_cases 0 (now + BlockIntervalInMs - 1000)) as [H0 | H0];
      [specialize (Hp H0) | specialize (Hq H0)]; lia. }
  unfold Int64.sub. apply wrap64_id.
  unfold SecondInMs, Int64.in_range, Int64.min_int, Int64.max_int in *. lia.
Qed.

(** C3, as the code has it: for a tail whose timestamp in milliseconds
    fits an [int64], and while [now + BlockIntervalInMs - SecondInMs]
    fits one, [checkDeadline] fails with [ErrBlockMintedInNextSlot]
    when the tail's timestamp in milliseconds is at or after the next
    slot; otherwise it answers with the deadline when that timestamp is
    the last slot; otherwise with the deadline when the next slot is at
    most [MinMintDurationInMs] away; otherwise it fails with
    [ErrWaitingBlockInLastSlot]. *)
Theorem checkDeadline_cases (tail : Block) (now : Z) :
  Int64.in_range (Timestamp tail * SecondInMs) ->
  Int64.min_int <= now ->
  now + BlockIntervalInMs - SecondInMs <= Int64.max_int ->
  let tail_ms := Timestamp tail * SecondInMs in
  (tail_ms >= nextSlot now ->
     checkDeadline tail now = Err ErrBlockMintedInNextSlot)
  /\ (tail_ms < nextSlot now -> tail_ms = lastSlot now ->
        checkDeadline tail now = Ok (deadline now))
  /\ (tail_ms < nextSlot now -> tail_ms <> lastSlot now ->
      nextSlot now - now <= MinMintDurationInMs ->
        checkDeadline tail now = Ok (deadline now))
  /\ (tail_ms < nextSlot now -> tail_ms <> lastSlot now ->
      MinMintDurationInMs < nextSlot now - now ->
        checkDeadline tail now = Err ErrWaitingBlockInLastSlot).
Proof.
  intros Hts Hlo Hhi tail_ms.
  pose proof (checkDeadline_on_int64 tail now) as Hcode. cbv zeta in Hcode.
  unfold Int64.mul in Hcode.
  rewrite (wrap64_id _ Hts), (remaining_exact now Hlo Hhi) in Hcode.
  exact Hcode.
Qed.

End DeadlineCheck.

Lemma checkDeadline_cases_witness :
  @checkDeadline scenario_constants (block_at 2 15 [] [] [] []) 16000 = Ok 21200.
Proof.
  destruct (@checkDeadline_cases scenario_constants scenario_constants_wf
              (block_at 2 15 [] [] [] []) 16000)
    as (_ & Hlast & _).
  - vm_compute. split; discriminate.
  - vm_compute. discriminate.
  - vm_compute. discriminate.
  - rewrite Hlast; [reflexivity | vm_compute; reflexivity | reflexivity].
Defined.

(** C3 fails for a tail whose timestamp in milliseconds does not fit an
    [int64]: the product wraps around to a negative number, so a tail
    far in the next slot is taken for an old one; at 16000 the engine
    waits for the block of the last slot, at 28000 it is given a
    deadline. *)
Lemma checkDeadline_overflow_counterexample :
  Timestamp far_tail * SecondInMs >= @nextSlot scenario_constants 16000
  /\ Timestamp far_tail * SecondInMs >= @nextSlot scenario_constants 28000
  /\ @checkDeadline scenario_constants far_tail 16000
     = Err ErrWaitingBlockInLastSlot
  /\ @checkDeadline scenario_constants far_tail 28000 = Ok 30000.
Proof.
  split; [vm_compute; discriminate |].
  split; [vm_compute; discriminate |].
  split; vm_compute; reflexivity.
Qed.

(** The deadline scenarios S2 and S3 of the specification. *)
Example checkDeadline_scenarios :
  @checkDeadline scenario_constants (block_at 1 0 [] [] [] []) 28000 = Ok 30000
  /\ @checkDeadline scenario_constants (block_at 1 0 [] [] [] []) 20000
     = Err ErrWaitingBlockInLastSlot
  /\ @checkDeadline scenario_constants (block_at 3 45 [] [] [] []) 30000
     = Err ErrBlockMintedInNextSlot.
Proof. repeat split; reflexivity. Qed.

(** ** The order of fork choice *)

Lemma byte_to_N_inj x y : Byte.to_N x = Byte.to_N y -> x = y.
Proof.
  intros E. apply (f_equal Byte.of_N) in E.
  rewrite !Byte.of_to_N in E. congruence.
Qed.

Lemma Less_irrefl a : Less a a = false.
Proof.
  induction a as [| x a IH]; simpl; [reflexivity |].
  rewrite N.ltb_irrefl. exact IH.
Qed.

Lemma Less_trans a : forall b c,
  Less a b = true -> Less b c = true -> Less a c = true.
Proof.
  induction a as [| x a IH]; intros [| y b] [| z c]; simpl; try congruence.
  destruct (N.ltb_spec (Byte.to_N x) (Byte.to_N y)),
           (N.ltb_spec (Byte.to_N y) (Byte.to_N x)),
           (N.ltb_spec (Byte.to_N y) (Byte.to_N z)),
           (N.ltb_spec (Byte.to_N z) (Byte.to_N y)),
           (N.ltb_spec (Byte.to_N x) (Byte.to_N z)),
           (N.ltb_spec (Byte.to_N z) (Byte.to_N x));
    try congruence; try lia.
  apply IH.
Qed.

Lemma Less_total a : forall b, Less a b = false -> Less b a = false -> a = b.
Proof.
  induction a as [| x a IH]; intros [| y b]; simpl; try congruence.
  destruct (N.ltb_spec (Byte.to_N x) (Byte.to_N y)),
           (N.ltb_spec (Byte.to_N y) (Byte.to_N x)); try congruence.
  intros Ha Hb. f_equal; [apply byte_to_N_inj; lia | apply IH; assumption].
Qed.

Lemma Equals_true a b : Equals a b = true <-> a = b.
Proof. unfold Equals. destruct (Bytes_eq_dec a b); split; congruence. Qed.

Lemma Equals_false a b : Equals a b = false <-> a <> b.
Proof. unfold Equals. destruct (Bytes_eq_dec a b); split; congruence. Qed.

Lemma Equals_refl a : Equals a a = true.
Proof. apply Equals_true. reflexivity. Qed.

Section ForkChoiceFacts.
Context {consts : Constants} {neblet : Neblet}.

Lemma less_spec a b :
  less a b = true <->
  Height a < Height b \/ (Height a = Height b /\ Less (Hash a) (Hash b) = true).
Proof.
  unfold less. destruct (Z.eqb_spec (Height a) (Height b)); simpl.
  - intuition lia.
  - rewrite Z.ltb_lt. intuition lia.
Qed.

Lemma less_irrefl a : less a a = false.
Proof.
  destruct (less a a) eqn:E; [| reflexivity].
  apply less_spec in E. rewrite Less_irrefl in E. intuition (lia || congruence).
Qed.

Lemma less_trans a b c : less a b = true -> less b c = true -> less a c = true.
Proof.
  rewrite !less_spec. intros [Hab | [Hab Lab]] [Hbc | [Hbc Lbc]]; try (left; lia).
  right. split; [lia | eapply Less_trans; eassumption].
Qed.

(** Blocks that [less] cannot tell apart have the same height and hash. *)
Lemma less_total a b :
  less a b = false -> less b a = false ->
  Height a = Height b /\ Hash a = Hash b.
Proof.
  intros Hab Hba.
  destruct (Z.lt_total (Height a) (Height b)) as [Hlt | [Heq | Hgt]].
  - assert (less a b = true) by (apply less_spec; auto). congruence.
  - split; [exact Heq |]. apply Less_total.
    + destruct (Less (Hash a) (Hash b)) eqn:E; [| reflexivity].
      assert (less a b = true) by (apply less_spec; auto). congruence.
    + destruct (Less (Hash b) (Hash a)) eqn:E; [| reflexivity].
      assert (less b a = true) by (apply less_spec; auto). congruence.
  - assert (less b a = true) by (apply less_spec; left; lia). congruence.
Qed.

(** [less] looks at the height and the hash only. *)
Lemma less_same_key_l a a' b :
  Height a = Height a' -> Hash a = Hash a' -> less a b = less a' b.
Proof. unfold less. intros -> ->. reflexivity. Qed.

Lemma less_below a b c : less a b = true -> less c b = false -> less a c = true.
Proof.
  intros Hab Hcb.
  destruct (less a c) eqn:Hac; [reflexivity |].
  destruct (less c a) eqn:Hca.
  - rewrite (less_trans c a b Hca Hab) in Hcb. discriminate.
  - destruct (less_total a c Hac Hca) as [Eh Ek].
    rewrite (less_same_key_l a c b Eh Ek) in Hab. congruence.
Qed.

Lemma bestTail_in l : forall t, In (bestTail t l) (t :: l).
Proof.
  induction l as [| v l IH]; intros t; simpl; [auto |].
  specialize (IH (if less t v then v else t)).
  unfold bestTail in IH. simpl in IH.
  destruct (less t v); destruct IH as [E | Hin]; auto.
Qed.

Lemma bestTail_above l : forall t,
  t = bestTail t l \/ less t (bestTail t l) = true.
Proof.
  induction l as [| v l IH]; intros t; simpl; [auto |].
  unfold bestTail in *. simpl.
  destruct (less t v) eqn:Htv.
  - right. destruct (IH v) as [E | Hlt]; [rewrite <- E; exact Htv |].
    eapply less_trans; eassumption.
  - apply IH.
Qed.

Lemma bestTail_greatest l : forall t v,
  In v (t :: l) -> less (bestTail t l) v = false.
Proof.
  induction l as [| u l IH]; intros t v Hin.
  - destruct Hin as [<- | []]. apply less_irrefl.
  - change (bestTail t (u :: l)) with (bestTail (if less t u then u else t) l).
    destruct (less t u) eqn:Htu.
    + destruct Hin as [<- | [<- | Hin]].
      * destruct (less (bestTail u l) t) eqn:E; [| reflexivity].
        assert (less (bestTail u l) u = true) as Hbad
          by (eapply less_trans; eassumption).
        rewrite (IH u u (or_introl eq_refl)) in Hbad. discriminate.
      * apply IH. left. reflexivity.
      * apply IH. right. exact Hin.
    + destruct Hin as [<- | [<- | Hin]].
      * apply IH. left. reflexivity.
      * destruct (less (bestTail t l) u) eqn:E; [| reflexivity].
        assert (less (bestTail t l) t = true) as Hbad
          by (eapply less_below; eassumption).
        rewrite (IH t t (or_introl eq_refl)) in Hbad. discriminate.
      * apply IH. right. exact Hin.
Qed.

Lemma bestTail_stays l : forall t,
  (forall v, In v l -> less t v = false) -> bestTail t l = t.
Proof.
  induction l as [| u l IH]; intros t Hall; [reflexivity |].
  change (bestTail t (u :: l)) with (bestTail (if less t u then u else t) l).
  rewrite (Hall u (or_introl eq_refl)).
  apply IH. intros v Hv. apply Hall. right. exact Hv.
Qed.


End ForkChoiceFacts.

(** ** The LRU cache *)

Section CacheFacts.
Context {K V : Type} (eqb : K -> K -> bool).
Hypothesis eqb_refl : forall k, eqb k k = true.

Lemma Forall_removelast {A} (P : A -> Prop) (l : list A) :
  Forall P l -> Forall P (removelast l).
Proof.
  induction 1 as [| x l Hx Hl IH]; simpl; [constructor |].
  destruct l; [constructor | constructor; assumption].
Qed.

Lemma Forall_without (P : K * V -> Prop) k l :
  Forall P l -> Forall P (LRU.without eqb k l).
Proof.
  unfold LRU.without. rewrite !Forall_forall.
  intros Hl x Hx. apply filter_In in Hx. apply Hl, Hx.
Qed.

Lemma lookup_in (c : @LRU.Cache K V) k v :
  LRU.lookup eqb c k = Some v ->
  exists k', In (k', v) (LRU.items c) /\ eqb k' k = true.
Proof.
  unfold LRU.lookup.
  destruct (find _ (LRU.items c)) as [[k' v'] |] eqn:E; simpl; [| discriminate].
  intros [= <-]. apply find_some in E. exists k'. exact E.
Qed.

Lemma Add_items_Forall (P : K * V -> Prop) (c : @LRU.Cache K V) k v :
  P (k, v) -> Forall P (LRU.items c) -> Forall P (LRU.items (LRU.Add eqb c k v)).
Proof.
  intros Hkv Hc. unfold LRU.Add.
  destruct (LRU.lookup eqb c k); cbn [LRU.items].
  - constructor; [exact Hkv | apply Forall_without; exact Hc].
  - destruct (Nat.ltb _ _); [apply Forall_removelast |]; constructor; assumption.
Qed.

Lemma lookup_Add (c : @LRU.Cache K V) k v :
  (0 < LRU.size c)%nat -> LRU.lookup eqb (LRU.Add eqb c k v) k = Some v.
Proof.
  intros Hsize. unfold LRU.Add.
  destruct (LRU.lookup eqb c k) eqn:E.
  - unfold LRU.lookup. simpl. rewrite eqb_refl. reflexivity.
  - cbn [LRU.items LRU.size].
    destruct (Nat.ltb_spec (LRU.size c) (List.length ((k, v) :: LRU.items c))) as [Hlt | Hge].
    + destruct (LRU.items c) as [| kv rest] eqn:El; [simpl in Hlt; lia |].
      unfold LRU.lookup. cbn [LRU.items]. simpl. rewrite eqb_refl. reflexivity.
    + unfold LRU.lookup. simpl. rewrite eqb_refl. reflexivity.
Qed.

End CacheFacts.

(** Takes the next step of a chain of fallible calls: a case analysis
    on the innermost scrutinee of the goal. *)
Ltac step_through :=
  match goal with
  | |- context [match ?x with _ => _ end] =>
      lazymatch x with
      | context [match _ with _ => _ end] => fail
      | _ => destruct x eqn:?
      end
  end.

Section EngineFacts.
Context {consts : Constants} {neblet : Neblet}.

(** *** setLib *)

(** C9: when persisting the block fails, [setLib] leaves the engine as
    it was: the LIB, the reversible cache and the log of effects (so no
    event) are unchanged.  When it succeeds the block is the new LIB
    and the effects are, in this order, the write to storage, the move
    of the LIB, the removal from the reversible cache and the
    [TopicLibBlock] event. *)
Theorem setLib_persists_first (pod : PoD) (block : Block) (confirmed : Z) :
  (forall e, StoreLIBHashToStorage block = Some e ->
     let pod' := setLib pod block confirmed in
     pod' = pod
     /\ LIB (chain pod') = LIB (chain pod)
     /\ reversible pod' = reversible pod
     /\ effects pod' = effects pod)
  /\ (StoreLIBHashToStorage block = None ->
     let pod' := setLib pod block confirmed in
     LIB (chain pod') = block
     /\ reversible pod'
        = LRU.Remove String.eqb (reversible pod) (Hex (Hash block))
     /\ effects pod'
        = effects pod
          ++ [StoredLIBHash block; SetLIBTo block;
              RemovedReversible (Hex (Hash block));
              Triggered {| EventTopic := TopicLibBlock;
                           EventData := BlockString block |}]).
Proof.
  unfold setLib. split.
  - intros e ->. simpl. auto.
  - intros ->. simpl. repeat split.
    rewrite <- !app_assoc. reflexivity.
Qed.

(** *** sendTransaction *)

Lemma sendTransaction_outcome pod timestamp action data :
  (snd (sendTransaction pod timestamp action data) = None
   /\ exists tx, fst (sendTransaction pod timestamp action data)
                = did pod (PushedTransaction tx)
                /\ PushAndBroadcast tx = None)
  \/ ((exists e, snd (sendTransaction pod timestamp action data) = Some e)
      /\ fst (sendTransaction pod timestamp action data) = pod).
Proof.
  unfold sendTransaction.
  repeat step_through; simpl; eauto.
Qed.

(** *** The evil detector *)

(** What [sendTransaction] submits is fixed by its arguments. *)
Lemma sends_functional pod timestamp action data tx tx' :
  sends pod timestamp action data tx ->
  sends pod timestamp action data tx' ->
  tx = tx'.
Proof.
  intros (u & (p & b & n & c & h & H1 & H2 & H3 & H4 & H5 & ->) & Hs & _)
         (u' & (p' & b' & n' & c' & h' & H1' & H2' & H3' & H4' & H5' & ->) & Hs' & _).
  assert (p' = p) as -> by congruence.
  assert (b' = b) as -> by congruence.
  assert (n' = n) as -> by congruence.
  assert (c' = c) as -> by congruence.
  assert (h' = h) as -> by congruence.
  congruence.
Qed.

(** [sendTransaction] submits the transaction that [sends] describes,
    and fails with the engine unchanged when there is none. *)
Lemma sendTransaction_sends pod timestamp action data :
  (exists tx,
      sends pod timestamp action data tx
      /\ sendTransaction pod timestamp action data
         = (did pod (PushedTransaction tx), None))
  \/ ((forall tx, ~ sends pod timestamp action data tx)
      /\ exists e, sendTransaction pod timestamp action data = (pod, Some e)).
Proof.
  unfold sendTransaction.
  destruct (NewPodPayload (serial timestamp) action data) as [payload | e] eqn:E1.
  2: { right. split; [| eauto].
       intros tx (u & (p & b & n & c & h & H1 & _) & _). congruence. }
  destruct (PayloadToBytes payload) as [bytes | e] eqn:E2.
  2: { right. split; [| eauto].
       intros tx (u & (p & b & n & c & h & H1 & H2 & _) & _).
       assert (p = payload) as -> by congruence. congruence. }
  destruct (GetAccountNonce (tailBlock (chain pod)) (miner pod))
    as [accNonce | e] eqn:E3.
  2: { right. split; [| eauto].
       intros tx (u & (p & b & n & c & h & H1 & H2 & H3 & _) & _). congruence. }
  destruct (NewTransaction (ChainID (chain pod)) (miner pod) PoDContract 0
              (add_uint64 accNonce 1) TxPayloadPodType bytes
              TransactionMaxGasPrice TransactionMaxGas) as [created | e] eqn:E4.
  2: { right. split; [| eauto].
       intros tx (u & (p & b & n & c & h & H1 & H2 & H3 & H4 & _) & _).
       assert (p = payload) as -> by congruence.
       assert (b = bytes) as -> by congruence.
       assert (n = accNonce) as -> by congruence. congruence. }
  destruct (HashTransaction (SetTimestamp created timestamp)) as [hash | e] eqn:E5.
  2: { right. split; [| eauto].
       intros tx (u & (p & b & n & c & h & H1 & H2 & H3 & H4 & H5 & _) & _).
       assert (p = payload) as -> by congruence.
       assert (b = bytes) as -> by congruence.
       assert (n = accNonce) as -> by congruence.
       assert (c = created) as -> by congruence. congruence. }
  assert (prepares pod timestamp action data
            (SetHash (SetTimestamp created timestamp) hash)) as Hprep
    by (exists payload, bytes, accNonce, created, hash; auto 10).
  destruct (signTransaction pod (SetHash (SetTimestamp created timestamp) hash))
    as [tx | e] eqn:E6.
  2: { right. split; [| eauto].
       intros tx (u & (p & b & n & c & h & H1 & H2 & H3 & H4 & H5 & ->) & Hs & _).
       assert (p = payload) as -> by congruence.
       assert (b = bytes) as -> by congruence.
       assert (n = accNonce) as -> by congruence.
       assert (c = created) as -> by congruence.
       assert (h = hash) as -> by congruence. congruence. }
  assert (forall tx', sends pod timestamp action data tx' -> tx' = tx) as Honly.
  { intros tx' (u & (p & b & n & c & h & H1 & H2 & H3 & H4 & H5 & ->) & Hs & _).
    assert (p = payload) as -> by congruence.
    assert (b = bytes) as -> by congruence.
    assert (n = accNonce) as -> by congruence.
    assert (c = created) as -> by congruence.
    assert (h = hash) as -> by congruence. congruence. }
  destruct (PushAndBroadcast tx) as [e |] eqn:E7.
  - right. split; [| eauto].
    intros tx' Hs'. pose proof (Honly tx' Hs') as ->.
    destruct Hs' as (_ & _ & _ & Hpush). congruence.
  - left. exists tx. split; [| reflexivity].
    exists (SetHash (SetTimestamp created timestamp) hash). auto.
Qed.

(** *** The evil detector *)

(** C5, as the code has it: the report carries the block's timestamp
    and miner, and is [AttackDoubleSpend] for equal miners and
    [AttackNotMiner] otherwise.  With mining enabled, the node at the
    activation height and the local miner the proposer of the block's
    timestamp, [reportEvil] is one [sendTransaction] of a [PoDReport]
    with the bytes of that report: when every step of it succeeds,
    exactly the transaction built from that action and those bytes
    reaches the pool; when a step fails, none does and the engine is
    unchanged.  In all other cases the engine is unchanged. *)
Theorem reportEvil_sends_one_report (pod : PoD) (preBlock block : Block) :
  let reporting :=
    enable pod
    && NodeUpdateAtHeight (Height (tailBlock (chain pod)))
    && isProposer (Timestamp block) (miner pod) in
  let report := reportOf preBlock block in
  (ReportTimestamp report = Timestamp block
   /\ ReportMiner report = AddressString (Miner block)
   /\ (Miner preBlock = Miner block -> ReportEvil report = AttackDoubleSpend)
   /\ (Miner preBlock <> Miner block -> ReportEvil report = AttackNotMiner))
  /\ (reporting = true ->
      reportEvil pod preBlock block
      = fst (sendTransaction pod (Timestamp block) PoDReport (ReportToBytes report))
      /\ ((exists tx,
             sends pod (Timestamp block) PoDReport (ReportToBytes report) tx
             /\ reportEvil pod preBlock block = did pod (PushedTransaction tx))
          \/ ((forall tx,
                 ~ sends pod (Timestamp block) PoDReport (ReportToBytes report) tx)
              /\ reportEvil pod preBlock block = pod)))
  /\ (reporting = false -> reportEvil pod preBlock block = pod).
Proof.
  intros reporting report. subst reporting report.
  split; [| split].
  - unfold reportOf. cbn [ReportTimestamp ReportMiner ReportEvil].
    split; [reflexivity |]. split; [reflexivity |].
    split; intros E.
    + apply Equals_true in E. rewrite E. reflexivity.
    + apply Equals_false in E. rewrite E. reflexivity.
  - intros Hgate. apply andb_prop in Hgate as [Hgate Hprop].
    apply andb_prop in Hgate as [Hen Hup].
    assert (reportEvil pod preBlock block
            = fst (sendTransaction pod (Timestamp block) PoDReport
                     (ReportToBytes (reportOf preBlock block)))) as Hrun
      by (unfold reportEvil; rewrite Hen, Hup, Hprop; reflexivity).
    split; [exact Hrun |]. rewrite Hrun.
    destruct (sendTransaction_sends pod (Timestamp block) PoDReport
                (ReportToBytes (reportOf preBlock block)))
      as [(tx & Hs & E) | (Hno & e & E)]; rewrite E.
    + left. exists tx. split; [exact Hs | reflexivity].
    + right. split; [exact Hno | reflexivity].
  - intros Hgate. unfold reportEvil.
    destruct (enable pod); simpl in *; [| reflexivity].
    destruct (NodeUpdateAtHeight _); simpl in *; [| reflexivity].
    rewrite Hgate. reflexivity.
Qed.

(** C4: [CheckDoubleMint] answers true exactly when the slot cache
    holds, under the block's timestamp, a block of another hash, and
    then [reportEvil] has been run on the stored and the new block; it
    answers false when there is no entry and when the stored block has
    the same hash. *)
Theorem CheckDoubleMint_detects (pod : PoD) (block : Block) :
  let stored := LRU.lookup Z.eqb (slot pod) (Timestamp block) in
  (fst (CheckDoubleMint pod block) = true
   <-> exists preBlock, stored = Some preBlock /\ Hash preBlock <> Hash block)
  /\ (forall preBlock,
        stored = Some preBlock -> Hash preBlock <> Hash block ->
        CheckDoubleMint pod block
        = (true,
           reportEvil
             (with_slot pod (snd (LRU.Get Z.eqb (slot pod) (Timestamp block))))
             preBlock block))
  /\ (stored = None -> CheckDoubleMint pod block = (false, pod))
  /\ (forall preBlock,
        stored = Some preBlock -> Hash preBlock = Hash block ->
        fst (CheckDoubleMint pod block) = false
        /\ effects (snd (CheckDoubleMint pod block)) = effects pod).
Proof.
  intros stored. subst stored. unfold CheckDoubleMint, LRU.Get.
  destruct (LRU.lookup Z.eqb (slot pod) (Timestamp block)) as [preBlock |] eqn:E.
  - destruct (Equals (Hash preBlock) (Hash block)) eqn:Hh; simpl.
    + apply Equals_true in Hh.
      split; [split; [discriminate | intros (p & [= <-] & Hne); contradiction] |].
      split; [intros p [= <-] Hne; contradiction |].
      split; [discriminate |].
      intros p _ _. split; reflexivity.
    + apply Equals_false in Hh.
      split; [split; [intros _; eauto | reflexivity] |].
      split; [intros p [= <-] _; reflexivity |].
      split; [discriminate |].
      intros p [= <-] Heq. contradiction.
  - simpl.
    split; [split; [discriminate | intros (p & Hp & _); discriminate] |].
    split; [discriminate |].
    split; [reflexivity |].
    discriminate.
Qed.

(** *** VerifyBlock *)

Lemma VerifyBlock_outcome pod block :
  (snd (VerifyBlock pod block) = None
   /\ fst (VerifyBlock pod block)
      = with_slot pod (LRU.Add Z.eqb (slot pod) (Timestamp block) block))
  \/ ((exists e, snd (VerifyBlock pod block) = Some e)
      /\ fst (VerifyBlock pod block) = pod).
Proof.
  unfold VerifyBlock.
  repeat step_through; simpl; eauto.
Qed.

(** The remainder of the truncating division is zero exactly for the
    multiples of the divisor. *)
Lemma rem_zero_divide (x b : Z) : Z.rem x b = 0 <-> (b | x).
Proof.
  split.
  - intros Hr. exists (Z.quot x b).
    pose proof (Z.quot_rem' x b) as E. rewrite Hr in E. lia.
  - intros [q ->]. destruct (Z.eq_dec b 0) as [-> | Hb].
    + rewrite Z.mul_0_r. reflexivity.
    + apply Z.rem_mul. exact Hb.
Qed.

(** C6, as the code has it: [VerifyBlock] fails with
    [ErrInvalidBlockTimestamp] when the block's timestamp differs from
    that of its consensus root; past that check, and for a timestamp
    whose milliseconds fit an [int64], it fails with
    [ErrInvalidBlockInterval] when the timestamp in milliseconds is not
    positive or not a multiple of the block interval; a failure leaves
    the engine as it was; success adds the block to the slot cache
    under its timestamp, where it is then found; and a cache whose
    blocks sit under their timestamps stays so. *)
Theorem VerifyBlock_checks (pod : PoD) (block : Block) :
  let ms := Timestamp block * SecondInMs in
  (Timestamp block <> RootTimestamp (Root block) ->
     VerifyBlock pod block = (pod, Some ErrInvalidBlockTimestamp))
  /\ (Int64.in_range ms ->
      Timestamp block = RootTimestamp (Root block) ->
      ms <= 0 \/ ~ (BlockIntervalInMs | ms) ->
      VerifyBlock pod block = (pod, Some ErrInvalidBlockInterval))
  /\ (forall e, snd (VerifyBlock pod block) = Some e ->
        fst (VerifyBlock pod block) = pod)
  /\ (snd (VerifyBlock pod block) = None ->
        slot (fst (VerifyBlock pod block))
        = LRU.Add Z.eqb (slot pod) (Timestamp block) block
        /\ ((0 < LRU.size (slot pod))%nat ->
            LRU.lookup Z.eqb (slot (fst (VerifyBlock pod block))) (Timestamp block)
            = Some block))
  /\ (keys_are_timestamps (slot pod) ->
        keys_are_timestamps (slot (fst (VerifyBlock pod block)))).
Proof.
  intros ms.
  split; [| split; [| split; [| split]]].
  - intros Hne. unfold VerifyBlock.
    apply Z.eqb_neq in Hne. rewrite Hne. reflexivity.
  - intros Hfits Heq Hbad. unfold VerifyBlock.
    apply Z.eqb_eq in Heq. rewrite Heq. cbn [negb]. cbv zeta.
    unfold Int64.mul, Int64.rem. fold ms. rewrite (wrap64_id _ Hfits).
    destruct Hbad as [Hle | Hrem].
    + apply Z.leb_le in Hle. rewrite Hle. reflexivity.
    + assert (Z.rem ms BlockIntervalInMs <> 0) as Hnz
        by (intros Hz; apply Hrem, rem_zero_divide; exact Hz).
      apply Z.eqb_neq in Hnz. rewrite Hnz, orb_true_r. reflexivity.
  - intros e He.
    destruct (VerifyBlock_outcome pod block) as [[Hn _] | [_ Hp]];
      [congruence | exact Hp].
  - intros Hok.
    destruct (VerifyBlock_outcome pod block) as [[_ Hp] | [[e He] _]];
      [| congruence].
    rewrite Hp. simpl. split; [reflexivity |].
    apply lookup_Add. apply Z.eqb_refl.
  - intros Hinv.
    destruct (VerifyBlock_outcome pod block) as [[_ Hp] | [_ Hp]];
      rewrite Hp; [| exact Hinv].
    simpl. apply Add_items_Forall; [reflexivity | exact Hinv].
Qed.

(** *** heartbeat *)

Lemma sendTransaction_keeps pod timestamp action data :
  let pod' := fst (sendTransaction pod timestamp action data) in
  launchBeat pod' = launchBeat pod
  /\ enable pod' = enable pod
  /\ chain pod' = chain pod.
Proof.
  destruct (sendTransaction_outcome pod timestamp action data)
    as [[_ [tx [E _]]] | [_ E]]; simpl; rewrite E; simpl; auto.
Qed.

(** C10: the first [heartbeat] that passes the enable and activation
    gates sets [launchBeat] and only then looks up the participants and
    sends; the flag stays set whatever becomes of that attempt; a later
    tick off the middle of a dynasty then does nothing, and only a tick
    at the middle tries again. *)
Theorem heartbeat_launches_once (pod : PoD) (now now' : Z) :
  enable pod = true ->
  NodeUpdateAtHeight (Height (tailBlock (chain pod))) = true ->
  launchBeat pod = false ->
  let launched := with_launchBeat pod true in
  let pod1 := fst (heartbeat pod now) in
  heartbeat pod now
  = match getParticipants with
    | Err e => (launched, Some e)
    | Ok participants =>
        if existsb (String.eqb (AddressString (miner pod))) participants
        then sendTransaction launched now PoDHeartbeat []
        else (launched, Some ErrMinerNotSignUp)
    end
  /\ launchBeat pod1 = true
  /\ (offMidpoint now' = true -> heartbeat pod1 now' = (pod1, None))
  /\ (offMidpoint now' = false ->
      heartbeat pod1 now'
      = match getParticipants with
        | Err e => (pod1, Some e)
        | Ok participants =>
            if existsb (String.eqb (AddressString (miner pod1))) participants
            then sendTransaction pod1 now' PoDHeartbeat []
            else (pod1, Some ErrMinerNotSignUp)
        end).
Proof.
  intros Hen Hup Hlb launched pod1.
  split; [unfold heartbeat; rewrite Hen, Hup, Hlb; reflexivity |].
  assert (launchBeat pod1 = true /\ enable pod1 = true
          /\ chain pod1 = chain pod) as (Hl1 & He1 & Hc1).
  { subst pod1. unfold heartbeat. rewrite Hen, Hup, Hlb. simpl.
    destruct getParticipants as [participants | e]; simpl; [| auto].
    destruct (existsb _ participants); simpl; [| auto].
    destruct (sendTransaction_keeps (with_launchBeat pod true) now PoDHeartbeat [])
      as (-> & -> & ->). simpl. auto. }
  split; [exact Hl1 |].
  clearbody pod1.
  unfold heartbeat. rewrite He1, Hc1, Hup, Hl1. simpl.
  split; intros ->; simpl; [reflexivity |].
  replace (with_launchBeat pod1 true) with pod1; [reflexivity |].
  destruct pod1; simpl in *. subst. reflexivity.
Qed.

End EngineFacts.

(** ** Keys of the proposer set *)

Lemma unhex_hex_byte x :
  unhex_byte (hex_digit (Byte.to_N x / 16)) (hex_digit (Byte.to_N x mod 16)) = Some x.
Proof. destruct x; vm_compute; reflexivity. Qed.

Lemma Hex_inj : Injective Hex.
Proof.
  intros a. induction a as [| x a IH]; intros [| y b]; simpl; try discriminate.
  - reflexivity.
  - intros [= Ehi Elo Erest].
    pose proof (unhex_hex_byte x) as Hx. rewrite Ehi, Elo, unhex_hex_byte in Hx.
    f_equal; [congruence | apply IH; exact Erest].
Qed.

Lemma map_set_In key m k : In k (map_set key m) <-> k = key \/ In k m.
Proof.
  unfold map_set. destruct (in_dec string_dec key m); simpl; intuition congruence.
Qed.

Lemma map_set_NoDup key m : NoDup m -> NoDup (map_set key m).
Proof.
  unfold map_set. destruct (in_dec string_dec key m); [auto | constructor; auto].
Qed.

Section FinalityFacts.
Context {consts : Constants} {neblet : Neblet} (Hwf : wf_constants).

(** *** Counting distinct proposers *)

Lemma distinct_nonneg l : 0 <= distinct l.
Proof. unfold distinct, len. lia. Qed.

Lemma distinct_cons x l : distinct l <= distinct (x :: l) <= 1 + distinct l.
Proof.
  unfold distinct, len. cbn [nodup].
  destruct (in_dec Bytes_eq_dec x l); cbn [List.length]; lia.
Qed.

Lemma tracks_nil : tracks [] [].
Proof. split; [constructor | simpl; tauto]. Qed.

Lemma tracks_set miners l p :
  tracks miners l -> tracks (map_set (Hex p) miners) (p :: l).
Proof.
  intros [Hnd Hin]. split; [apply map_set_NoDup; exact Hnd |].
  intros k. rewrite map_set_In, Hin. simpl. intuition congruence.
Qed.

Lemma tracks_len miners l : tracks miners l -> len miners = distinct l.
Proof.
  intros [Hnd Hin]. unfold distinct, len. f_equal.
  rewrite <- (length_map Hex (nodup Bytes_eq_dec l)).
  assert (NoDup (map Hex (nodup Bytes_eq_dec l))) as Hnd'
    by (apply Injective_map_NoDup; [exact Hex_inj | apply NoDup_nodup]).
  assert (forall k, In k miners <-> In k (map Hex (nodup Bytes_eq_dec l))) as Hin'.
  { intros k. rewrite Hin, !in_map_iff.
    split; intros (p & Ep & Hp); exists p; (split; [exact Ep |]);
      apply nodup_In in Hp || apply (nodup_In Bytes_eq_dec); exact Hp. }
  apply Nat.le_antisymm; apply NoDup_incl_length; try assumption;
    intros k Hk; apply Hin'; exact Hk.
Qed.

(** *** The state of the walk *)

Lemma after_reset miners dynasty walked s :
  walk_state miners dynasty walked ->
  tracks (if negb (s =? dynasty) then [] else miners) (sameDynastyRun s walked)
  /\ (if negb (s =? dynasty) then s else dynasty) = s.
Proof.
  intros [Ht Hw]. destruct (Z.eqb_spec s dynasty) as [-> | Hne]; simpl.
  - auto.
  - split; [| reflexivity].
    destruct Hw as [-> | (b & earlier & -> & ->)]; simpl; [apply tracks_nil |].
    destruct (Z.eqb_spec (serial (Timestamp b)) s); [congruence | apply tracks_nil].
Qed.

Lemma prune_sound : forall path walked,
  (forall b rest, path = b :: rest ->
     len path + distinct (sameDynastyRun (serial (Timestamp b)) walked)
     < ConsensusSize) ->
  firstQuorum walked path = None.
Proof.
  induction path as [| b rest IH]; intros walked Hfew; [reflexivity |].
  specialize (Hfew b rest eq_refl).
  unfold len in Hfew. simpl List.length in Hfew.
  cbn [firstQuorum]. unfold proposersAt.
  pose proof (distinct_cons (Proposer (Root b))
                (sameDynastyRun (serial (Timestamp b)) walked)) as Hc.
  pose proof (distinct_nonneg (sameDynastyRun (serial (Timestamp b)) walked)).
  destruct (Z.leb_spec ConsensusSize
              (distinct (Proposer (Root b)
                         :: sameDynastyRun (serial (Timestamp b)) walked)));
    [lia |].
  apply IH. intros b' rest' ->. unfold len. simpl sameDynastyRun.
  destruct (Z.eqb_spec (serial (Timestamp b)) (serial (Timestamp b'))) as [E | E].
  - rewrite <- E. simpl List.length in *. lia.
  - change (distinct []) with 0. simpl List.length in *. lia.
Qed.

Lemma ancestry_height bc lib cur path :
  ancestry bc lib cur path -> Height cur = Height lib + len path.
Proof.
  induction 1 as [cur Hh Hl | cur parent rest Hne Hg Hh Hgen Hrest IH];
    unfold len in *; simpl List.length; lia.
Qed.

Lemma ancestry_ends bc lib cur path :
  ancestry bc lib cur path -> Hash cur = Hash lib -> path = [].
Proof. destruct 1; [reflexivity | congruence]. Qed.

Lemma int_of_height h : 0 <= h <= Int64.max_int -> Int64.of_uint64 h = h.
Proof.
  intros Hh. apply wrap64_id.
  unfold Int64.in_range, Int64.min_int, Int64.max_int in *. lia.
Qed.

Lemma prune_test hc hl (miners : list string) :
  0 <= hl <= Int64.max_int -> 0 <= hc <= Int64.max_int ->
  len miners < ConsensusSize ->
  (Int64.sub (Int64.of_uint64 hc) (Int64.of_uint64 hl)
   <? Int64.sub ConsensusSize (len miners))
  = (hc - hl <? ConsensusSize - len miners).
Proof.
  intros Hl Hc Hm. rewrite !int_of_height by assumption.
  pose proof (wf_consensus_range Hwf). pose proof (wf_consensus_pos Hwf).
  assert (0 <= len miners) by (unfold len; lia).
  unfold Int64.sub. rewrite !wrap64_id; [reflexivity | |];
    unfold Int64.in_range, Int64.min_int, Int64.max_int in *; lia.
Qed.

Lemma setLib_LIB pod block confirmed :
  LIB (chain (setLib pod block confirmed)) = block
  \/ setLib pod block confirmed = pod.
Proof.
  unfold setLib. destruct (StoreLIBHashToStorage block); simpl; auto.
Qed.

Lemma GetBlock_in bc hash b : GetBlock bc hash = Some b -> In b (blocks bc).
Proof. unfold GetBlock. intros E. apply find_some in E. apply E. Qed.

(** *** The walk never goes below the LIB *)

Lemma walk_never_back pod :
  let lib := LIB (chain pod) in
  0 <= Height lib <= Int64.max_int ->
  (forall b, In b (blocks (chain pod)) -> 0 <= Height b <= Int64.max_int) ->
  forall fuel cur miners dynasty pod',
    0 <= Height cur <= Int64.max_int ->
    len miners < ConsensusSize ->
    walk fuel pod lib cur miners dynasty = Some pod' ->
    LIB (chain pod') = lib \/ Height lib < Height (LIB (chain pod')).
Proof.
  intros lib Hlib Hblocks.
  induction fuel as [| fuel IH]; intros cur miners dynasty pod' Hcur Hm Hw;
    [discriminate |].
  cbn [walk] in Hw.
  destruct (Equals (Hash cur) (Hash lib)); [inversion Hw; subst pod'; left; reflexivity |].
  set (s := Int64.quo (Int64.mul (Timestamp cur) SecondInMs) DynastyIntervalInMs) in *.
  set (miners1 := if negb (s =? dynasty) then [] else miners) in *.
  assert (len miners1 < ConsensusSize) as Hm1.
  { subst miners1. destruct (negb (s =? dynasty)); [| exact Hm].
    pose proof (wf_consensus_pos Hwf). unfold len. simpl. lia. }
  rewrite (prune_test _ _ _ Hlib Hcur Hm1) in Hw.
  destruct (Z.ltb_spec (Height cur - Height lib) (ConsensusSize - len miners1));
    [inversion Hw; subst pod'; left; reflexivity |].
  destruct (Z.geb_spec (len (map_set (Hex (Proposer (Root cur))) miners1))
              ConsensusSize) as [Hq | Hq].
  - inversion Hw; subst pod'.
    destruct (setLib_LIB pod cur (len (map_set (Hex (Proposer (Root cur))) miners1)))
      as [-> | ->]; [right; lia | left; reflexivity].
  - destruct (GetBlock (chain pod) (ParentHash cur)) as [parent |] eqn:Hg;
      [| inversion Hw; subst pod'; left; reflexivity].
    destruct (CheckGenesisBlock parent); [inversion Hw; subst pod'; left; reflexivity |].
    eapply IH; [| | exact Hw]; [| lia].
    apply Hblocks. eapply GetBlock_in. exact Hg.
Qed.

(** *** The walk finds the first quorum *)

Lemma walk_finds_quorum pod :
  let lib := LIB (chain pod) in
  0 <= Height lib ->
  forall cur path,
    ancestry (chain pod) lib cur path ->
    forall walked miners dynasty fuel,
      walk_state miners dynasty walked ->
      len miners < ConsensusSize ->
      Height cur <= Int64.max_int ->
      (List.length path < fuel)%nat ->
      walk fuel pod lib cur miners dynasty
      = Some (finalized pod (firstQuorum walked path)).
Proof.
  intros lib Hlib cur path Hanc.
  induction Hanc as [cur Hh Hl | cur parent rest Hne Hg Hh Hgen Hrest IH];
    intros walked miners dynasty fuel Hst Hm Hcur Hfuel.
  - destruct fuel as [| fuel]; [simpl in Hfuel; lia |].
    cbn [walk]. apply Equals_true in Hh. rewrite Hh. reflexivity.
  - destruct fuel as [| fuel]; [simpl in Hfuel; lia |].
    simpl List.length in Hfuel.
    pose proof (ancestry_height _ _ _ _ Hrest) as Hph.
    assert (0 <= len rest) as Hlen by (unfold len; lia).
    cbn [walk]. apply Equals_false in Hne. rewrite Hne.
    fold (serial (Timestamp cur)).
    destruct (after_reset miners dynasty walked (serial (Timestamp cur)) Hst)
      as [Htr ->].
    set (miners1 := if negb (serial (Timestamp cur) =? dynasty) then [] else miners) in *.
    assert (len miners1 < ConsensusSize) as Hm1.
    { subst miners1. destruct (negb (serial (Timestamp cur) =? dynasty)); [| exact Hm].
      pose proof (wf_consensus_pos Hwf). unfold len. simpl. lia. }
    rewrite prune_test by (assumption || lia).
    pose proof (tracks_len _ _ Htr) as Hlen1.
    destruct (Z.ltb_spec (Height cur - Height lib) (ConsensusSize - len miners1))
      as [Hprune | Hgo].
    + rewrite prune_sound; [reflexivity |].
      intros b rest' E. injection E as Eb Er. subst b rest'.
      unfold len in *. simpl List.length. lia.
    + pose proof (tracks_set _ _ (Proposer (Root cur)) Htr) as Htr2.
      pose proof (tracks_len _ _ Htr2) as Hlen2.
      fold (proposersAt walked cur) in Hlen2.
      cbn [firstQuorum]. rewrite Z.geb_leb, Hlen2.
      destruct (Z.leb_spec ConsensusSize (distinct (proposersAt walked cur)));
        [reflexivity |].
      rewrite Hg.
      assert (walk_state (map_set (Hex (Proposer (Root cur))) miners1)
                (serial (Timestamp cur)) (cur :: walked)) as Hst2.
      { split; [| right; eauto]. simpl. rewrite Z.eqb_refl. exact Htr2. }
      destruct (CheckGenesisBlock parent) eqn:Hcg.
      * destruct (Bytes_eq_dec (Hash parent) (Hash lib)) as [E | E];
          [| pose proof (Hgen E); congruence].
        rewrite (ancestry_ends _ _ _ _ Hrest E). reflexivity.
      * apply IH; [exact Hst2 | lia | lia | lia].
Qed.

(** C1, as the code has it (heights that fit an [int]): [UpdateLIB]
    leaves the LIB or moves it to a higher block.  When the LIB is an
    ancestor of the tail, heights growing by one a block, and enough
    fuel is given, [UpdateLIB] returns; if the walk meets a block at
    which the distinct proposers of its dynasty run number
    [ConsensusSize], the first such block becomes the LIB provided it
    can be persisted, and else the LIB stays. *)
Theorem UpdateLIB_advances (pod : PoD) (rversibleBlocks : list Bytes) :
  let lib := LIB (chain pod) in
  let tail := tailBlock (chain pod) in
  0 <= Height lib <= Int64.max_int ->
  (forall b, In b (tail :: blocks (chain pod)) -> 0 <= Height b <= Int64.max_int) ->
  (forall fuel pod',
     UpdateLIB fuel pod rversibleBlocks = Some pod' ->
     LIB (chain pod') = lib \/ Height lib < Height (LIB (chain pod')))
  /\ (forall path fuel,
        ancestry (chain pod) lib tail path ->
        (List.length path < fuel)%nat ->
        exists pod',
          UpdateLIB fuel pod rversibleBlocks = Some pod'
          /\ match firstQuorum [] path with
             | Some b =>
                 (StoreLIBHashToStorage b = None -> LIB (chain pod') = b)
                 /\ (StoreLIBHashToStorage b <> None -> LIB (chain pod') = lib)
             | None => LIB (chain pod') = lib
             end).
Proof.
  intros lib tail Hlib Hblocks.
  unfold UpdateLIB.
  set (pod0 := if enable pod && NodeUpdateAtHeight (Height (tailBlock (chain pod)))
               then _ else pod).
  assert (chain pod0 = chain pod) as Hc.
  { subst pod0. destruct (enable pod && _); [| reflexivity].
    destruct (isProposer _ _); [| reflexivity].
    destruct (broadcastWitness rversibleBlocks); reflexivity. }
  rewrite Hc. fold lib tail.
  assert (len (@nil string) < ConsensusSize) as Hnone
    by (pose proof (wf_consensus_pos Hwf); unfold len; simpl; lia).
  split.
  - intros fuel pod' Hw.
    pose proof (walk_never_back pod0) as Hnb. simpl in Hnb. rewrite Hc in Hnb.
    apply (Hnb Hlib (fun b Hb => Hblocks b (or_intror Hb)) fuel tail [] (-1) pod');
      [apply Hblocks; left; reflexivity | exact Hnone | exact Hw].
  - intros path fuel Hanc Hfuel.
    pose proof (walk_finds_quorum pod0) as Hq. simpl in Hq. rewrite Hc in Hq.
    fold lib in Hq.
    rewrite (Hq (proj1 Hlib) tail path Hanc [] [] (-1) fuel);
      [| split; [apply tracks_nil | left; reflexivity] | exact Hnone
       | apply Hblocks; left; reflexivity | exact Hfuel].
    eexists. split; [reflexivity |].
    destruct (firstQuorum [] path) as [b |]; simpl; [| rewrite Hc; reflexivity].
    unfold setLib. destruct (StoreLIBHashToStorage b); simpl.
    + split; [discriminate | intros _; rewrite Hc; reflexivity].
    + split; [reflexivity | congruence].
Qed.

End FinalityFacts.

(** ** The worked scenarios *)

Section AncestorsFacts.
Context {consts : Constants} {neblet : Neblet}.

Lemma ancestors_sound bc lib : forall fuel cur path,
  ancestors fuel bc lib cur = Some path -> ancestry bc lib cur path.
Proof.
  induction fuel as [| fuel IH]; intros cur path; [discriminate |].
  cbn [ancestors].
  destruct (Equals (Hash cur) (Hash lib)) eqn:Hh.
  - destruct (Z.eqb_spec (Height cur) (Height lib)); [| discriminate].
    intros [= <-]. apply ancestry_lib; [apply Equals_true; exact Hh | assumption].
  - destruct (GetBlock bc (ParentHash cur)) as [parent |] eqn:Hg; [| discriminate].
    destruct (Z.eqb_spec (Height cur) (Height parent + 1)); [| discriminate].
    simpl.
    destruct (Equals (Hash parent) (Hash lib) || negb (CheckGenesisBlock parent))
      eqn:Hp; [| discriminate].
    destruct (ancestors fuel bc lib parent) as [rest |] eqn:Hr; [| discriminate].
    intros [= <-].
    eapply ancestry_step; eauto.
    + apply Equals_false. exact Hh.
    + intros Hne. apply Equals_false in Hne. rewrite Hne in Hp. simpl in Hp.
      destruct (CheckGenesisBlock parent); [discriminate | reflexivity].
Qed.

(** [firstQuorum] answers with the first block of the path whose
    dynasty run holds [ConsensusSize] distinct proposers. *)
Lemma firstQuorum_first : forall path walked b,
  firstQuorum walked path = Some b ->
  exists before after,
    path = before ++ b :: after
    /\ ConsensusSize <= distinct (proposersAt (rev before ++ walked) b)
    /\ firstQuorum walked before = None.
Proof.
  induction path as [| c rest IH]; intros walked b; [discriminate |].
  cbn [firstQuorum].
  destruct (Z.leb_spec ConsensusSize (distinct (proposersAt walked c))) as [Hq | Hq].
  - intros [= <-]. exists [], rest. auto.
  - intros Hrest. destruct (IH _ _ Hrest) as (before & after & -> & Hb & Hnone).
    exists (c :: before), after. simpl. rewrite <- app_assoc. simpl.
    split; [reflexivity |]. split; [exact Hb |].
    destruct (Z.leb_spec ConsensusSize (distinct (proposersAt walked c)));
      [lia | exact Hnone].
Qed.

End AncestorsFacts.

Lemma s5_ancestry :
  @ancestry (collaborators true) s5_chain (s5_block 1) (s5_block 100) s5_path.
Proof.
  apply (@ancestors_sound (collaborators true) s5_chain (s5_block 1) 100).
  vm_compute. reflexivity.
Qed.

Lemma s5_ancestry_failing :
  @ancestry (collaborators false) s5_chain (s5_block 1) (s5_block 100) s5_path.
Proof.
  apply (@ancestors_sound (collaborators false) s5_chain (s5_block 1) 100).
  vm_compute. reflexivity.
Qed.

Lemma s5_heights b :
  In b (s5_block 100 :: blocks s5_chain) -> 0 <= Height b <= Int64.max_int.
Proof.
  intros Hb.
  assert (forallb (fun b => (0 <=? Height b) && (Height b <=? Int64.max_int))
                  (s5_block 100 :: blocks s5_chain) = true) as Hall
    by (vm_compute; reflexivity).
  rewrite forallb_forall in Hall. specialize (Hall b Hb).
  apply andb_prop in Hall as [H0 H1]. apply Z.leb_le in H0, H1. lia.
Qed.

Lemma UpdateLIB_advances_witness :
  exists pod',
    @UpdateLIB scenario_constants (collaborators true) 100 (engine_on s5_chain) []
    = Some pod'
    /\ LIB (chain pod') = s5_block 16.
Proof.
  destruct (@UpdateLIB_advances scenario_constants (collaborators true)
              scenario_constants_wf (engine_on s5_chain) [])
    as [_ Hadv].
  - change (0 <= 1 <= Int64.max_int). unfold Int64.max_int. lia.
  - exact s5_heights.
  - destruct (Hadv s5_path 100%nat s5_ancestry) as (pod' & Hrun & Hq).
    + apply Nat.ltb_lt. vm_compute. reflexivity.
    + exists pod'. split; [exact Hrun |].
      assert (@firstQuorum scenario_constants [] s5_path = Some (s5_block 16)) as E
        by (vm_compute; reflexivity).
      rewrite E in Hq. apply Hq. reflexivity.
Defined.

(** C1 fails when the store refuses the write: the walk of S5 meets its
    85th distinct proposer at height 16, and the LIB stays at height 1. *)
Lemma UpdateLIB_store_failure_counterexample :
  @ancestry (collaborators false) s5_chain (s5_block 1) (s5_block 100) s5_path
  /\ @firstQuorum scenario_constants [] s5_path = Some (s5_block 16)
  /\ option_map (fun pod' => Height (LIB (chain pod')))
       (@UpdateLIB scenario_constants (collaborators false) 100
          (engine_on s5_chain) [])
     = Some 1.
Proof.
  split; [exact s5_ancestry_failing |].
  split; vm_compute; reflexivity.
Qed.





Lemma setLib_persists_first_witness :
  LIB (chain (@setLib (collaborators true) (engine_on s5_chain) (s5_block 16) 85))
  = s5_block 16
  /\ @setLib (collaborators false) (engine_on s5_chain) (s5_block 16) 85
     = engine_on s5_chain.
Proof.
  split.
  - apply (@setLib_persists_first (collaborators true)). reflexivity.
  - eapply (@setLib_persists_first (collaborators false)). reflexivity.
Defined.

Lemma reportEvil_sends_one_report_witness :
  ReportEvil (@reportOf (collaborators true) s6_blockA s6_blockB) = AttackDoubleSpend
  /\ ReportEvil (@reportOf (collaborators true) s6_blockC s6_blockB) = AttackNotMiner
  /\ exists tx,
       @sends scenario_constants (collaborators true) s6_engine 15 PoDReport
         (@ReportToBytes (collaborators true)
            (@reportOf (collaborators true) s6_blockA s6_blockB))
         tx
       /\ @reportEvil scenario_constants (collaborators true)
            s6_engine s6_blockA s6_blockB
          = did s6_engine (PushedTransaction tx).
Proof.
  destruct (@reportEvil_sends_one_report scenario_constants (collaborators true)
              s6_engine s6_blockA s6_blockB)
    as [(_ & _ & Hdouble & _) [Hsame _]].
  destruct (@reportEvil_sends_one_report scenario_constants (collaborators true)
              s6_engine s6_blockC s6_blockB)
    as [(_ & _ & _ & Hnot) _].
  destruct (Hsame eq_refl) as [_ [(tx & Hs & E) | (_ & E)]].
  - split; [apply Hdouble; reflexivity |].
    split; [apply Hnot; discriminate |].
    exists tx. split; [exact Hs | exact E].
  - vm_compute in E. discriminate E.
Defined.

(** C5 fails when a step of [sendTransaction] fails: with the three
    gates open and an account manager that cannot sign, [reportEvil]
    submits nothing for the two conflicting blocks of S6. *)
Lemma reportEvil_sign_failure_counterexample :
  (enable s6_engine
   && @NodeUpdateAtHeight keyless (Height (tailBlock (chain s6_engine)))
   && @isProposer keyless (Timestamp s6_blockB) (miner s6_engine)) = true
  /\ Hash s6_blockA <> Hash s6_blockB
  /\ @reportEvil scenario_constants keyless s6_engine s6_blockA s6_blockB
     = s6_engine
  /\ effects (@reportEvil scenario_constants keyless s6_engine s6_blockA s6_blockB)
     = [].
Proof.
  split; [reflexivity |].
  split; [discriminate |].
  split; vm_compute; reflexivity.
Qed.

Lemma CheckDoubleMint_detects_witness :
  fst (@CheckDoubleMint scenario_constants (collaborators true) s6_engine s6_blockB)
  = true
  /\ fst (@CheckDoubleMint scenario_constants (collaborators true) s6_engine s6_blockA)
     = false.
Proof.
  destruct (@CheckDoubleMint_detects scenario_constants (collaborators true)
              s6_engine s6_blockB) as (Hiff & _).
  destruct (@CheckDoubleMint_detects scenario_constants (collaborators true)
              s6_engine s6_blockA) as (_ & _ & _ & Hsame).
  split.
  - apply Hiff. exists s6_blockA. split; [reflexivity | discriminate].
  - apply (Hsame s6_blockA); reflexivity.
Defined.

Lemma VerifyBlock_checks_witness :
  LRU.lookup Z.eqb
    (slot (fst (@VerifyBlock scenario_constants (collaborators true)
                  (engine_on s5_chain) s6_blockA)))
    15
  = Some s6_blockA
  /\ @VerifyBlock scenario_constants (collaborators true) (engine_on s5_chain)
       (block_at 2 16 [Byte.x11] (key_of 1) (key_of 7) (key_of 7))
     = (engine_on s5_chain, Some ErrInvalidBlockInterval).
Proof.
  destruct (@VerifyBlock_checks scenario_constants (collaborators true)
              (engine_on s5_chain) s6_blockA) as (_ & _ & _ & Hok & _).
  destruct (@VerifyBlock_checks scenario_constants (collaborators true)
              (engine_on s5_chain)
              (block_at 2 16 [Byte.x11] (key_of 1) (key_of 7) (key_of 7)))
    as (_ & Hinterval & _).
  split.
  - apply Hok; [vm_compute; reflexivity | simpl; lia].
  - apply Hinterval; [vm_compute; split; discriminate | reflexivity |].
    right. intros [k Hk]. change (16 * 1000 = k * 15000) in Hk. lia.
Defined.

(** C6 fails for a timestamp whose milliseconds do not fit an [int64]:
    [(2^61 + 15) * 1000] is not a multiple of 15000, but the [int64]
    product is 15000, and the block is accepted and put in the slot
    cache. *)
Lemma VerifyBlock_overflow_counterexample :
  Timestamp wrapped_block = RootTimestamp (Root wrapped_block)
  /\ 0 < Timestamp wrapped_block * SecondInMs
  /\ (Timestamp wrapped_block * SecondInMs) mod 15000 = 2000
  /\ Int64.mul (Timestamp wrapped_block) SecondInMs = 15000
  /\ snd (@VerifyBlock scenario_constants (collaborators true)
            (engine_on s5_chain) wrapped_block)
     = None
  /\ LRU.lookup Z.eqb
       (slot (fst (@VerifyBlock scenario_constants (collaborators true)
                     (engine_on s5_chain) wrapped_block)))
       (Timestamp wrapped_block)
     = Some wrapped_block.
Proof.
  repeat split; vm_compute; reflexivity.
Qed.

Lemma heartbeat_launches_once_witness :
  snd (@heartbeat scenario_constants (collaborators true) (engine_on s5_chain) 100)
  = Some ErrMinerNotSignUp
  /\ launchBeat
       (fst (@heartbeat scenario_constants (collaborators true)
               (engine_on s5_chain) 100))
     = true
  /\ @heartbeat scenario_constants (collaborators true)
       (fst (@heartbeat scenario_constants (collaborators true)
               (engine_on s5_chain) 100))
       101
     = (fst (@heartbeat scenario_constants (collaborators true)
               (engine_on s5_chain) 100),
        None).
Proof.
  destruct (@heartbeat_launches_once scenario_constants (collaborators true)
              (engine_on s5_chain) 100 101 eq_refl eq_refl eq_refl)
    as (_ & Hflag & Hoff & _).
  split; [reflexivity |].
  split; [exact Hflag |].
  apply Hoff. vm_compute. reflexivity.
Defined.

(** * Further properties of the engine *)

(** ** More on the timing primitives *)

Section MoreTiming.
Context {consts : Constants} (Hwf : wf_constants).

(** X1: from the first second on, the next slot is the slot after the
    last one. *)
Theorem nextSlot_follows_lastSlot now :
  SecondInMs <= now ->
  now + BlockIntervalInMs - SecondInMs <= Int64.max_int ->
  nextSlot now = lastSlot now + BlockIntervalInMs.
Proof.
  intros Hlo Hhi. pose proof (block_interval_bounds Hwf) as Hb.
  unfold SecondInMs in *.
  rewrite (lastSlot_exact Hwf), (nextSlot_exact Hwf)
    by (unfold SecondInMs, Int64.in_range, Int64.min_int, Int64.max_int in *; lia).
  unfold SecondInMs.
  rewrite !Z.quot_div_nonneg by lia.
  replace (now + BlockIntervalInMs - 1000)
    with (now - 1000 + 1 * BlockIntervalInMs) by lia.
  rewrite Z.div_add by lia. lia.
Qed.

(** X2: a slot boundary is its own next slot, so [nextSlot] applied twice
    is [nextSlot]. *)
Theorem nextSlot_idempotent now :
  0 <= now ->
  now + 2 * BlockIntervalInMs <= Int64.max_int ->
  nextSlot (nextSlot now) = nextSlot now.
Proof.
  intros Hlo Hhi. pose proof (block_interval_bounds Hwf) as Hb.
  unfold SecondInMs in *.
  assert (0 < BlockIntervalInMs) as Hbpos by lia.
  assert (Int64.in_range (now + BlockIntervalInMs - SecondInMs)) as Hr
    by (unfold SecondInMs, Int64.in_range, Int64.min_int, Int64.max_int in *; lia).
  rewrite (nextSlot_exact Hwf now Hr). unfold SecondInMs in *.
  destruct (quot_bounds (now + BlockIntervalInMs - 1000) _ Hbpos) as [Hp _].
  specialize (Hp ltac:(lia)).
  set (q := Z.quot (now + BlockIntervalInMs - 1000) BlockIntervalInMs) in *.
  rewrite (nextSlot_exact Hwf)
    by (unfold SecondInMs, Int64.in_range, Int64.min_int, Int64.max_int in *; lia).
  unfold SecondInMs.
  rewrite Z.quot_div_nonneg by lia.
  replace (q * BlockIntervalInMs + BlockIntervalInMs - 1000)
    with (BlockIntervalInMs - 1000 + q * BlockIntervalInMs) by lia.
  rewrite Z.div_add by lia.
  rewrite (Z.div_small (BlockIntervalInMs - 1000)) by lia. lia.
Qed.

End MoreTiming.

Section MoreDeadline.
Context {consts : Constants} (Hwf : wf_constants).

Lemma deadline_exact now :
  Int64.min_int <= now ->
  now + BlockIntervalInMs - SecondInMs <= Int64.max_int ->
  now + MaxMintDurationInMs <= Int64.max_int ->
  deadline now = Z.min (nextSlot now) (now + MaxMintDurationInMs)
  /\ Int64.sub (nextSlot now) now = nextSlot now - now.
Proof.
  intros Hlo Hhi Hmax.
  pose proof (block_interval_bounds Hwf) as Hb.
  pose proof (wf_max_nonneg Hwf) as Hm0.
  assert (0 < BlockIntervalInMs) as Hbpos by (unfold SecondInMs in *; lia).
  assert (Int64.in_range (now + BlockIntervalInMs - SecondInMs)) as Hx
    by (unfold SecondInMs, Int64.in_range, Int64.min_int, Int64.max_int in *; lia).
  unfold deadline. rewrite (nextSlot_exact Hwf now Hx).
  destruct (quot_bounds (now + BlockIntervalInMs - SecondInMs) _ Hbpos) as [Hp Hq].
  set (n := Z.quot (now + BlockIntervalInMs - SecondInMs) BlockIntervalInMs
            * BlockIntervalInMs) in *.
  assert (- SecondInMs < n - now < 2 * BlockIntervalInMs) as Hn.
  { unfold SecondInMs in *.
    destruct (Z.le_ge_cases 0 (now + BlockIntervalInMs - 1000)) as [H0 | H0];
      [specialize (Hp H0) | specialize (Hq H0)]; lia. }
  unfold Int64.sub, Int64.add.
  rewrite !wrap64_id
    by (unfold SecondInMs, Int64.in_range, Int64.min_int, Int64.max_int in *; lia).
  split; [| reflexivity].
  destruct (Z.ltb_spec (n - now) MaxMintDurationInMs); lia.
Qed.

(** X3: a deadline [checkDeadline] answers with lies in the window that
    is open for minting. *)
Theorem checkDeadline_window (tail : Block) (now d : Z) :
  0 < now ->
  now mod SecondInMs = 0 ->
  now + BlockIntervalInMs - SecondInMs <= Int64.max_int ->
  now + MaxMintDurationInMs <= Int64.max_int ->
  checkDeadline tail now = Ok d ->
  now <= d <= nextSlot now
  /\ d <= now + MaxMintDurationInMs
  /\ Int64.mul (Timestamp tail) SecondInMs < nextSlot now
  /\ (Int64.mul (Timestamp tail) SecondInMs = lastSlot now
      \/ nextSlot now - now <= MinMintDurationInMs).
Proof.
  intros Hpos Hsec Hhi Hmax Hok.
  assert (Int64.min_int <= now) as Hlo by (unfold Int64.min_int; lia).
  destruct (deadline_exact now Hlo Hhi Hmax) as (Emin & Esub).
  pose proof (nextSlot_not_before Hwf now Hsec Hlo Hhi) as Hnext.
  pose proof (wf_max_nonneg Hwf) as Hm0.
  unfold checkDeadline in Hok. rewrite Esub in Hok.
  destruct (Z.geb_spec (Int64.mul (Timestamp tail) SecondInMs) (nextSlot now));
    [discriminate |].
  destruct (Z.eqb_spec (Int64.mul (Timestamp tail) SecondInMs) (lastSlot now)).
  - injection Hok as <-. rewrite Emin in *. lia.
  - destruct (Z.leb_spec (nextSlot now - now) MinMintDurationInMs); [| discriminate].
    injection Hok as <-. rewrite Emin in *. lia.
Qed.

End MoreDeadline.

Section MoreSerial.
Context {consts : Constants} {neblet : Neblet} (Hwf : wf_constants).

Lemma serial_exact ts :
  0 <= ts -> ts * SecondInMs <= Int64.max_int ->
  serial ts = ts * SecondInMs / DynastyIntervalInMs.
Proof.
  intros Hlo Hhi. pose proof (wf_dynasty_pos Hwf) as Hd.
  unfold serial, Int64.mul, Int64.quo. unfold SecondInMs in *.
  rewrite (wrap64_id (ts * 1000))
    by (unfold Int64.in_range, Int64.min_int, Int64.max_int in *; lia).
  rewrite Z.quot_div_nonneg by lia.
  apply wrap64_id.
  assert (0 <= ts * 1000) as Hts by lia.
  pose proof (Z.div_pos (ts * 1000) DynastyIntervalInMs Hts Hd).
  assert (ts * 1000 / DynastyIntervalInMs <= ts * 1000)
    by (apply Z.div_le_upper_bound; nia).
  unfold Int64.in_range, Int64.min_int, Int64.max_int in *. lia.
Qed.

Lemma serial_mono ts ts' :
  0 <= ts -> ts <= ts' -> ts' * SecondInMs <= Int64.max_int ->
  serial ts <= serial ts'.
Proof.
  intros Hlo Hle Hhi. pose proof (wf_dynasty_pos Hwf) as Hd.
  rewrite (serial_exact ts), (serial_exact ts') by (unfold SecondInMs in *; lia).
  apply Z.div_le_mono; [lia | unfold SecondInMs; lia].
Qed.

(** X4: the serial of a timestamp is the number of whole dynasty
    intervals before it; serials grow with the timestamps. *)
Theorem serial_counts_dynasties ts ts' k :
  0 <= ts -> ts * SecondInMs <= Int64.max_int ->
  (serial ts = k <->
   k * DynastyIntervalInMs <= ts * SecondInMs < (k + 1) * DynastyIntervalInMs)
  /\ (ts <= ts' -> ts' * SecondInMs <= Int64.max_int -> serial ts <= serial ts').
Proof.
  intros Hlo Hhi. pose proof (wf_dynasty_pos Hwf) as Hd.
  rewrite (serial_exact ts Hlo Hhi). split.
  - assert (DynastyIntervalInMs <> 0) as Hnz by lia.
    pose proof (Z.div_mod (ts * SecondInMs) DynastyIntervalInMs Hnz) as Hdm.
    pose proof (Z.mod_pos_bound (ts * SecondInMs) DynastyIntervalInMs Hd) as Hm.
    split.
    + intros <-. nia.
    + intros Hk. symmetry.
      apply Z.div_unique with (r := ts * SecondInMs - k * DynastyIntervalInMs);
        [left; nia | nia].
  - intros Hle Hhi'. rewrite <- (serial_exact ts Hlo Hhi).
    apply serial_mono; assumption.
Qed.

(** X5: after the first beat, the seconds at which [heartbeat] goes on are
    those in the middle of a dynasty interval. *)
Theorem offMidpoint_seconds now :
  DynastyIntervalInMs mod (2 * SecondInMs) = 0 ->
  0 <= now ->
  now * SecondInMs + DynastyIntervalInMs <= Int64.max_int ->
  (offMidpoint now = false
   <-> now mod (DynastyIntervalInMs / SecondInMs)
       = DynastyIntervalInMs / (2 * SecondInMs)).
Proof.
  intros Heven Hlo Hhi. pose proof (wf_dynasty_pos Hwf) as Hd.
  unfold SecondInMs in *.
  apply Z.mod_divide in Heven; [| lia]. destruct Heven as [d Ed].
  assert (0 < d) as Hdpos by lia.
  unfold offMidpoint, Int64.rem, Int64.add, Int64.mul, SecondInMs.
  rewrite (wrap64_id (now * 1000))
    by (unfold Int64.in_range, Int64.min_int, Int64.max_int in *; lia).
  rewrite Z.quot_div_nonneg by lia.
  replace (DynastyIntervalInMs / 2) with (d * 1000)
    by (rewrite Ed; replace (d * (2 * 1000)) with (d * 1000 * 2) by lia;
        rewrite Z.div_mul; lia).
  rewrite wrap64_id
    by (unfold Int64.in_range, Int64.min_int, Int64.max_int in *; lia).
  rewrite Z.rem_mod_nonneg by lia.
  replace (DynastyIntervalInMs / 1000) with (2 * d)
    by (rewrite Ed; replace (d * (2 * 1000)) with (2 * d * 1000) by lia;
        rewrite Z.div_mul; lia).
  replace (DynastyIntervalInMs / (2 * 1000)) with d
    by (rewrite Ed, Z.div_mul; lia).
  rewrite negb_false_iff, Z.eqb_eq.
  replace (now * 1000 + d * 1000) with ((now + d) * 1000) by lia.
  rewrite Ed. replace (d * (2 * 1000)) with (2 * d * 1000) by lia.
  rewrite Z.mul_mod_distr_r by lia.
  pose proof (Z.div_mod now (2 * d) ltac:(lia)) as Hdm.
  pose proof (Z.mod_pos_bound now (2 * d) ltac:(lia)) as Hm.
  split.
  - intros Hz. assert ((now + d) mod (2 * d) = 0) as Hz' by lia.
    apply Z.mod_divide in Hz'; [| lia]. destruct Hz' as [q Hq].
    symmetry. apply Z.mod_unique with (q := q - 1); lia.
  - intros Hmid. 
    assert ((now + d) mod (2 * d) = 0) as Hz'; [| lia].
    apply Z.mod_divide; [lia |]. exists (now / (2 * d) + 1). lia.
Qed.

End MoreSerial.

Section MoreForkChoice.
Context {consts : Constants} {neblet : Neblet}.

(** X6: [less] is a strict total order on the pairs of height and hash. *)
Theorem less_strict_total_order (a b c : Block) :
  less a a = false
  /\ (less a b = true -> less b a = false)
  /\ (less a b = true -> less b c = true -> less a c = true)
  /\ (less a b = false -> less b a = false ->
      Height a = Height b /\ Hash a = Hash b).
Proof.
  split; [apply less_irrefl |].
  split; [| split; [apply less_trans | apply less_total]].
  intros Hab. destruct (less b a) eqn:Hba; [| reflexivity].
  pose proof (less_trans a b a Hab Hba) as Haa.
  rewrite less_irrefl in Haa. discriminate.
Qed.

(** X7: with no detached tail above the tail, such as with none at all,
    [ForkChoice] keeps the engine as it is and does not turn to
    [SetTailBlock]. *)
Theorem ForkChoice_keeps_best_tail (pod : PoD) :
  (forall v, In v (detachedTailBlocks (chain pod)) ->
             less (tailBlock (chain pod)) v = false) ->
  ForkChoice pod = (pod, None).
Proof.
  intros Hbest. unfold ForkChoice.
  rewrite (bestTail_stays _ _ Hbest), Equals_refl. reflexivity.
Qed.

(** X8: the only block [ForkChoice] ever hands to [SetTailBlock] is a
    detached tail strictly above the current tail, greatest among the
    candidates. *)
Theorem ForkChoice_asks_only_upward (pod : PoD) :
  let tail := tailBlock (chain pod) in
  let best := bestTail tail (detachedTailBlocks (chain pod)) in
  ForkChoice pod = (pod, None)
  \/ (In best (detachedTailBlocks (chain pod))
      /\ less tail best = true
      /\ (forall v, In v (tail :: detachedTailBlocks (chain pod)) ->
                    less best v = false)
      /\ ForkChoice pod
         = (with_chain pod (fst (SetTailBlock (chain pod) best)),
            snd (SetTailBlock (chain pod) best))).
Proof.
  intros tail best. unfold ForkChoice. fold tail best.
  destruct (Equals (Hash best) (Hash tail)) eqn:Hh; [left; reflexivity |].
  right. apply Equals_false in Hh.
  assert (best <> tail) as Hne by congruence.
  split.
  { destruct (bestTail_in (detachedTailBlocks (chain pod)) tail) as [E | Hin];
      [exfalso; apply Hne; symmetry; exact E | exact Hin]. }
  split.
  { destruct (bestTail_above (detachedTailBlocks (chain pod)) tail) as [E | Hlt];
      [exfalso; apply Hne; symmetry; exact E | exact Hlt]. }
  split; [apply bestTail_greatest |].
  destruct (SetTailBlock (chain pod) best); reflexivity.
Qed.

End MoreForkChoice.

Section MoreFinality.
Context {consts : Constants} {neblet : Neblet}.

Lemma walk_outcome pod lib : forall fuel cur miners dynasty pod',
  walk fuel pod lib cur miners dynasty = Some pod' ->
  pod' = pod
  \/ exists b n,
       pod' = setLib pod b n
       /\ Hash b <> Hash lib
       /\ In b (cur :: blocks (chain pod)).
Proof.
  induction fuel as [| fuel IH]; intros cur miners dynasty pod' Hw; [discriminate |].
  cbn [walk] in Hw.
  destruct (Equals (Hash cur) (Hash lib)) eqn:Hh; [injection Hw as <-; auto |].
  destruct (Z.ltb _ _); [injection Hw as <-; auto |].
  destruct (Z.geb _ _).
  - injection Hw as <-. right. eexists _, _. split; [reflexivity |].
    split; [apply Equals_false; exact Hh | left; reflexivity].
  - destruct (GetBlock (chain pod) (ParentHash cur)) as [parent |] eqn:Hg;
      [| injection Hw as <-; auto].
    destruct (CheckGenesisBlock parent); [injection Hw as <-; auto |].
    destruct (IH _ _ _ _ Hw) as [-> | (b & n & -> & Hne & Hin)]; [auto |].
    right. exists b, n. split; [reflexivity |]. split; [exact Hne |].
    right. destruct Hin as [<- | Hin]; [| exact Hin].
    eapply GetBlock_in. exact Hg.
Qed.

Lemma UpdateLIB_outcome fuel pod hashes pod' :
  UpdateLIB fuel pod hashes = Some pod' ->
  exists pod0,
    (pod0 = pod
     \/ (pod0 = did pod (BroadcastWitness hashes)
         /\ enable pod = true
         /\ NodeUpdateAtHeight (Height (tailBlock (chain pod))) = true
         /\ isProposer (Timestamp (tailBlock (chain pod))) (miner pod) = true
         /\ broadcastWitness hashes = None))
    /\ (pod' = pod0
        \/ exists b n,
             pod' = setLib pod0 b n
             /\ Hash b <> Hash (LIB (chain pod))
             /\ In b (tailBlock (chain pod) :: blocks (chain pod))).
Proof.
  unfold UpdateLIB.
  set (pod0 := if enable pod && NodeUpdateAtHeight (Height (tailBlock (chain pod)))
               then _ else pod).
  intros Hw. exists pod0.
  assert (pod0 = pod
          \/ (pod0 = did pod (BroadcastWitness hashes)
              /\ enable pod = true
              /\ NodeUpdateAtHeight (Height (tailBlock (chain pod))) = true
              /\ isProposer (Timestamp (tailBlock (chain pod))) (miner pod) = true
              /\ broadcastWitness hashes = None)) as H0.
  { subst pod0.
    destruct (enable pod) eqn:He; simpl; [| auto].
    destruct (NodeUpdateAtHeight _) eqn:Hn; simpl; [| auto].
    destruct (isProposer _ _) eqn:Hp; [| auto].
    destruct (broadcastWitness hashes) eqn:Hb; auto 10. }
  split; [exact H0 |].
  assert (chain pod0 = chain pod) as Hc
    by (destruct H0 as [-> | [-> _]]; reflexivity).
  apply walk_outcome in Hw. rewrite Hc in Hw. exact Hw.
Qed.

(** X9: [UpdateLIB] touches nothing but the LIB, the reversible cache and
    the outside world: the tail, the detached tails, the block store, the
    slot cache and the mining flags are as before. *)
Theorem UpdateLIB_frame fuel (pod pod' : PoD) hashes :
  UpdateLIB fuel pod hashes = Some pod' ->
  tailBlock (chain pod') = tailBlock (chain pod)
  /\ detachedTailBlocks (chain pod') = detachedTailBlocks (chain pod)
  /\ blocks (chain pod') = blocks (chain pod)
  /\ slot pod' = slot pod
  /\ enable pod' = enable pod
  /\ pending pod' = pending pod
  /\ launchBeat pod' = launchBeat pod
  /\ miner pod' = miner pod.
Proof.
  intros Hu. destruct (UpdateLIB_outcome _ _ _ _ Hu) as (pod0 & H0 & H1).
  assert (forall p b n,
            tailBlock (chain (setLib p b n)) = tailBlock (chain p)
            /\ detachedTailBlocks (chain (setLib p b n)) = detachedTailBlocks (chain p)
            /\ blocks (chain (setLib p b n)) = blocks (chain p)
            /\ slot (setLib p b n) = slot p
            /\ enable (setLib p b n) = enable p
            /\ pending (setLib p b n) = pending p
            /\ launchBeat (setLib p b n) = launchBeat p
            /\ miner (setLib p b n) = miner p) as Hs
    by (intros p b n; unfold setLib; destruct (StoreLIBHashToStorage b);
        simpl; repeat split; reflexivity).
  destruct H1 as [-> | (b & n & -> & _)];
    [| destruct (Hs pod0 b n) as (-> & -> & -> & -> & -> & -> & -> & ->)];
    destruct H0 as [-> | [-> _]]; simpl; repeat split; reflexivity.
Qed.

(** X10: one run of [UpdateLIB] broadcasts at most one witness, and only
    with mining enabled, the node at the activation height and the local
    miner the proposer of the tail's timestamp; after that it moves the
    LIB at most once, and the [TopicLibBlock] event goes out exactly with
    such a move. *)
Theorem UpdateLIB_effects fuel (pod pod' : PoD) hashes :
  UpdateLIB fuel pod hashes = Some pod' ->
  exists witness moved,
    effects pod' = effects pod ++ witness ++ moved
    /\ (witness = []
        \/ (witness = [BroadcastWitness hashes]
            /\ enable pod = true
            /\ NodeUpdateAtHeight (Height (tailBlock (chain pod))) = true
            /\ isProposer (Timestamp (tailBlock (chain pod))) (miner pod) = true))
    /\ ((moved = []
         /\ LIB (chain pod') = LIB (chain pod)
         /\ reversible pod' = reversible pod)
        \/ (moved = [StoredLIBHash (LIB (chain pod'));
                     SetLIBTo (LIB (chain pod'));
                     RemovedReversible (Hex (Hash (LIB (chain pod'))));
                     Triggered {| EventTopic := TopicLibBlock;
                                  EventData := BlockString (LIB (chain pod')) |}]
            /\ StoreLIBHashToStorage (LIB (chain pod')) = None
            /\ reversible pod'
               = LRU.Remove String.eqb (reversible pod)
                   (Hex (Hash (LIB (chain pod')))))).
Proof.
  intros Hu. destruct (UpdateLIB_outcome _ _ _ _ Hu) as (pod0 & H0 & H1).
  assert (exists witness,
            effects pod0 = effects pod ++ witness
            /\ chain pod0 = chain pod /\ reversible pod0 = reversible pod
            /\ (witness = []
                \/ (witness = [BroadcastWitness hashes]
                    /\ enable pod = true
                    /\ NodeUpdateAtHeight (Height (tailBlock (chain pod))) = true
                    /\ isProposer (Timestamp (tailBlock (chain pod))) (miner pod)
                       = true))) as (witness & Ew & Hc & Hr & Hw).
  { destruct H0 as [-> | (-> & He & Hn & Hp & _)].
    - exists []. rewrite app_nil_r. auto.
    - exists [BroadcastWitness hashes]. simpl. auto 10. }
  exists witness.
  destruct H1 as [-> | (b & n & -> & _)].
  - exists []. rewrite app_nil_r, Hc, Hr.
    split; [exact Ew | split; [exact Hw | left; auto]].
  - unfold setLib. destruct (StoreLIBHashToStorage b) eqn:Hs.
    + exists []. rewrite app_nil_r, Hc, Hr.
      split; [exact Ew | split; [exact Hw | left; auto]].
    + eexists. simpl. rewrite Ew, Hr, <- !app_assoc. simpl.
      split; [reflexivity |]. split; [exact Hw |]. right. auto.
Qed.

(** X11: the block [UpdateLIB] makes the LIB is the tail or a block of the
    store, and never one with the hash of the old LIB. *)
Theorem UpdateLIB_finalizes_stored_block fuel (pod pod' : PoD) hashes :
  UpdateLIB fuel pod hashes = Some pod' ->
  LIB (chain pod') = LIB (chain pod)
  \/ (In (LIB (chain pod')) (tailBlock (chain pod) :: blocks (chain pod))
      /\ Hash (LIB (chain pod')) <> Hash (LIB (chain pod))).
Proof.
  intros Hu. destruct (UpdateLIB_outcome _ _ _ _ Hu) as (pod0 & H0 & H1).
  assert (chain pod0 = chain pod) as Hc
    by (destruct H0 as [-> | [-> _]]; reflexivity).
  destruct H1 as [-> | (b & n & -> & Hne & Hin)]; [left; rewrite Hc; reflexivity |].
  destruct (setLib_LIB pod0 b n) as [-> | ->]; [right; auto |].
  left. rewrite Hc. reflexivity.
Qed.

End MoreFinality.

Section MorePrune.
Context {consts : Constants} {neblet : Neblet} (Hwf : wf_constants).

(** X12: while fewer than [ConsensusSize] heights lie between the LIB and
    the tail, [UpdateLIB] returns at once and the LIB stays, whatever the
    block store holds. *)
Theorem UpdateLIB_needs_enough_blocks fuel (pod : PoD) hashes :
  (0 < fuel)%nat ->
  0 <= Height (LIB (chain pod)) <= Int64.max_int ->
  0 <= Height (tailBlock (chain pod)) <= Int64.max_int ->
  Height (tailBlock (chain pod)) - Height (LIB (chain pod)) < ConsensusSize ->
  exists pod',
    UpdateLIB fuel pod hashes = Some pod'
    /\ LIB (chain pod') = LIB (chain pod)
    /\ reversible pod' = reversible pod.
Proof.
  intros Hfuel Hlib Htail Hshort.
  unfold UpdateLIB.
  set (pod0 := if enable pod && NodeUpdateAtHeight (Height (tailBlock (chain pod)))
               then _ else pod).
  assert (chain pod0 = chain pod /\ reversible pod0 = reversible pod) as [Hc Hr].
  { subst pod0. destruct (enable pod && _); [| auto].
    destruct (isProposer _ _); [| auto].
    destruct (broadcastWitness hashes); auto. }
  exists pod0. rewrite Hc. split; [| auto].
  destruct fuel as [| fuel]; [lia |]. cbn [walk].
  destruct (Equals _ _); [reflexivity |].
  assert (len (if negb (Int64.quo (Int64.mul (Timestamp (tailBlock (chain pod)))
                                     SecondInMs) DynastyIntervalInMs =? -1)
               then [] else @nil string) = 0) as Hlen
    by (destruct (negb _); reflexivity).
  pose proof (wf_consensus_pos Hwf) as Hcs.
  rewrite (prune_test Hwf) by (try assumption; rewrite Hlen; lia).
  rewrite Hlen.
  destruct (Z.ltb_spec (Height (tailBlock (chain pod)) - Height (LIB (chain pod)))
              (ConsensusSize - 0)); [reflexivity | lia].
Qed.

End MorePrune.

(** ** More on the cache *)

Lemma find_filter {A} (p q : A -> bool) (l : list A) :
  (forall x, p x = true -> q x = true) ->
  find p (filter q l) = find p l.
Proof.
  intros Hpq. induction l as [| x l IH]; [reflexivity |]. simpl.
  destruct (q x) eqn:Hq; simpl.
  - destruct (p x); [reflexivity | exact IH].
  - destruct (p x) eqn:Hp; [rewrite (Hpq x Hp) in Hq; discriminate | exact IH].
Qed.

(** Looking a key up leaves every key with its value. *)
Lemma lookup_Get {V} (c : @LRU.Cache Z V) (k k' : Z) :
  LRU.lookup Z.eqb (snd (LRU.Get Z.eqb c k)) k' = LRU.lookup Z.eqb c k'.
Proof.
  unfold LRU.Get.
  destruct (LRU.lookup Z.eqb c k) as [v |] eqn:E; [| reflexivity].
  unfold LRU.lookup in *. cbn [snd LRU.items]. simpl find.
  destruct (Z.eqb_spec k k') as [<- | Hne]; [simpl; symmetry; exact E |].
  unfold LRU.without. rewrite find_filter; [reflexivity |].
  intros [k0 v0]. simpl. intros Hk. apply Z.eqb_eq in Hk. subst k0.
  apply negb_true_iff. apply Z.eqb_neq. congruence.
Qed.

Section MoreEngine.
Context {consts : Constants} {neblet : Neblet}.

(** X13: [sendTransaction] is all or nothing: either it submits exactly
    the transaction built from its arguments (the payload of the action
    and the data under the serial of the timestamp, the nonce after the
    miner's, the timestamp set, then the hash, then the signature) and
    the pool takes it, or a step fails and the engine is unchanged.  In
    remote-sign mode the submitted transaction is the prepared one with
    the signature the server gave for its hash, the hash taken once the
    timestamp was set. *)
Theorem sendTransaction_all_or_nothing (pod : PoD) timestamp action data :
  let outcome := sendTransaction pod timestamp action data in
  (exists tx,
      outcome = (did pod (PushedTransaction tx), None)
      /\ sends pod timestamp action data tx
      /\ (enableRemoteSignServer pod = true ->
          exists unsigned sign,
            prepares pod timestamp action data unsigned
            /\ tx_timestamp unsigned = timestamp
            /\ SignHash (remoteSignServer pod) (AddressString (miner pod))
                 (tx_hash unsigned) SECP256K1
               = Ok sign
            /\ tx = SetSignature unsigned SECP256K1 sign))
  \/ ((exists e, outcome = (pod, Some e))
      /\ forall tx, ~ sends pod timestamp action data tx).
Proof.
  intros outcome. subst outcome.
  destruct (sendTransaction_sends pod timestamp action data)
    as [(tx & Hs & E) | (Hno & e & E)].
  - left. exists tx. split; [exact E |]. split; [exact Hs |].
    intros Hremote. destruct Hs as (unsigned & Hprep & Hsign & _).
    unfold signTransaction, remoteSign in Hsign. rewrite Hremote in Hsign.
    destruct (SignHash (remoteSignServer pod) (AddressString (miner pod))
                (tx_hash unsigned) SECP256K1) as [sign | e] eqn:Hsg;
      [| discriminate].
    injection Hsign as <-. exists unsigned, sign.
    split; [exact Hprep |]. split; [| split; [exact Hsg | reflexivity]].
    destruct Hprep as (p & b & n & c & h & _ & _ & _ & _ & _ & ->). reflexivity.
  - right. split; [exists e; exact E | exact Hno].
Qed.

Lemma sendTransaction_keeps_slot pod timestamp action data :
  slot (fst (sendTransaction pod timestamp action data)) = slot pod.
Proof.
  destruct (sendTransaction_outcome pod timestamp action data)
    as [[_ [tx [E _]]] | [_ E]]; rewrite E; reflexivity.
Qed.

Lemma reportEvil_keeps_slot pod preBlock block :
  slot (reportEvil pod preBlock block) = slot pod.
Proof.
  unfold reportEvil.
  destruct (negb (enable pod) || _); [reflexivity |].
  destruct (isProposer _ _); [apply sendTransaction_keeps_slot | reflexivity].
Qed.

(** X14: [CheckDoubleMint] leaves every timestamp of the slot cache with
    the block it had: the block seen first stays the one later blocks
    are compared with. *)
Theorem CheckDoubleMint_keeps_first_block (pod : PoD) (block : Block) (k : Z) :
  LRU.lookup Z.eqb (slot (snd (CheckDoubleMint pod block))) k
  = LRU.lookup Z.eqb (slot pod) k.
Proof.
  unfold CheckDoubleMint.
  pose proof (lookup_Get (slot pod) (Timestamp block) k) as Hget.
  destruct (LRU.Get Z.eqb (slot pod) (Timestamp block)) as [[preBlock |] touched] eqn:E;
    [| reflexivity].
  simpl in Hget.
  destruct (negb (Equals (Hash preBlock) (Hash block))); simpl;
    [rewrite reportEvil_keeps_slot |]; exact Hget.
Qed.

(** Acceptance by [VerifyBlock], on the [int64] product it computes. *)
Lemma VerifyBlock_accepts_on_int64 (pod : PoD) (block : Block) :
  snd (VerifyBlock pod block) = None
  <-> (Timestamp block = RootTimestamp (Root block)
       /\ 0 < Int64.mul (Timestamp block) SecondInMs
       /\ Int64.rem (Int64.mul (Timestamp block) SecondInMs) BlockIntervalInMs = 0
       /\ (exists cs miners proposer miner,
             getDynasty (Timestamp block) = Ok cs
             /\ TraverseDynasty cs = Ok miners
             /\ FindProposer (Timestamp block) miners = Ok proposer
             /\ AddressParseFromBytes proposer = Ok miner
             /\ RecoverSignerFromSignature (Alg block) (Hash block) (Signature block)
                = Ok miner)
       /\ (RandomAvailableAtHeight (Height block) = true ->
           HasRandomSeed block = true)).
Proof.
  unfold VerifyBlock, verifyBlockSign. split.
  - destruct (Z.eqb_spec (Timestamp block) (RootTimestamp (Root block)));
      simpl; [| discriminate].
    destruct (Z.leb_spec (Int64.mul (Timestamp block) SecondInMs) 0);
      simpl; [discriminate |].
    destruct (Z.eqb_spec (Int64.rem (Int64.mul (Timestamp block) SecondInMs)
                            BlockIntervalInMs) 0); simpl; [| discriminate].
    destruct (getDynasty _) as [cs | ?] eqn:Hcs; [| discriminate].
    destruct (TraverseDynasty cs) as [miners | ?] eqn:Hminers; [| discriminate].
    destruct (FindProposer _ miners) as [proposer | ?] eqn:Hproposer;
      [| discriminate].
    destruct (AddressParseFromBytes proposer) as [miner | ?] eqn:Hminer;
      [| discriminate].
    destruct (RecoverSignerFromSignature _ _ _) as [signer | ?] eqn:Hsigner;
      [| discriminate].
    destruct (Equals miner signer) eqn:Hs; simpl; [| discriminate].
    apply Equals_true in Hs. subst signer.
    destruct (RandomAvailableAtHeight _); destruct (HasRandomSeed block);
      simpl; try discriminate; intros _;
      (split; [assumption |]); (split; [lia |]); (split; [assumption |]);
      (split; [exists cs, miners, proposer, miner; auto |]);
      intros Hr; (reflexivity || discriminate).
  - intros (Hts & Hpos & Hrem & (cs & miners & proposer & miner
                                  & Hcs & Hminers & Hproposer & Hminer & Hsigner)
            & Hrand).
    rewrite Hcs, Hminers, Hproposer, Hminer, Hsigner.
    apply Z.eqb_eq in Hts. rewrite Hts. simpl.
    destruct (Z.leb_spec (Int64.mul (Timestamp block) SecondInMs) 0); [lia |].
    rewrite Hrem. simpl. rewrite Equals_refl. simpl.
    destruct (RandomAvailableAtHeight _); [rewrite Hrand by reflexivity |];
      reflexivity.
Qed.

(** X15: for a block whose timestamp in milliseconds fits an [int64],
    [VerifyBlock] accepts it exactly when its timestamp is that of its
    consensus root, positive and on a slot, its signer is the proposer
    the dynasty schedules for that timestamp, and it carries a random
    seed where one is required. *)
Theorem VerifyBlock_accepts_exactly (pod : PoD) (block : Block) :
  Int64.in_range (Timestamp block * SecondInMs) ->
  (snd (VerifyBlock pod block) = None
   <-> (Timestamp block = RootTimestamp (Root block)
        /\ 0 < Timestamp block * SecondInMs
        /\ (BlockIntervalInMs | Timestamp block * SecondInMs)
        /\ (exists cs miners proposer miner,
              getDynasty (Timestamp block) = Ok cs
              /\ TraverseDynasty cs = Ok miners
              /\ FindProposer (Timestamp block) miners = Ok proposer
              /\ AddressParseFromBytes proposer = Ok miner
              /\ RecoverSignerFromSignature (Alg block) (Hash block)
                   (Signature block)
                 = Ok miner)
        /\ (RandomAvailableAtHeight (Height block) = true ->
            HasRandomSeed block = true))).
Proof.
  intros Hfits.
  rewrite (VerifyBlock_accepts_on_int64 pod block).
  unfold Int64.mul, Int64.rem. rewrite (wrap64_id _ Hfits).
  rewrite rem_zero_divide. reflexivity.
Qed.

Lemma CheckDoubleMint_answer pod block :
  fst (CheckDoubleMint pod block)
  = match LRU.lookup Z.eqb (slot pod) (Timestamp block) with
    | Some preBlock => negb (Equals (Hash preBlock) (Hash block))
    | None => false
    end.
Proof.
  unfold CheckDoubleMint, LRU.Get.
  destruct (LRU.lookup Z.eqb (slot pod) (Timestamp block)) as [preBlock |];
    [| reflexivity].
  destruct (negb (Equals (Hash preBlock) (Hash block))); reflexivity.
Qed.

(** X16: once [VerifyBlock] has accepted a block, [CheckDoubleMint] lets
    that block pass and flags every block of another hash at the same
    timestamp. *)
Theorem VerifyBlock_then_CheckDoubleMint (pod : PoD) (block other : Block) :
  (0 < LRU.size (slot pod))%nat ->
  snd (VerifyBlock pod block) = None ->
  let pod' := fst (VerifyBlock pod block) in
  fst (CheckDoubleMint pod' block) = false
  /\ (Timestamp other = Timestamp block ->
      Hash other <> Hash block ->
      fst (CheckDoubleMint pod' other) = true).
Proof.
  intros Hsize Hok pod'.
  assert (LRU.lookup Z.eqb (slot pod') (Timestamp block) = Some block) as Hfound.
  { subst pod'.
    destruct (VerifyBlock_outcome pod block) as [[_ ->] | [[e He] _]];
      [| congruence].
    apply lookup_Add; [apply Z.eqb_refl | exact Hsize]. }
  rewrite !CheckDoubleMint_answer. split.
  - rewrite Hfound, Equals_refl. reflexivity.
  - intros Hts Hne. rewrite Hts, Hfound.
    apply negb_true_iff, Equals_false. congruence.
Qed.

(** X17: [heartbeat] lets a transaction out only with mining enabled, the
    node at the activation height, on the first beat or in the middle of
    a dynasty, and the miner among the participants; it is one
    transaction, and [heartbeat] then reports no error. *)
Theorem heartbeat_sends_only_when (pod : PoD) (now : Z) :
  effects (fst (heartbeat pod now)) <> effects pod ->
  enable pod = true
  /\ NodeUpdateAtHeight (Height (tailBlock (chain pod))) = true
  /\ (launchBeat pod = false \/ offMidpoint now = false)
  /\ (exists participants,
        getParticipants = Ok participants
        /\ In (AddressString (miner pod)) participants)
  /\ snd (heartbeat pod now) = None
  /\ exists tx, effects (fst (heartbeat pod now)) = effects pod ++ [PushedTransaction tx].
Proof.
  unfold heartbeat.
  destruct (enable pod); simpl; [| intros Hc; contradiction Hc; reflexivity].
  destruct (NodeUpdateAtHeight _); simpl; [| intros Hc; contradiction Hc; reflexivity].
  assert (launchBeat pod && offMidpoint now = false ->
          launchBeat pod = false \/ offMidpoint now = false) as Hgate
    by (destruct (launchBeat pod); simpl; auto).
  destruct (launchBeat pod && offMidpoint now);
    [intros Hc; contradiction Hc; reflexivity |].
  specialize (Hgate eq_refl).
  destruct getParticipants as [participants | e]; simpl;
    [| intros Hc; contradiction Hc; reflexivity].
  destruct (existsb _ participants) eqn:Hex; simpl;
    [| intros Hc; contradiction Hc; reflexivity].
  pose proof (sendTransaction_outcome (with_launchBeat pod true) now PoDHeartbeat [])
    as Hout.
  destruct (sendTransaction (with_launchBeat pod true) now PoDHeartbeat [])
    as [sent err]. simpl in *.
  destruct Hout as [[-> [tx [-> _]]] | [_ ->]];
    [| intros Hc; contradiction Hc; reflexivity].
  intros _. simpl.
  split; [reflexivity |]. split; [reflexivity |]. split; [exact Hgate |].
  split; [| split; [reflexivity | exists tx; reflexivity]].
  exists participants. split; [reflexivity |].
  apply existsb_exists in Hex. destruct Hex as (p & Hp & Heq).
  apply String.eqb_eq in Heq. subst p. exact Hp.
Qed.

End MoreEngine.

Section DynastyFacts.
Context {consts : Constants} {neblet : Neblet} (Hwf : wf_constants).

Lemma filter_none {A} (p : A -> bool) (l : list A) :
  (forall x, In x l -> p x = false) -> filter p l = [].
Proof.
  induction l as [| x l IH]; intros Hnone; [reflexivity |]. simpl.
  rewrite (Hnone x (or_introl eq_refl)). apply IH.
  intros y Hy. apply Hnone. right. exact Hy.
Qed.

Lemma run_is_dynasty s : forall walked,
  StronglySorted (fun a b => serial (Timestamp a) <= serial (Timestamp b)) walked ->
  Forall (fun w => s <= serial (Timestamp w)) walked ->
  sameDynastyRun s walked = dynastyProposers s walked.
Proof.
  unfold dynastyProposers.
  induction walked as [| b earlier IH]; intros Hsorted Hbelow; [reflexivity |].
  apply StronglySorted_inv in Hsorted as [Hsorted Hb].
  inversion Hbelow as [| ? ? Hsb Hrest]; subst. simpl.
  destruct (Z.eqb_spec (serial (Timestamp b)) s) as [E | E]; simpl.
  - f_equal. apply IH; assumption.
  - rewrite filter_none; [reflexivity |].
    rewrite Forall_forall in Hb. intros w Hw. specialize (Hb w Hw).
    apply Z.eqb_neq. lia.
Qed.

Lemma quorum_by_dynasty : forall path walked,
  StronglySorted (fun a b => serial (Timestamp b) <= serial (Timestamp a)) path ->
  StronglySorted (fun a b => serial (Timestamp a) <= serial (Timestamp b)) walked ->
  (forall p w, In p path -> In w walked ->
               serial (Timestamp p) <= serial (Timestamp w)) ->
  firstQuorum walked path = firstDynastyQuorum walked path.
Proof.
  induction path as [| b rest IH]; intros walked Hpath Hwalked Hcross;
    [reflexivity |].
  apply StronglySorted_inv in Hpath as [Hrest Hb].
  cbn [firstQuorum firstDynastyQuorum]. unfold proposersAt.
  rewrite run_is_dynasty;
    [| exact Hwalked
     | apply Forall_forall; intros w Hw; apply Hcross; [left; reflexivity | exact Hw]].
  destruct (Z.leb _ _); [reflexivity |].
  apply IH; [exact Hrest | |].
  - constructor; [exact Hwalked |].
    apply Forall_forall. intros w Hw. apply Hcross; [left; reflexivity | exact Hw].
  - intros p w Hp [<- | Hw].
    + rewrite Forall_forall in Hb. apply Hb. exact Hp.
    + apply Hcross; [right; exact Hp | exact Hw].
Qed.

Lemma serial_sorted path :
  Forall plain_timestamp path ->
  StronglySorted (fun a b => Timestamp b <= Timestamp a) path ->
  StronglySorted (fun a b => serial (Timestamp b) <= serial (Timestamp a)) path.
Proof.
  intros Hplain Hsorted.
  induction Hsorted as [| a l Hl IH Ha]; [constructor |].
  inversion Hplain as [| ? ? [Ha0 Ha1] Hrest]; subst.
  constructor; [apply IH; exact Hrest |].
  rewrite Forall_forall in *. intros b Hb.
  destruct (Hrest b Hb) as [Hb0 Hb1].
  apply (serial_mono Hwf); [exact Hb0 | apply Ha; exact Hb | exact Ha1].
Qed.

(** X18: on a chain whose timestamps do not grow toward the LIB, the block
    [UpdateLIB] finalizes is the first walked block at which the walked
    blocks of its dynasty, itself included, have [ConsensusSize] distinct
    proposers. *)
Theorem UpdateLIB_counts_by_dynasty (pod : PoD) (hashes : list Bytes)
        (path : list Block) (fuel : nat) :
  let lib := LIB (chain pod) in
  let tail := tailBlock (chain pod) in
  0 <= Height lib ->
  Height tail <= Int64.max_int ->
  ancestry (chain pod) lib tail path ->
  Forall plain_timestamp path ->
  StronglySorted (fun a b => Timestamp b <= Timestamp a) path ->
  (List.length path < fuel)%nat ->
  exists pod',
    UpdateLIB fuel pod hashes = Some pod'
    /\ match firstDynastyQuorum [] path with
       | Some b =>
           (StoreLIBHashToStorage b = None -> LIB (chain pod') = b)
           /\ (StoreLIBHashToStorage b <> None -> LIB (chain pod') = lib)
       | None => LIB (chain pod') = lib
       end.
Proof.
  intros lib tail Hlib Htail Hanc Hplain Hsorted Hfuel.
  rewrite <- (quorum_by_dynasty path []);
    [| apply serial_sorted; assumption | constructor | intros p w _ []].
  unfold UpdateLIB.
  set (pod0 := if enable pod && NodeUpdateAtHeight (Height (tailBlock (chain pod)))
               then _ else pod).
  assert (chain pod0 = chain pod) as Hc.
  { subst pod0. destruct (enable pod && _); [| reflexivity].
    destruct (isProposer _ _); [| reflexivity].
    destruct (broadcastWitness hashes); reflexivity. }
  rewrite Hc. fold lib tail.
  pose proof (walk_finds_quorum Hwf pod0) as Hq. simpl in Hq. rewrite Hc in Hq.
  fold lib in Hq.
  rewrite (Hq Hlib tail path Hanc [] [] (-1) fuel);
    [| split; [apply tracks_nil | left; reflexivity]
     | pose proof (wf_consensus_pos Hwf); unfold len; simpl; lia
     | exact Htail | exact Hfuel].
  eexists. split; [reflexivity |].
  destruct (firstQuorum [] path) as [b |]; simpl; [| rewrite Hc; reflexivity].
  unfold setLib. destruct (StoreLIBHashToStorage b); simpl.
  - split; [discriminate | intros _; rewrite Hc; reflexivity].
  - split; [reflexivity | congruence].
Qed.

End DynastyFacts.

Section DynastySizeFacts.
Context {consts : Constants} {neblet : Neblet} (Hwf : wf_constants).

Lemma VerifyBlock_interval pod block :
  snd (VerifyBlock pod block) = None ->
  0 < Int64.mul (Timestamp block) SecondInMs
  /\ Int64.rem (Int64.mul (Timestamp block) SecondInMs) BlockIntervalInMs = 0.
Proof.
  unfold VerifyBlock.
  destruct (negb (Timestamp block =? RootTimestamp (Root block)));
    [intros Hc; discriminate Hc |].
  cbv zeta.
  destruct (Z.leb_spec (Int64.mul (Timestamp block) SecondInMs) 0) as [Hle | Hlt];
    [intros Hc; discriminate Hc |].
  destruct (Z.eqb_spec (Int64.rem (Int64.mul (Timestamp block) SecondInMs)
                                  BlockIntervalInMs) 0) as [Hz | Hnz];
    [| intros Hc; discriminate Hc].
  intros _. split; [lia | exact Hz].
Qed.

Lemma NumberOfBlocksInDynasty_exact :
  NumberOfBlocksInDynasty = DynastyIntervalInMs / BlockIntervalInMs.
Proof.
  pose proof (block_interval_bounds Hwf) as Hb.
  pose proof (wf_dynasty_pos Hwf) as Hd.
  pose proof (wf_dynasty_range Hwf) as Hdr.
  unfold NumberOfBlocksInDynasty, to_uint64.
  rewrite !Z.mod_small
    by (unfold SecondInMs, Int64.max_int in *; lia).
  reflexivity.
Qed.

(** X19: a dynasty has room for [NumberOfBlocksInDynasty] blocks: blocks
    that [VerifyBlock] accepts, of one dynasty serial and of different
    timestamps, are at most that many, when the dynasty interval is a
    whole number of block intervals. *)
Theorem dynasty_has_room (blocks : list Block) (k : Z) :
  (BlockIntervalInMs | DynastyIntervalInMs) ->
  NoDup (map Timestamp blocks) ->
  (forall b, In b blocks ->
             plain_timestamp b
             /\ serial (Timestamp b) = k
             /\ exists pod, snd (VerifyBlock pod b) = None) ->
  Z.of_nat (List.length blocks) <= NumberOfBlocksInDynasty.
Proof.
  intros [n Hn] Hnd Hall.
  pose proof (block_interval_bounds Hwf) as Hb.
  pose proof (wf_dynasty_pos Hwf) as Hd.
  assert (0 < BlockIntervalInMs) as Hbpos by (unfold SecondInMs in *; lia).
  assert (NumberOfBlocksInDynasty = n) as EN.
  { rewrite NumberOfBlocksInDynasty_exact, Hn. apply Z.div_mul. lia. }
  assert (0 < n) as Hnpos by nia.
  rewrite EN.
  set (place := fun ts : Z =>
                  Z.to_nat (ts * SecondInMs / BlockIntervalInMs - k * n)).
  assert (forall b, In b blocks ->
            exists j, Timestamp b * SecondInMs = j * BlockIntervalInMs
                      /\ k * n <= j < (k + 1) * n) as Hslot.
  { intros b Hin. destruct (Hall b Hin) as ([Hlo Hhi] & Hser & pod & Hok).
    apply VerifyBlock_interval in Hok. destruct Hok as [Hpos Hrem].
    assert (Int64.mul (Timestamp b) SecondInMs = Timestamp b * SecondInMs) as Em.
    { unfold Int64.mul. apply wrap64_id.
      unfold SecondInMs, Int64.in_range, Int64.min_int, Int64.max_int in *. lia. }
    rewrite Em in Hpos, Hrem. unfold Int64.rem in Hrem.
    rewrite Z.rem_mod_nonneg in Hrem by lia.
    apply Z.mod_divide in Hrem; [| lia]. destruct Hrem as [j Hj].
    exists j. split; [exact Hj |].
    rewrite (serial_exact Hwf _ Hlo Hhi) in Hser.
    assert (DynastyIntervalInMs <> 0) as Hnz by lia.
    pose proof (Z.div_mod (Timestamp b * SecondInMs) DynastyIntervalInMs Hnz) as Hdm.
    pose proof (Z.mod_pos_bound (Timestamp b * SecondInMs) DynastyIntervalInMs Hd)
      as Hm.
    rewrite Hser in Hdm. nia. }
  assert (forall b, In b blocks ->
            Timestamp b * SecondInMs / BlockIntervalInMs * BlockIntervalInMs
            = Timestamp b * SecondInMs
            /\ k * n <= Timestamp b * SecondInMs / BlockIntervalInMs < (k + 1) * n)
    as Hplace.
  { intros b Hin. destruct (Hslot b Hin) as (j & Hj & Hr).
    rewrite Hj, Z.div_mul by lia. split; [reflexivity | exact Hr]. }
  assert (NoDup (map place (map Timestamp blocks))) as Hnd'.
  { apply Injective_map_NoDup_in; [| exact Hnd].
    intros x y Hx Hy Hxy.
    apply in_map_iff in Hx. destruct Hx as (bx & <- & Hbx).
    apply in_map_iff in Hy. destruct Hy as (by' & <- & Hby).
    destruct (Hplace bx Hbx) as [Ex Rx]. destruct (Hplace by' Hby) as [Ey Ry].
    unfold place in Hxy. apply Z2Nat.inj in Hxy; [| lia | lia].
    unfold SecondInMs in *. nia. }
  assert (incl (map place (map Timestamp blocks)) (seq 0 (Z.to_nat n))) as Hincl.
  { intros p Hp. apply in_map_iff in Hp. destruct Hp as (ts & <- & Hts).
    apply in_map_iff in Hts. destruct Hts as (b & <- & Hin).
    destruct (Hplace b Hin) as [_ Rb].
    apply in_seq. unfold place. lia. }
  pose proof (NoDup_incl_length Hnd' Hincl) as Hlen.
  rewrite !length_map, length_seq in Hlen. lia.
Qed.

End DynastySizeFacts.

Section GateFacts.
Context {consts : Constants} {neblet : Neblet} {workshop : Workshop}.

Lemma obey_frame pod c :
  let pod' := obey pod c in
  chain pod' = chain pod /\ miner pod' = miner pod
  /\ enableRemoteSignServer pod' = enableRemoteSignServer pod
  /\ slot pod' = slot pod /\ reversible pod' = reversible pod
  /\ launchBeat pod' = launchBeat pod /\ effects pod' = effects pod.
Proof.
  destruct c; simpl; unfold EnableMining, DisableMining;
    try destruct (unlock pod passphrase); try destruct (Lock (miner pod));
    simpl; repeat split; reflexivity.
Qed.

Lemma obey_unlock pod c passphrase :
  unlock (obey pod c) passphrase = unlock pod passphrase.
Proof.
  destruct (obey_frame pod c) as (_ & Hm & Hr & _).
  unfold unlock. rewrite Hm, Hr. reflexivity.
Qed.

Lemma obeyed_frame cmds : forall pod,
  let pod' := fold_left obey cmds pod in
  chain pod' = chain pod /\ slot pod' = slot pod /\ reversible pod' = reversible pod
  /\ launchBeat pod' = launchBeat pod /\ effects pod' = effects pod
  /\ forall passphrase, unlock pod' passphrase = unlock pod passphrase.
Proof.
  induction cmds as [| c cmds IH]; intros pod; simpl; [repeat split; reflexivity |].
  destruct (IH (obey pod c)) as (-> & -> & -> & -> & -> & Hu).
  destruct (obey_frame pod c) as (-> & _ & _ & -> & -> & -> & ->).
  repeat split; try reflexivity.
  intros passphrase. rewrite Hu. apply obey_unlock.
Qed.

Lemma stays_pending cmds : forall pod,
  pending pod = true -> ~ In DoResumeMining cmds ->
  pending (fold_left obey cmds pod) = true.
Proof.
  induction cmds as [| c cmds IH]; intros pod Hp Hno; [exact Hp |].
  simpl. apply IH; [| intros Hin; apply Hno; right; exact Hin].
  destruct c; unfold obey, EnableMining, DisableMining, SuspendMining, ResumeMining.
  - destruct (unlock pod passphrase); exact Hp.
  - destruct (Lock (miner pod)); exact Hp.
  - reflexivity.
  - contradiction Hno. left. reflexivity.
Qed.

Lemma stays_disabled cmds : forall pod,
  enable pod = false ->
  (forall passphrase, In (DoEnableMining passphrase) cmds ->
                      unlock pod passphrase <> None) ->
  enable (fold_left obey cmds pod) = false.
Proof.
  induction cmds as [| c cmds IH]; intros pod He Hno; [exact He |].
  simpl. apply IH.
  - destruct c; unfold obey, EnableMining, DisableMining, SuspendMining, ResumeMining.
    + destruct (unlock pod passphrase) eqn:Hu; [exact He |].
      contradiction (Hno passphrase (or_introl eq_refl)).
    + destruct (Lock (miner pod)); [exact He | reflexivity].
    + exact He.
    + exact He.
  - intros passphrase Hin. rewrite obey_unlock. apply Hno. right. exact Hin.
Qed.

Lemma mintBlock_gates pod reg now clock :
  (enable pod = false ->
   mintBlock pod reg now clock
   = {| engine := pod; registry := reg;
        failure := Some ErrCannotMintWhenDisable; steps := [] |})
  /\ (enable pod = true -> pending pod = true ->
      mintBlock pod reg now clock
      = {| engine := pod; registry := reg;
           failure := Some ErrCannotMintWhenPending; steps := [] |}).
Proof.
  unfold mintBlock. split; [intros -> | intros -> ->]; reflexivity.
Qed.

(** X20: an engine that starts pending and disabled, as [NewPoD] makes it,
    does not get past the gates of [mintBlock] before both a
    [ResumeMining] and an [EnableMining] whose unlock succeeded; and the
    gate commands touch nothing but the two flags. *)
Theorem mining_waits_for_enable_and_resume (pod : PoD) (cmds : list Command)
        (reg : Registry) (now clock : Z) :
  enable pod = false ->
  pending pod = true ->
  let pod' := fold_left obey cmds pod in
  (chain pod' = chain pod /\ slot pod' = slot pod
   /\ reversible pod' = reversible pod /\ launchBeat pod' = launchBeat pod
   /\ effects pod' = effects pod)
  /\ (~ In DoResumeMining cmds
      \/ (forall passphrase, In (DoEnableMining passphrase) cmds ->
                             unlock pod passphrase <> None) ->
      engine (mintBlock pod' reg now clock) = pod'
      /\ steps (mintBlock pod' reg now clock) = []
      /\ (failure (mintBlock pod' reg now clock) = Some ErrCannotMintWhenDisable
          \/ failure (mintBlock pod' reg now clock) = Some ErrCannotMintWhenPending)).
Proof.
  intros He Hp pod'.
  destruct (obeyed_frame cmds pod) as (Hc & Hs & Hr & Hl & Hf & _).
  split; [auto |].
  assert (Hp' : ~ In DoResumeMining cmds -> pending pod' = true)
    by (apply stays_pending; exact Hp).
  assert (He' : (forall passphrase, In (DoEnableMining passphrase) cmds ->
                                    unlock pod passphrase <> None) ->
                enable pod' = false)
    by (apply stays_disabled; exact He).
  intros Hearly. clearbody pod'.
  destruct (mintBlock_gates pod' reg now clock) as [Hoff Hpend].
  destruct (enable pod') eqn:Hen; [| rewrite (Hoff eq_refl); auto].
  destruct (pending pod') eqn:Hpe; [rewrite (Hpend eq_refl eq_refl); auto |].
  exfalso. destruct Hearly as [Hno | Hno].
  - specialize (Hp' Hno). congruence.
  - specialize (He' Hno). congruence.
Qed.

End GateFacts.

Section ProducerFacts.
Context {consts : Constants} {neblet : Neblet} {workshop : Workshop}.

Lemma checkProposer_names_miner pod tail nowInMs cs :
  checkProposer pod tail nowInMs = Ok cs -> StateProposer cs = Some (miner pod).
Proof.
  unfold checkProposer.
  destruct (NextConsensusState tail _) as [cs0 | e]; [| discriminate].
  destruct (StateProposer cs0) as [p |] eqn:Hp; [| discriminate].
  destruct (Equals p (miner pod)) eqn:Heq; [| discriminate].
  intros [= <-]. apply Equals_true in Heq. subst p. exact Hp.
Qed.

(** X21: [checkProposer] answers with a consensus state only when the
    world state gave one whose proposer is the local miner; an error of
    the world state always comes out as [ErrGenerateNextConsensusState],
    a nil or foreign proposer as [ErrInvalidBlockProposer]. *)
Theorem checkProposer_accepts_only_own_slot (pod : PoD) (tail : Block) (nowInMs : Z) :
  let elapsed :=
    Int64.quo (Int64.sub (nextSlot nowInMs) (Int64.mul (Timestamp tail) SecondInMs))
              SecondInMs in
  (forall cs, checkProposer pod tail nowInMs = Ok cs
              <-> NextConsensusState tail elapsed = Ok cs
                  /\ StateProposer cs = Some (miner pod))
  /\ (forall e, NextConsensusState tail elapsed = Err e ->
                checkProposer pod tail nowInMs = Err ErrGenerateNextConsensusState)
  /\ (forall cs, NextConsensusState tail elapsed = Ok cs ->
                 StateProposer cs <> Some (miner pod) ->
                 checkProposer pod tail nowInMs = Err ErrInvalidBlockProposer).
Proof.
  intros elapsed. unfold checkProposer. fold elapsed.
  destruct (NextConsensusState tail elapsed) as [cs0 | e0].
  - destruct (StateProposer cs0) as [p |] eqn:Hp.
    + destruct (Equals p (miner pod)) eqn:Heq; simpl.
      * apply Equals_true in Heq. subst p.
        split; [| split]; [| discriminate |].
        -- intros cs. split; [intros [= <-]; auto | intros [[= <-] _]; reflexivity].
        -- intros cs [= <-] Hne. exfalso. exact (Hne Hp).
      * apply Equals_false in Heq.
        split; [| split]; [| discriminate | reflexivity].
        intros cs. split; [discriminate | intros [[= <-] Hs]; exfalso; apply Heq; congruence].
    + split; [| split]; [| discriminate | reflexivity].
      intros cs. split; [discriminate | intros [[= <-] Hs]; congruence].
  - split; [| split]; [| reflexivity | discriminate].
    intros cs. split; [discriminate | intros [Hc _]; discriminate].
Qed.

(** X22: [triggerState] sends a [PoDState] transaction only with mining
    enabled, the node at the activation height and the next dynasty
    unknown even after loading it from the contract; it sends at most
    one; and when the next dynasty is known it loads and sends nothing. *)
Theorem triggerState_sends_only_when_unknown (pod : PoD) (reg : Registry) (now : Z) :
  let next := Int64.add (serial now) 1 in
  let pod' := fst (fst (triggerState pod reg now)) in
  let reg' := snd (fst (triggerState pod reg now)) in
  (knows reg next = true -> triggerState pod reg now = (pod, reg, None))
  /\ (effects pod' = effects pod
      \/ exists tx, effects pod' = effects pod ++ [PushedTransaction tx])
  /\ (effects pod' <> effects pod ->
      enable pod = true
      /\ NodeUpdateAtHeight (Height (tailBlock (chain pod))) = true
      /\ knows reg next = false
      /\ loadFromContract reg (serial now) = (reg', None)
      /\ knows reg' next = false
      /\ snd (triggerState pod reg now) = None).
Proof.
  intros next pod' reg'. subst pod' reg'. unfold triggerState. fold next.
  destruct (enable pod); simpl;
    [| split; [reflexivity | split; [left; reflexivity | intros Hc; contradiction Hc; reflexivity]]].
  destruct (NodeUpdateAtHeight _); simpl;
    [| split; [reflexivity | split; [left; reflexivity | intros Hc; contradiction Hc; reflexivity]]].
  destruct (knows reg next) eqn:Hk; simpl.
  { rewrite Hk. simpl.
    split; [reflexivity | split; [left; reflexivity | intros Hc; contradiction Hc; reflexivity]]. }
  split; [discriminate |].
  destruct (loadFromContract reg (serial now)) as [reg1 [e |]] eqn:Hload; simpl;
    [split; [left; reflexivity | intros Hc; contradiction Hc; reflexivity] |].
  destruct (knows reg1 next) eqn:Hk1; simpl;
    [split; [left; reflexivity | intros Hc; contradiction Hc; reflexivity] |].
  destruct (StatisticalLastBlocks _ _) as [states | e]; simpl;
    [| split; [left; reflexivity | intros Hc; contradiction Hc; reflexivity]].
  destruct (MarshalStatistics states) as [bytes | e]; simpl;
    [| split; [left; reflexivity | intros Hc; contradiction Hc; reflexivity]].
  pose proof (sendTransaction_outcome pod now PoDState bytes) as Hout.
  destruct (sendTransaction pod now PoDState bytes) as [sent err]. simpl in *.
  destruct Hout as [[-> [tx [-> _]]] | [_ ->]]; simpl.
  - split; [right; eauto |]. intros _. auto 10.
  - split; [left; reflexivity | intros Hc; contradiction Hc; reflexivity].
Qed.

Lemma newBlock_steps pod tail cs deadlineInMs :
  let built := newBlock pod tail cs deadlineInMs in
  (exists block, fst built = Ok block
                 /\ exists packed, snd built = [Collected packed deadlineInMs])
  \/ (exists e, fst built = Err e /\ snd built = [])
  \/ (exists e packed returned,
        fst built = Err e
        /\ snd built = [Collected packed deadlineInMs; ReturnedTransactions returned]).
Proof.
  unfold newBlock.
  destruct (NewBlock _ _ _) as [block | e]; [| right; left; simpl; eauto].
  destruct (if RandomAvailableAtHeight (Height block) then _ else _)
    as [seeded | e]; [| right; left; simpl; eauto].
  destruct (Seal _) as [sealed | e]; [| right; right; simpl; eauto 10].
  destruct (signBlock pod sealed) as [signed | e]; [| right; right; simpl; eauto 10].
  left. simpl. eauto.
Qed.

Lemma pushAndBroadcast_tail pod tail block :
  snd (pushAndBroadcast pod tail block) = None ->
  Hash (tailBlock (chain (fst (pushAndBroadcast pod tail block)))) = Hash block
  /\ BlockPoolPushAndBroadcast pod block
     = (fst (pushAndBroadcast pod tail block), None).
Proof.
  unfold pushAndBroadcast.
  destruct (BlockPoolPushAndBroadcast pod block) as [pod' [e |]]; simpl;
    [discriminate |].
  destruct (Equals _ _) eqn:Heq; simpl; [| discriminate].
  intros _. apply Equals_true in Heq. auto.
Qed.

(** X23: the checks of [mintBlock] come before everything it does: when
    the engine is disabled or pending, the deadline check fails or it is
    not the local miner's turn, the engine and the registry are as
    before, no state is triggered and no block is packed. *)
Theorem mintBlock_checks_first (pod : PoD) (reg : Registry) (now clock : Z) :
  let nowInMs := Int64.mul now SecondInMs in
  let tail := tailBlock (chain pod) in
  let refused e :=
    mintBlock pod reg now clock
    = {| engine := pod; registry := reg; failure := Some e; steps := [] |} in
  (enable pod = false -> refused ErrCannotMintWhenDisable)
  /\ (enable pod = true -> pending pod = true -> refused ErrCannotMintWhenPending)
  /\ (forall e, enable pod = true -> pending pod = false ->
                checkDeadline tail nowInMs = Err e -> refused e)
  /\ (forall d e, enable pod = true -> pending pod = false ->
                  checkDeadline tail nowInMs = Ok d ->
                  checkProposer pod tail nowInMs = Err e -> refused e).
Proof.
  intros nowInMs tail refused. subst refused. unfold mintBlock.
  fold nowInMs tail.
  split; [intros ->; reflexivity |].
  split; [intros -> ->; reflexivity |].
  split; [intros e -> -> ->; reflexivity |].
  intros d e -> -> -> ->. reflexivity.
Qed.

Lemma waited_no_return (late : bool) (ms : Z) (b : Block) :
  ~ In (ReturnedTransactions b) (if late then [Waited ms] else []).
Proof.
  destruct late; [intros [Hb | []]; discriminate | intros []].
Qed.

Ltac tidy := cbn [negb engine registry failure steps fst snd In app] in *.

Ltac quiet :=
  split; [intros [b Hb]; destruct Hb | intros [_ (b & d' & Hb)]; destruct Hb].

(** X24: when [mintBlock] reports no error, mining was enabled and not
    pending, the deadline check passed, the consensus state of the next
    slot names the local miner, the transactions were collected once,
    with the deadline of the check, the engine waited for the slot when
    the block was packed before it, and the tail of the chain now has
    the hash of the block that was packed. *)
Theorem mintBlock_success (pod : PoD) (reg : Registry) (now clock : Z) :
  let nowInMs := Int64.mul now SecondInMs in
  let tail := tailBlock (chain pod) in
  let minted := mintBlock pod reg now clock in
  failure minted = None ->
  enable pod = true /\ pending pod = false
  /\ exists d cs block packed,
       checkDeadline tail nowInMs = Ok d
       /\ checkProposer pod tail nowInMs = Ok cs
       /\ StateProposer cs = Some (miner pod)
       /\ fst (newBlock (fst (fst (triggerState pod reg now))) tail cs d) = Ok block
       /\ Hash (tailBlock (chain (engine minted))) = Hash block
       /\ steps minted
          = Collected packed d
            :: (if nextSlot nowInMs >? Int64.mul clock SecondInMs
                then [Waited (Int64.sub (nextSlot nowInMs)
                                        (Int64.mul clock SecondInMs))]
                else []).
Proof.
  intros nowInMs tail minted. subst minted. unfold mintBlock. fold nowInMs tail.
  destruct (enable pod); tidy; [| discriminate].
  destruct (pending pod); tidy; [discriminate |].
  destruct (checkDeadline tail nowInMs) as [d | e]; tidy; [| discriminate].
  destruct (checkProposer pod tail nowInMs) as [cs | e] eqn:Hcp; tidy;
    [| discriminate].
  destruct (triggerState pod reg now) as [[pod1 reg1] err1]. tidy.
  pose proof (newBlock_steps pod1 tail cs d) as Hsteps.
  destruct (newBlock pod1 tail cs d) as [[block | e] packed] eqn:Hnb; tidy;
    [| discriminate].
  pose proof (pushAndBroadcast_tail pod1 tail block) as Hpush.
  destruct (pushAndBroadcast pod1 tail block) as [pod2 [e |]]; tidy;
    [discriminate |].
  intros _. split; [reflexivity |]. split; [reflexivity |].
  destruct Hsteps as [(b0 & _ & p & ->) | [(e & He & _) | (e & ? & ? & He & _)]];
    try discriminate.
  exists d, cs, block, p. split; [reflexivity |]. split; [reflexivity |].
  split.
  { exact (checkProposer_names_miner pod tail nowInMs cs Hcp). }
  split; [rewrite Hnb; reflexivity |]. split; [apply Hpush; reflexivity |].
  reflexivity.
Qed.

(** X25: [mintBlock] hands the transactions of the block back to the pool
    exactly when it fails after it has collected them, that is when
    sealing, signing or pushing the block fails. *)
Theorem mintBlock_returns_transactions (pod : PoD) (reg : Registry) (now clock : Z) :
  let minted := mintBlock pod reg now clock in
  (exists b, In (ReturnedTransactions b) (steps minted))
  <-> (failure minted <> None
       /\ exists b d, In (Collected b d) (steps minted)).
Proof.
  intros minted. subst minted. unfold mintBlock.
  set (nowInMs := Int64.mul now SecondInMs). set (tail := tailBlock (chain pod)).
  clearbody nowInMs tail.
  destruct (enable pod); tidy; [| quiet].
  destruct (pending pod); tidy; [quiet |].
  destruct (checkDeadline tail nowInMs) as [d | e]; tidy; [| quiet].
  destruct (checkProposer pod tail nowInMs) as [cs | e]; tidy; [| quiet].
  destruct (triggerState pod reg now) as [[pod1 reg1] err1]. tidy.
  pose proof (newBlock_steps pod1 tail cs d) as Hsteps.
  destruct (newBlock pod1 tail cs d) as [[block | e] packed]; tidy.
  - destruct Hsteps as [(b0 & _ & p & ->) | [(e & He & _) | (e & ? & ? & He & _)]];
      try discriminate.
    pose proof (waited_no_return
                  (nextSlot nowInMs >? Int64.mul clock SecondInMs)
                  (Int64.sub (nextSlot nowInMs) (Int64.mul clock SecondInMs)))
      as Hw.
    generalize dependent
      (if nextSlot nowInMs >? Int64.mul clock SecondInMs
       then [Waited (Int64.sub (nextSlot nowInMs) (Int64.mul clock SecondInMs))]
       else []).
    intros waited Hw.
    destruct (pushAndBroadcast pod1 tail block) as [pod2 [e |]]; tidy.
    + split.
      * intros _. split; [discriminate |]. exists p, d. left. reflexivity.
      * intros _. exists block. right. apply in_or_app. right. left. reflexivity.
    + split.
      * intros [b [Hb | Hb]]; [discriminate |]. contradiction (Hw b Hb).
      * intros [Hc _]. contradiction Hc. reflexivity.
  - destruct Hsteps as [(b0 & Hb0 & _) | [(e' & _ & ->) | (e' & p & r & _ & ->)]];
      [discriminate | quiet |].
    split.
    + intros _. split; [discriminate |]. exists p, d. left. reflexivity.
    + intros _. exists r. right. left. reflexivity.
Qed.

(** X26: a disabled engine is inert: the ticks of the loop, however many,
    leave the engine and the registry as they were, and each of them
    packs nothing. *)
Theorem blockLoop_of_disabled_engine (pod : PoD) (reg : Registry)
        (ticks : list (Z * Z)) :
  enable pod = false ->
  blockLoop pod reg ticks = (pod, reg)
  /\ forall now clock,
       tick pod reg now clock
       = {| engine := pod; registry := reg;
            failure := Some ErrCannotMintWhenDisable; steps := [] |}.
Proof.
  intros He.
  assert (Htick : forall now clock,
             tick pod reg now clock
             = {| engine := pod; registry := reg;
                  failure := Some ErrCannotMintWhenDisable; steps := [] |}).
  { intros now clock. unfold tick.
    assert (Hb : fst (heartbeat pod now) = pod)
      by (unfold heartbeat; rewrite He; reflexivity).
    rewrite Hb. apply mintBlock_gates. exact He. }
  split; [| exact Htick].
  induction ticks as [| [now clock] rest IH]; [reflexivity |].
  cbn [blockLoop]. rewrite Htick. exact IH.
Qed.

End ProducerFacts.

Section NextSlotFacts.
Context {consts : Constants} {neblet : Neblet} {workshop : Workshop}
        (Hwf : wf_constants).

(** X27: past the deadline check, the consensus state [checkProposer] asks
    the tail for is that of the next slot: the seconds it passes are at
    least one, and added to the timestamp of the tail they give the next
    slot exactly. *)
Theorem checkProposer_asks_next_slot (pod : PoD) (tail : Block) (now d : Z) :
  Int64.min_int <= now ->
  now + BlockIntervalInMs - SecondInMs <= Int64.max_int ->
  0 <= Timestamp tail ->
  Timestamp tail * SecondInMs <= Int64.max_int ->
  checkDeadline tail now = Ok d ->
  exists elapsed,
    1 <= elapsed
    /\ (Timestamp tail + elapsed) * SecondInMs = nextSlot now
    /\ checkProposer pod tail now
       = match NextConsensusState tail elapsed with
         | Err _ => Err ErrGenerateNextConsensusState
         | Ok consensusState =>
             match StateProposer consensusState with
             | None => Err ErrInvalidBlockProposer
             | Some proposer =>
                 if Equals proposer (miner pod) then Ok consensusState
                 else Err ErrInvalidBlockProposer
             end
         end.
Proof.
  intros Hlo Hhi Hts0 Hts Hok.
  pose proof (block_interval_bounds Hwf) as Hb.
  pose proof (wf_block_seconds Hwf) as Hbs.
  assert (Int64.in_range (nextSlot now)) as Hr
    by (unfold nextSlot, Int64.mul; apply wrap64_range).
  destruct (slots_are_multiples Hwf now) as [_ [q Hq]].
  assert (Int64.mul (Timestamp tail) SecondInMs = Timestamp tail * SecondInMs)
    as Emul.
  { unfold Int64.mul. apply wrap64_id.
    unfold SecondInMs, Int64.in_range, Int64.min_int, Int64.max_int in *. lia. }
  assert (Timestamp tail * SecondInMs < nextSlot now) as Hlt.
  { unfold checkDeadline in Hok. rewrite Emul in Hok.
    destruct (Z.geb_spec (Timestamp tail * SecondInMs) (nextSlot now));
      [discriminate | lia]. }
  unfold SecondInMs in *.
  apply Z.mod_divide in Hbs; [| lia]. destruct Hbs as [k Hk].
  set (elapsed := q * k - Timestamp tail).
  assert (nextSlot now - Timestamp tail * 1000 = elapsed * 1000) as Ediff
    by (subst elapsed; rewrite Hq, Hk; ring).
  assert (Int64.quo (Int64.sub (nextSlot now) (Int64.mul (Timestamp tail) 1000))
                    1000 = elapsed) as Eq.
  { unfold Int64.quo, Int64.sub. change SecondInMs with 1000 in Emul.
    rewrite Emul, (wrap64_id (nextSlot now - Timestamp tail * 1000))
      by (unfold Int64.in_range, Int64.min_int, Int64.max_int in *; lia).
    rewrite Ediff, Z.quot_mul by lia.
    apply wrap64_id.
    unfold Int64.in_range, Int64.min_int, Int64.max_int in *; lia. }
  exists elapsed. split; [lia |]. split; [lia |].
  unfold checkProposer. change SecondInMs with 1000. rewrite Eq.
  destruct (NextConsensusState tail elapsed) as [cs | e]; [| reflexivity].
  destruct (StateProposer cs) as [p |]; [| reflexivity].
  destruct (Equals p (miner pod)); reflexivity.
Qed.

End NextSlotFacts.

(** ** The properties at work on the scenarios *)

Lemma nextSlot_follows_lastSlot_witness :
  @nextSlot scenario_constants 1501000
  = @lastSlot scenario_constants 1501000 + 15000.
Proof.
  apply (@nextSlot_follows_lastSlot scenario_constants scenario_constants_wf 1501000);
    vm_compute; discriminate.
Defined.

Lemma nextSlot_idempotent_witness :
  @nextSlot scenario_constants (@nextSlot scenario_constants 1501000)
  = @nextSlot scenario_constants 1501000.
Proof.
  apply (@nextSlot_idempotent scenario_constants scenario_constants_wf 1501000);
    vm_compute; discriminate.
Defined.

Lemma checkDeadline_window_witness :
  1501000 <= 1506200 <= @nextSlot scenario_constants 1501000
  /\ Int64.mul (Timestamp (s5_block 100)) SecondInMs
     = @lastSlot scenario_constants 1501000.
Proof.
  destruct (@checkDeadline_window scenario_constants scenario_constants_wf
              (s5_block 100) 1501000 1506200)
    as (Hd & _ & _ & _).
  - lia.
  - reflexivity.
  - vm_compute. discriminate.
  - vm_compute. discriminate.
  - vm_compute. reflexivity.
  - split; [exact Hd | vm_compute; reflexivity].
Defined.

Lemma serial_counts_dynasties_witness :
  @serial scenario_constants 3600 = 1
  /\ @serial scenario_constants 3600 <= @serial scenario_constants 7200.
Proof.
  destruct (@serial_counts_dynasties scenario_constants scenario_constants_wf
              3600 7200 1)
    as [Hiff Hmono].
  - lia.
  - vm_compute. discriminate.
  - split.
    + apply Hiff. vm_compute. split; [discriminate | reflexivity].
    + apply Hmono; [lia | vm_compute; discriminate].
Defined.

Lemma offMidpoint_seconds_witness :
  @offMidpoint scenario_constants 1800 = false.
Proof.
  apply (@offMidpoint_seconds scenario_constants scenario_constants_wf 1800).
  - reflexivity.
  - lia.
  - vm_compute. discriminate.
  - vm_compute. reflexivity.
Defined.

Lemma less_strict_total_order_witness :
  less s4_tail s4_best = true /\ less s4_best s4_tail = false.
Proof.
  destruct (less_strict_total_order s4_tail s4_best s4_tail) as (_ & Hasym & _).
  assert (less s4_tail s4_best = true) as Hless by (vm_compute; reflexivity).
  split; [exact Hless | exact (Hasym Hless)].
Defined.

Lemma ForkChoice_keeps_best_tail_witness :
  @ForkChoice (collaborators true) (engine_on s5_chain)
  = (engine_on s5_chain, None).
Proof.
  apply (@ForkChoice_keeps_best_tail (collaborators true) (engine_on s5_chain)).
  intros v Hv. destruct Hv.
Defined.

Lemma ForkChoice_asks_only_upward_witness :
  In s4_best (detachedTailBlocks s4_chain) /\ less s4_tail s4_best = true.
Proof.
  destruct (@ForkChoice_asks_only_upward (collaborators true) (engine_on s4_chain))
    as [Hsame | (Hin & Hless & _)].
  - vm_compute in Hsame. discriminate Hsame.
  - split; [exact Hin | exact Hless].
Defined.

Lemma s5_plain : Forall plain_timestamp s5_path.
Proof.
  apply Forall_forall. intros b Hb.
  assert (forallb (fun b => (0 <=? Timestamp b)
                            && (Timestamp b * SecondInMs <=? Int64.max_int))
                  s5_path = true) as Hall
    by (vm_compute; reflexivity).
  rewrite forallb_forall in Hall. specialize (Hall b Hb).
  apply andb_prop in Hall as [H0 H1]. apply Z.leb_le in H0, H1.
  split; assumption.
Qed.

Lemma descending_sorted (l : list Block) :
  (forall i, (S i < List.length l)%nat ->
             Timestamp (nth (S i) l (s5_block 0)) <= Timestamp (nth i l (s5_block 0))) ->
  StronglySorted (fun a b => Timestamp b <= Timestamp a) l.
Proof.
  intros Hstep. apply Sorted_StronglySorted; [intros a b c Hab Hbc; lia |].
  induction l as [| a l IH]; [constructor |].
  constructor.
  - apply IH. intros i Hi. apply (Hstep (S i)). simpl. lia.
  - destruct l as [| b l]; constructor.
    apply (Hstep 0%nat). simpl. lia.
Qed.

Lemma s5_descends :
  StronglySorted (fun a b => Timestamp b <= Timestamp a) s5_path.
Proof.
  apply descending_sorted. intros i Hi.
  assert (forallb (fun i => Timestamp (nth (S i) s5_path (s5_block 0))
                            <=? Timestamp (nth i s5_path (s5_block 0)))
                  (seq 0 (List.length s5_path - 1)) = true) as Hall
    by (vm_compute; reflexivity).
  rewrite forallb_forall in Hall. apply Z.leb_le. apply Hall.
  apply in_seq. lia.
Qed.

Lemma UpdateLIB_frame_witness :
  exists pod',
    @UpdateLIB scenario_constants (collaborators true) 100 (engine_on s5_chain) []
    = Some pod'
    /\ tailBlock (chain pod') = s5_block 100
    /\ slot pod' = LRU.New 128.
Proof.
  destruct (@UpdateLIB scenario_constants (collaborators true) 100
              (engine_on s5_chain) []) as [pod' |] eqn:E.
  - exists pod'. split; [reflexivity |].
    destruct (@UpdateLIB_frame scenario_constants (collaborators true) 100
                (engine_on s5_chain) pod' [] E) as (Ht & _ & _ & Hs & _).
    split; [exact Ht | exact Hs].
  - vm_compute in E. discriminate E.
Defined.

Lemma UpdateLIB_effects_witness :
  exists pod' witness moved,
    @UpdateLIB scenario_constants (collaborators true) 100 (engine_on s5_chain) []
    = Some pod'
    /\ effects pod' = witness ++ moved.
Proof.
  destruct (@UpdateLIB scenario_constants (collaborators true) 100
              (engine_on s5_chain) []) as [pod' |] eqn:E.
  - destruct (@UpdateLIB_effects scenario_constants (collaborators true) 100
                (engine_on s5_chain) pod' [] E) as (witness & moved & He & _).
    exists pod', witness, moved. split; [reflexivity | exact He].
  - vm_compute in E. discriminate E.
Defined.

Lemma UpdateLIB_finalizes_stored_block_witness :
  exists pod',
    @UpdateLIB scenario_constants (collaborators true) 100 (engine_on s5_chain) []
    = Some pod'
    /\ In (LIB (chain pod')) (s5_block 100 :: blocks s5_chain).
Proof.
  destruct (@UpdateLIB scenario_constants (collaborators true) 100
              (engine_on s5_chain) []) as [pod' |] eqn:E.
  - exists pod'. split; [reflexivity |].
    destruct (@UpdateLIB_finalizes_stored_block scenario_constants
                (collaborators true) 100 (engine_on s5_chain) pod' [] E)
      as [Hsame | [Hin _]].
    + rewrite Hsame. right. left. reflexivity.
    + exact Hin.
  - vm_compute in E. discriminate E.
Defined.

Lemma UpdateLIB_needs_enough_blocks_witness :
  exists pod',
    @UpdateLIB scenario_constants (collaborators true) 5 (engine_on short_chain) []
    = Some pod'
    /\ LIB (chain pod') = s5_block 1.
Proof.
  destruct (@UpdateLIB_needs_enough_blocks scenario_constants (collaborators true)
              scenario_constants_wf 5 (engine_on short_chain) [])
    as (pod' & Hrun & Hlib & _).
  - lia.
  - vm_compute. split; discriminate.
  - vm_compute. split; discriminate.
  - vm_compute. reflexivity.
  - exists pod'. split; [exact Hrun | exact Hlib].
Defined.

Lemma short_dynasties_wf : @wf_constants short_dynasties.
Proof.
  constructor; unfold Int64.in_range, Int64.min_int, Int64.max_int; simpl;
    try reflexivity; lia.
Qed.

Lemma s8_ancestry :
  @ancestry (collaborators true) s8_chain (s5_block 1) (s5_block 9) s8_path.
Proof.
  apply (@ancestors_sound (collaborators true) s8_chain (s5_block 1) 9).
  vm_compute. reflexivity.
Qed.

Lemma s8_plain : Forall plain_timestamp s8_path.
Proof.
  apply Forall_forall. intros b Hb.
  assert (forallb (fun b => (0 <=? Timestamp b)
                            && (Timestamp b * SecondInMs <=? Int64.max_int))
                  s8_path = true) as Hall
    by (vm_compute; reflexivity).
  rewrite forallb_forall in Hall. specialize (Hall b Hb).
  apply andb_prop in Hall as [H0 H1]. apply Z.leb_le in H0, H1.
  split; assumption.
Qed.

Lemma s8_descends :
  StronglySorted (fun a b => Timestamp b <= Timestamp a) s8_path.
Proof.
  apply descending_sorted. intros i Hi.
  assert (forallb (fun i => Timestamp (nth (S i) s8_path (s5_block 0))
                            <=? Timestamp (nth i s8_path (s5_block 0)))
                  (seq 0 (List.length s8_path - 1)) = true) as Hall
    by (vm_compute; reflexivity).
  rewrite forallb_forall in Hall. apply Z.leb_le. apply Hall.
  apply in_seq. lia.
Qed.

(** On S5 the walk stays in one dynasty; on S8 it crosses two dynasty
    boundaries, the count starts again at each, and the quorum of four
    is met at height 4, in the second dynasty from the tail. *)
Lemma UpdateLIB_counts_by_dynasty_witness :
  (exists pod',
     @UpdateLIB scenario_constants (collaborators true) 100 (engine_on s5_chain) []
     = Some pod'
     /\ LIB (chain pod') = s5_block 16)
  /\ (exists pod',
        @UpdateLIB short_dynasties (collaborators true) 10 (engine_on s8_chain) []
        = Some pod'
        /\ LIB (chain pod') = s5_block 4)
  /\ map (fun b => @serial short_dynasties (Timestamp b)) s8_path
     = [2; 2; 1; 1; 1; 1; 0; 0].
Proof.
  split; [| split; [| vm_compute; reflexivity]].
  - destruct (@UpdateLIB_counts_by_dynasty scenario_constants (collaborators true)
                scenario_constants_wf (engine_on s5_chain) [] s5_path 100)
      as (pod' & Hrun & Hq).
    + vm_compute. discriminate.
    + vm_compute. discriminate.
    + exact s5_ancestry.
    + exact s5_plain.
    + exact s5_descends.
    + apply Nat.ltb_lt. vm_compute. reflexivity.
    + exists pod'. split; [exact Hrun |].
      assert (@firstDynastyQuorum scenario_constants [] s5_path = Some (s5_block 16))
        as E by (vm_compute; reflexivity).
      rewrite E in Hq. apply Hq. reflexivity.
  - destruct (@UpdateLIB_counts_by_dynasty short_dynasties (collaborators true)
                short_dynasties_wf (engine_on s8_chain) [] s8_path 10)
      as (pod' & Hrun & Hq).
    + vm_compute. discriminate.
    + vm_compute. discriminate.
    + exact s8_ancestry.
    + exact s8_plain.
    + exact s8_descends.
    + apply Nat.ltb_lt. vm_compute. reflexivity.
    + exists pod'. split; [exact Hrun |].
      assert (@firstDynastyQuorum short_dynasties [] s8_path = Some (s5_block 4))
        as E by (vm_compute; reflexivity).
      rewrite E in Hq. apply Hq. reflexivity.
Defined.

Lemma sendTransaction_all_or_nothing_witness :
  exists tx,
    fst (@sendTransaction scenario_constants (collaborators true)
           (remote_engine_on s5_chain) 15 PoDHeartbeat [])
    = did (remote_engine_on s5_chain) (PushedTransaction tx)
    /\ tx_timestamp tx = 15
    /\ tx_alg tx = 1.
Proof.
  destruct (@sendTransaction_all_or_nothing scenario_constants (collaborators true)
              (remote_engine_on s5_chain) 15 PoDHeartbeat [])
    as [(tx & E & _ & Hremote) | ((e & He) & _)].
  - destruct (Hremote eq_refl) as (unsigned & sign & _ & Hts & _ & ->).
    exists (SetSignature unsigned 1 sign).
    split; [rewrite E; reflexivity |]. split; [exact Hts | reflexivity].
  - vm_compute in He. discriminate He.
Defined.

Lemma CheckDoubleMint_keeps_first_block_witness :
  LRU.lookup Z.eqb
    (slot (snd (@CheckDoubleMint scenario_constants (collaborators true)
                  s6_engine s6_blockB)))
    15
  = Some s6_blockA.
Proof.
  rewrite (@CheckDoubleMint_keeps_first_block scenario_constants
             (collaborators true) s6_engine s6_blockB 15).
  reflexivity.
Defined.

Lemma VerifyBlock_accepts_exactly_witness :
  snd (@VerifyBlock scenario_constants (collaborators true) (engine_on s5_chain)
         s6_blockA)
  = None.
Proof.
  apply (@VerifyBlock_accepts_exactly scenario_constants (collaborators true)
           (engine_on s5_chain) s6_blockA).
  - vm_compute. split; discriminate.
  - split; [reflexivity |].
    split; [vm_compute; reflexivity |].
    split; [exists 1; reflexivity |].
    split; [| intros _; reflexivity].
    exists [key_of 7], [key_of 7], (key_of 7), (key_of 7).
    repeat split; reflexivity.
Defined.

Lemma VerifyBlock_then_CheckDoubleMint_witness :
  fst (@CheckDoubleMint scenario_constants (collaborators true)
         (fst (@VerifyBlock scenario_constants (collaborators true)
                 (engine_on s5_chain) s6_blockA))
         s6_blockA)
  = false
  /\ fst (@CheckDoubleMint scenario_constants (collaborators true)
            (fst (@VerifyBlock scenario_constants (collaborators true)
                    (engine_on s5_chain) s6_blockA))
            s6_blockB)
     = true.
Proof.
  destruct (@VerifyBlock_then_CheckDoubleMint scenario_constants
              (collaborators true) (engine_on s5_chain) s6_blockA s6_blockB)
    as [Hsame Hother].
  - apply Nat.ltb_lt. vm_compute. reflexivity.
  - vm_compute. reflexivity.
  - split; [exact Hsame |]. apply Hother; [reflexivity | discriminate].
Defined.

Lemma heartbeat_sends_only_when_witness :
  snd (@heartbeat scenario_constants signed_up (engine_on s5_chain) 100) = None
  /\ exists tx,
       effects (fst (@heartbeat scenario_constants signed_up (engine_on s5_chain) 100))
       = [PushedTransaction tx].
Proof.
  destruct (@heartbeat_sends_only_when scenario_constants signed_up
              (engine_on s5_chain) 100)
    as (_ & _ & _ & _ & Hnone & tx & Htx).
  - vm_compute. discriminate.
  - split; [exact Hnone |]. exists tx. exact Htx.
Defined.

Lemma mining_waits_for_enable_and_resume_witness :
  failure
    (@mintBlock scenario_constants (collaborators true) (workshop true)
       (fold_left (@obey (workshop true))
                  [DoEnableMining "wrong"; DoResumeMining]
                  (fresh_engine_on s5_chain))
       (@nil Z) 1501 1501)
  = Some ErrCannotMintWhenDisable.
Proof.
  destruct (@mining_waits_for_enable_and_resume scenario_constants
              (collaborators true) (workshop true) (fresh_engine_on s5_chain)
              [DoEnableMining "wrong"; DoResumeMining] (@nil Z) 1501 1501
              eq_refl eq_refl)
    as [_ Hearly].
  destruct Hearly as (_ & _ & [Hoff | Hpend]).
  - right. intros passphrase [Hin | [Hin | []]]; [| discriminate Hin].
    injection Hin as <-. vm_compute. discriminate.
  - exact Hoff.
  - vm_compute in Hpend. discriminate Hpend.
Defined.

Lemma checkProposer_accepts_only_own_slot_witness :
  @checkProposer scenario_constants (workshop true)
    (engine_on s5_chain) (s5_block 100) 1501000
  = Ok {| StateProposer := Some (key_of 7); StateTimeStamp := 1515 |}.
Proof.
  destruct (@checkProposer_accepts_only_own_slot scenario_constants
              (workshop true) (engine_on s5_chain)
              (s5_block 100) 1501000)
    as [Hiff _].
  apply Hiff. split; vm_compute; reflexivity.
Defined.

Lemma checkProposer_asks_next_slot_witness :
  exists elapsed,
    1 <= elapsed
    /\ (Timestamp (s5_block 100) + elapsed) * SecondInMs
       = @nextSlot scenario_constants 1501000.
Proof.
  destruct (@checkProposer_asks_next_slot scenario_constants
              (workshop true) scenario_constants_wf (engine_on s5_chain)
              (s5_block 100) 1501000 1506200)
    as (elapsed & Hpos & Hslot & _).
  - vm_compute. discriminate.
  - vm_compute. discriminate.
  - vm_compute. discriminate.
  - vm_compute. discriminate.
  - vm_compute. reflexivity.
  - exists elapsed. split; [exact Hpos | exact Hslot].
Defined.

Lemma triggerState_sends_only_when_unknown_witness :
  exists tx,
    effects (fst (fst (@triggerState scenario_constants (collaborators true)
                         (workshop true) (engine_on s5_chain) (@nil Z) 1501)))
    = [PushedTransaction tx].
Proof.
  destruct (@triggerState_sends_only_when_unknown scenario_constants
              (collaborators true) (workshop true) (engine_on s5_chain) (@nil Z) 1501)
    as (_ & [Hsame | [tx Hsent]] & _).
  - vm_compute in Hsame. discriminate Hsame.
  - exists tx. exact Hsent.
Defined.

Lemma mintBlock_checks_first_witness :
  @mintBlock scenario_constants (collaborators true) (workshop true)
    (engine_on s5_chain) (@nil Z) 1516 1516
  = {| engine := engine_on s5_chain; registry := (@nil Z : @Registry (workshop true));
       failure := Some ErrWaitingBlockInLastSlot; steps := [] |}.
Proof.
  destruct (@mintBlock_checks_first scenario_constants (collaborators true)
              (workshop true) (engine_on s5_chain) (@nil Z) 1516 1516)
    as (_ & _ & Hdeadline & _).
  apply Hdeadline; [reflexivity | reflexivity | vm_compute; reflexivity].
Defined.

Lemma mintBlock_success_witness :
  exists packed,
    steps (@mintBlock scenario_constants (collaborators true) (workshop true)
             (engine_on s5_chain) (@nil Z) 1501 1501)
    = [Collected packed 1506200; Waited 14000].
Proof.
  destruct (@mintBlock_success scenario_constants (collaborators true)
              (workshop true) (engine_on s5_chain) (@nil Z) 1501 1501)
    as (_ & _ & d & cs & block & packed & Hd & _ & _ & _ & _ & Hsteps).
  - vm_compute. reflexivity.
  - exists packed. rewrite Hsteps.
    assert (d = 1506200) as -> by (vm_compute in Hd; injection Hd as <-; reflexivity).
    reflexivity.
Defined.

Lemma mintBlock_returns_transactions_witness :
  exists b,
    In (ReturnedTransactions b)
       (steps (@mintBlock scenario_constants (collaborators true) (workshop false)
                 (engine_on s5_chain) (@nil Z) 1501 1501)).
Proof.
  apply (@mintBlock_returns_transactions scenario_constants (collaborators true)
           (workshop false) (engine_on s5_chain) (@nil Z) 1501 1501).
  split; [vm_compute; discriminate |].
  destruct (steps (@mintBlock scenario_constants (collaborators true)
                     (workshop false) (engine_on s5_chain) (@nil Z) 1501 1501))
    as [| [b d | b | ms] rest] eqn:E;
    try (vm_compute in E; discriminate E).
  exists b, d. left. reflexivity.
Defined.

Lemma blockLoop_of_disabled_engine_witness :
  @blockLoop scenario_constants (collaborators true) (workshop true)
    (fresh_engine_on s5_chain) (@nil Z) [(1501, 1501); (1502, 1502)]
  = (fresh_engine_on s5_chain, @nil Z).
Proof.
  apply (@blockLoop_of_disabled_engine scenario_constants (collaborators true)
           (workshop true) (fresh_engine_on s5_chain) (@nil Z)
           [(1501, 1501); (1502, 1502)]).
  reflexivity.
Defined.

Lemma dynasty_has_room_witness :
  Z.of_nat (List.length [s6_blockA; s6_blockD])
  <= @NumberOfBlocksInDynasty scenario_constants.
Proof.
  apply (@dynasty_has_room scenario_constants (collaborators true)
           scenario_constants_wf [s6_blockA; s6_blockD] 0).
  - exists 240. reflexivity.
  - constructor; [intros [Hin | []]; discriminate Hin |].
    constructor; [intros [] | constructor].
  - intros b [<- | [<- | []]];
      (split; [split; vm_compute; discriminate |]);
      (split; [vm_compute; reflexivity |]);
      exists (engine_on s5_chain); vm_compute; reflexivity.
Defined.
